(** * picoclaw multi-agent hub: conversations, mailboxes, router, mentions

    A shallow embedding of the in-process messaging fabric of
    [pkg/channels]: the conversation bookkeeping ([Conversation],
    [ConversationManager]), the actor mailboxes ([ActorMailbox],
    [ActorSystem]), the [MessageRouter] and the mention parsers of the
    gateway and of the reply handler.

    Conventions of the embedding.
    - Go [string] is [string]; [AgentType] is a Go string type and stays one.
    - Go [int] is a 64-bit two's complement integer: it is a [Z] and every
      arithmetic result goes through [wrapInt].
    - [time.Time] is the number of nanoseconds [time.Now().UnixNano()]
      reports; the wall clock is an oracle read once per [time.Now()] call.
    - [map[K]V] is a [gmap K V]; a nil slice and an empty slice are both [[]].
    - A [*Conversation] taken from the registry is named by its channel id:
      no router path removes an entry between taking the handle and using
      it, so mutation through the handle is an update of the registry entry.
    - A run-time panic (send on, or close of, a closed channel) is the
      outcome [Panics]; logging has no effect on the state and is left out. *)

From Stdlib Require Import ZArith Ascii String.
From stdpp Require Import gmap strings list pretty.

Open Scope string_scope.
Open Scope list_scope.
Open Scope Z_scope.

Abbreviation AgentType := string (only parsing).
Abbreviation Time := Z (only parsing).

(** ** Go [int] *)

Definition intMax : Z := 9223372036854775807.
Definition intMin : Z := -9223372036854775808.

Definition wrapInt (z : Z) : Z := (z + 2 ^ 63) mod 2 ^ 64 - 2 ^ 63.

(** ** The roster (discord_multi.go) *)

Definition AgentMaster : AgentType := "master".
Definition AgentDev : AgentType := "dev".
Definition AgentQA : AgentType := "qa".
Definition AgentPM : AgentType := "pm".
Definition AgentOps : AgentType := "ops".

Definition AllAgentTypes : list AgentType :=
  [AgentMaster; AgentDev; AgentQA; AgentPM; AgentOps].

(** ** Conversation messages and conversations (conversation.go) *)

Inductive ConversationState :=
  | ConvStateIdle
  | ConvStateActive
  | ConvStateProcessing
  | ConvStateClosed.

#[global] Instance ConversationState_eq_dec : EqDecision ConversationState.
Proof. solve_decision. Defined.

Module ConversationMessage.
Record t := mk {
  ID : string;
  From : AgentType;
  To : list AgentType;
  Content : string;
  Timestamp : Time;
  IsFromHuman : bool;
  Metadata : gmap string string
}.

Definition withTimestamp (ts : Time) (m : t) : t :=
  mk (ID m) (From m) (To m) (Content m) ts (IsFromHuman m) (Metadata m).

Definition withTo (to : list AgentType) (m : t) : t :=
  mk (ID m) (From m) to (Content m) (Timestamp m) (IsFromHuman m) (Metadata m).
End ConversationMessage.

Module Conversation.
Record t := mk {
  ID : string;
  ChannelID : string;
  State : ConversationState;
  PendingCount : Z;
  Messages : list ConversationMessage.t;
  ActiveAgents : gmap AgentType bool;
  CreatedAt : Time;
  LastActivity : Time;
  IdleTimeout : Z
}.

Definition withState (s : ConversationState) (c : t) : t :=
  mk (ID c) (ChannelID c) s (PendingCount c) (Messages c) (ActiveAgents c)
     (CreatedAt c) (LastActivity c) (IdleTimeout c).

Definition withPendingCount (p : Z) (c : t) : t :=
  mk (ID c) (ChannelID c) (State c) p (Messages c) (ActiveAgents c)
     (CreatedAt c) (LastActivity c) (IdleTimeout c).

(** The agents [AddMessage] marks active: the sender unless the message is
    from the human or has no sender, then every addressee. *)
Definition trackAgents (msg : ConversationMessage.t)
    (active : gmap AgentType bool) : gmap AgentType bool :=
  let active :=
    if negb (ConversationMessage.IsFromHuman msg)
       && negb (String.eqb (ConversationMessage.From msg) "")
    then <[ConversationMessage.From msg := true]> active
    else active in
  foldl (fun acc to => <[to := true]> acc) active (ConversationMessage.To msg).

(** [AddMessage]: [stamp] and [activity] are the two readings of
    [time.Now()] the method takes, in that order. *)
Definition AddMessage (stamp activity : Time) (msg : ConversationMessage.t)
    (c : t) : t :=
  let msg := ConversationMessage.withTimestamp stamp msg in
  mk (ID c) (ChannelID c)
     (match State c with ConvStateIdle => ConvStateActive | s => s end)
     (PendingCount c)
     (Messages c ++ [msg])
     (trackAgents msg (ActiveAgents c))
     (CreatedAt c) activity (IdleTimeout c).

Definition IncrementPending (c : t) : t :=
  withState ConvStateProcessing
    (withPendingCount (wrapInt (PendingCount c + 1)) c).

Definition DecrementPending (c : t) : t :=
  let c :=
    if 0 <? PendingCount c
    then withPendingCount (wrapInt (PendingCount c - 1)) c
    else c in
  if PendingCount c =? 0 then withState ConvStateActive c else c.

(** What [CloseConversation] and the idle reaper do to the conversation
    object itself before dropping it from the registry. *)
Definition close (c : t) : t := withState ConvStateClosed c.

Definition GetPendingCount (c : t) : Z := PendingCount c.
Definition IsIdle (c : t) : bool := PendingCount c =? 0.
Definition GetState (c : t) : ConversationState := State c.

(** The conversation [GetOrCreateConversation] builds for a new channel;
    [id] is the formatted identifier, [created] and [activity] the two
    clock readings. *)
Definition fresh (id channelID : string) (created activity : Time)
    (idleTimeout : Z) : t :=
  mk id channelID ConvStateIdle 0 [] ∅ created activity idleTimeout.

(** Calls on one conversation, each with the clock readings it takes. *)
Inductive Op :=
  | OpAddMessage (stamp activity : Time) (msg : ConversationMessage.t)
  | OpIncrementPending
  | OpDecrementPending
  | OpClose.

Definition apply (c : t) (op : Op) : t :=
  match op with
  | OpAddMessage stamp activity msg => AddMessage stamp activity msg c
  | OpIncrementPending => IncrementPending c
  | OpDecrementPending => DecrementPending c
  | OpClose => close c
  end.

Definition run (ops : list Op) (c : t) : t := foldl apply c ops.

(** The bookkeeping invariant of a conversation: the counter is not
    negative, it is positive in state Processing and zero in state Idle, and
    a positive counter means Processing unless the conversation was closed. *)
Definition consistent (c : t) : Prop :=
  0 <= PendingCount c
  /\ (State c = ConvStateProcessing -> 0 < PendingCount c)
  /\ (0 < PendingCount c ->
      State c = ConvStateProcessing \/ State c = ConvStateClosed)
  /\ (State c = ConvStateIdle -> PendingCount c = 0).

End Conversation.

(** ** Actor messages and mailboxes (discord_actor.go) *)

Module ActorMessage.
Record t := mk {
  ID : string;
  From : AgentType;
  To : AgentType;
  Content : string;
  ChannelID : string;
  ReplyTo : string;
  Timestamp : Time;
  Metadata : gmap string string
}.
End ActorMessage.

(** The errors the actor layer builds with [fmt.Errorf], and the failure of
    an outbound post. *)
Inductive GoError :=
  | ErrMailboxFull (agent : AgentType)
  | ErrNotRegistered (agent : AgentType)
  | ErrSend (detail : string).

Definition Error (e : GoError) : string :=
  match e with
  | ErrMailboxFull agent => "mailbox full for agent " +:+ agent
  | ErrNotRegistered agent => "agent " +:+ agent +:+ " not registered"
  | ErrSend detail => detail
  end.

(** A call either returns or panics. *)
Inductive Outcome (A : Type) : Type :=
  | Returns (a : A)
  | Panics (reason : string).
Arguments Returns {A} a.
Arguments Panics {A} reason.

Module ActorMailbox.
(** [messages] is the content of the buffered channel, oldest first;
    [closed] records [close(m.messages)], [ctxDone] records [m.cancel()].
    The handler slot and the lock play no part in what follows. *)
Record t := mk {
  agent : AgentType;
  messages : list ActorMessage.t;
  capacity : Z;
  ctxDone : bool;
  closed : bool
}.

(** [make(chan ActorMessage, size)] panics when the buffer is out of the
    range the runtime allocates: [size] is negative, or [size] elements
    take more than [maxAlloc] less the channel header.  An [ActorMessage]
    takes 128 bytes (six strings of 16 bytes, a [time.Time] of 24, a map
    of 8), the header 96 (104 in the later versions of the runtime, which
    gives the same largest size), and [maxAlloc] is 2^48 bytes where [int]
    has 64 bits.  (A buffer within that range that the machine has no
    memory for ends the program; memory is not part of this model, and
    what is stated of a new mailbox is stated of a run in which
    [NewActorMailbox] returns.) *)
Definition actorMessageSize : Z := 128.
Definition hchanSize : Z := 96.
Definition maxAlloc : Z := 2 ^ 48.

Definition makechanFits (size : Z) : bool :=
  (0 <=? size) && (actorMessageSize * size <=? maxAlloc - hchanSize).

Definition NewActorMailbox (agent : AgentType) (capacity : Z) : Outcome t :=
  let capacity := if capacity <=? 0 then 100 else capacity in
  if makechanFits capacity then Returns (mk agent [] capacity false false)
  else Panics "makechan: size out of range".

Definition QueueSize (m : t) : Z := Z.of_nat (length (messages m)).

(** The buffered channel accepts a value without blocking iff it holds
    fewer than [capacity] values. *)
Definition isFull (m : t) : bool := capacity m <=? QueueSize m.

(** [Stop]: [cancel()] may be called any number of times; [close] of a
    channel that is already closed panics. *)
Definition Stop (m : t) : Outcome t :=
  let m := mk (agent m) (messages m) (capacity m) true (closed m) in
  if closed m then Panics "close of closed channel"
  else Returns (mk (agent m) (messages m) (capacity m) (ctxDone m) true).

(** [Send]: a [select] with one send case and a [default].  A send on a
    closed channel panics whether or not the buffer has room; otherwise
    the send case is taken iff the buffer has room. *)
Definition Send (msg : ActorMessage.t) (m : t) : Outcome (option GoError * t) :=
  if closed m then Panics "send on closed channel"
  else if isFull m then Returns (Some (ErrMailboxFull (agent m)), m)
  else Returns (None,
         mk (agent m) (messages m ++ [msg]) (capacity m) (ctxDone m) (closed m)).
End ActorMailbox.

(** ** The state the router works on *)

Module Clock.
(** [wall n] is what the [n]-th call of [time.Now()] returns; [reads]
    counts the calls made so far. *)
Record t := mk { wall : nat -> Time; reads : nat }.
End Clock.

Module ActorSystem.
Record t := mk { mailboxes : gmap AgentType ActorMailbox.t }.
End ActorSystem.

Module ConversationManager.
Record t := mk {
  conversations : gmap string Conversation.t;
  idleTimeout : Z;
  cancelled : bool
}.
End ConversationManager.

Record World := mkWorld {
  clock : Clock.t;
  actorSystem : ActorSystem.t;
  convManager : ConversationManager.t
}.

(** A call on the shared state: it returns a value and the state it leaves,
    or panics. *)
Definition M (A : Type) : Type := World -> Outcome (A * World).

Definition ret {A} (a : A) : M A := fun w => Returns (a, w).

Definition bind {A B} (m : M A) (k : A -> M B) : M B :=
  fun w =>
    match m w with
    | Returns (a, w') => k a w'
    | Panics reason => Panics reason
    end.

Notation "'let*' x ':=' m 'in' k" := (bind m (fun x => k))
  (at level 10, x name, m at level 100, k at level 200, only parsing).
Notation "m ';;' k" := (bind m (fun _ => k))
  (at level 100, k at level 200, right associativity, only parsing).

(** [time.Now()]: the next reading of the wall clock. *)
Definition tick (w : World) : World :=
  mkWorld (Clock.mk (Clock.wall (clock w)) (S (Clock.reads (clock w))))
          (actorSystem w) (convManager w).

Definition nowOf (w : World) : Time := Clock.wall (clock w) (Clock.reads (clock w)).

Definition timeNow : M Time := fun w => Returns (nowOf w, tick w).

Definition mailboxesOf (w : World) : gmap AgentType ActorMailbox.t :=
  ActorSystem.mailboxes (actorSystem w).

Definition conversationsOf (w : World) : gmap string Conversation.t :=
  ConversationManager.conversations (convManager w).

Definition setMailboxes (mbs : gmap AgentType ActorMailbox.t) (w : World) : World :=
  mkWorld (clock w) (ActorSystem.mk mbs) (convManager w).

Definition setConversations (cs : gmap string Conversation.t) (w : World) : World :=
  mkWorld (clock w) (actorSystem w)
    (ConversationManager.mk cs
       (ConversationManager.idleTimeout (convManager w))
       (ConversationManager.cancelled (convManager w))).

(** A method called through the handle of channel [channelID]. *)
Definition onConversation (channelID : string)
    (f : Conversation.t -> Conversation.t) : M unit :=
  fun w => Returns (tt, setConversations (alter f channelID (conversationsOf w)) w).

(** What a channel's conversation shows; a channel without a conversation
    shows what a new conversation would. *)
Definition pendingOf (w : World) (channelID : string) : Z :=
  from_option Conversation.PendingCount 0 (conversationsOf w !! channelID).

Definition historyOf (w : World) (channelID : string)
    : list ConversationMessage.t :=
  from_option Conversation.Messages [] (conversationsOf w !! channelID).

Definition activeAgentsOf (w : World) (channelID : string)
    : gmap AgentType bool :=
  from_option Conversation.ActiveAgents ∅ (conversationsOf w !! channelID).

Definition queueOf (w : World) (agent : AgentType) : list ActorMessage.t :=
  from_option ActorMailbox.messages [] (mailboxesOf w !! agent).

Definition mailboxFull (w : World) (agent : AgentType) : Prop :=
  exists m, mailboxesOf w !! agent = Some m /\ ActorMailbox.isFull m = true.

Definition mailboxStopped (w : World) (agent : AgentType) : Prop :=
  exists m, mailboxesOf w !! agent = Some m /\ ActorMailbox.closed m = true.

(** *** ConversationManager *)

(** [GetOrCreateConversation]: a new conversation takes three clock
    readings, for its identifier, [CreatedAt] and [LastActivity]. *)
Definition GetOrCreateConversation (channelID : string) : M unit :=
  fun w =>
    match conversationsOf w !! channelID with
    | Some _ => Returns (tt, w)
    | None =>
        (let* idTime := timeNow in
         let* created := timeNow in
         let* activity := timeNow in
         fun w =>
           let conv :=
             Conversation.fresh
               ("conv_" +:+ channelID +:+ "_" +:+ pretty idTime)
               channelID created activity
               (ConversationManager.idleTimeout (convManager w)) in
           Returns (tt, setConversations (<[channelID := conv]> (conversationsOf w)) w)) w
    end.

(** [GetConversation]: the [exists] half of the result; the handle is the
    channel id. *)
Definition GetConversation (channelID : string) : M bool :=
  fun w => Returns (bool_decide (is_Some (conversationsOf w !! channelID)), w).

(** [CloseConversation] marks the object closed, then drops it from the
    registry. *)
Definition CloseConversation (channelID : string) : M unit :=
  fun w =>
    match conversationsOf w !! channelID with
    | Some _ =>
        (onConversation channelID Conversation.close ;;
         fun w => Returns (tt, setConversations (delete channelID (conversationsOf w)) w)) w
    | None => Returns (tt, w)
    end.

(** [conv.AddMessage(msg)] through the handle, with its two clock readings. *)
Definition Conversation_AddMessage (channelID : string)
    (msg : ConversationMessage.t) : M unit :=
  let* stamp := timeNow in
  let* activity := timeNow in
  onConversation channelID (Conversation.AddMessage stamp activity msg).

(** *** ActorSystem *)

(** [RegisterAgent]: the mailbox is made first, so a panic of
    [NewActorMailbox] leaves the registry as it was. *)
Definition RegisterAgent (agent : AgentType) (capacity : Z) : M unit :=
  fun w =>
    match ActorMailbox.NewActorMailbox agent capacity with
    | Returns mailbox =>
        Returns (tt, setMailboxes (<[agent := mailbox]> (mailboxesOf w)) w)
    | Panics reason => Panics reason
    end.

Definition Route (msg : ActorMessage.t) : M (option GoError) :=
  fun w =>
    match mailboxesOf w !! ActorMessage.To msg with
    | None => Returns (Some (ErrNotRegistered (ActorMessage.To msg)), w)
    | Some mailbox =>
        match ActorMailbox.Send msg mailbox with
        | Returns (err, mailbox') =>
            Returns (err, setMailboxes (<[ActorMessage.To msg := mailbox']> (mailboxesOf w)) w)
        | Panics reason => Panics reason
        end
    end.

(** [StopAll] ranges over the registry and stops each mailbox in turn;
    [stopStep] is one turn of the loop. *)
Definition stopStep (acc : Outcome (gmap AgentType ActorMailbox.t))
    (agent : AgentType) : Outcome (gmap AgentType ActorMailbox.t) :=
  match acc with
  | Panics reason => Panics reason
  | Returns mbs =>
      match mbs !! agent with
      | None => Returns mbs
      | Some mailbox =>
          match ActorMailbox.Stop mailbox with
          | Returns mailbox' => Returns (<[agent := mailbox']> mbs)
          | Panics reason => Panics reason
          end
      end
  end.

Definition stopEach (mbs : gmap AgentType ActorMailbox.t)
    (agents : list AgentType) : Outcome (gmap AgentType ActorMailbox.t) :=
  foldl stopStep (Returns mbs) agents.

Definition StopAll : M unit :=
  fun w =>
    match stopEach (mailboxesOf w) (fst <$> map_to_list (mailboxesOf w)) with
    | Returns mbs => Returns (tt, setMailboxes mbs w)
    | Panics reason => Panics reason
    end.

(** *** MessageRouter *)

Definition RouteToAgent (from to : AgentType) (content channelID : string)
    : M (option GoError) :=
  let* idTime := timeNow in
  let* stamp := timeNow in
  let msg :=
    ActorMessage.mk ("msg_" +:+ pretty idTime) from to content channelID "" stamp ∅ in
  GetOrCreateConversation channelID ;;
  onConversation channelID Conversation.IncrementPending ;;
  let* err := Route msg in
  match err with
  | Some e =>
      onConversation channelID Conversation.DecrementPending ;;
      ret (Some e)
  | None =>
      Conversation_AddMessage channelID
        (ConversationMessage.mk (ActorMessage.ID msg) from [to] content 0 false ∅) ;;
      ret None
  end.

(** The loop of [RouteFromHuman] over the targets, with the errors
    collected so far. *)
Fixpoint routeEach (targets : list AgentType) (content channelID senderID : string)
    (errors : list GoError) : M (list GoError) :=
  match targets with
  | [] => ret errors
  | to :: targets =>
      let* idTime := timeNow in
      let* stamp := timeNow in
      let msg :=
        ActorMessage.mk ("msg_" +:+ pretty idTime) "" to content channelID "" stamp
          (<["sender_id" := senderID]> (<["is_human" := "true"]> ∅)) in
      onConversation channelID Conversation.IncrementPending ;;
      let* err := Route msg in
      match err with
      | Some e =>
          onConversation channelID Conversation.DecrementPending ;;
          routeEach targets content channelID senderID (errors ++ [e])
      | None => routeEach targets content channelID senderID errors
      end
  end.

Definition RouteFromHuman (targets : list AgentType)
    (content channelID senderID : string) : M (list GoError) :=
  GetOrCreateConversation channelID ;;
  let* idTime := timeNow in
  Conversation_AddMessage channelID
    (ConversationMessage.mk ("human_" +:+ pretty idTime) "" targets content 0 true
       (<["sender_id" := senderID]> ∅)) ;;
  let targets := match targets with [] => [AgentMaster] | _ => targets end in
  routeEach targets content channelID senderID [].

Definition HandleAgentResponse (from : AgentType) (content channelID : string)
    : M unit :=
  let* exists_ := GetConversation channelID in
  if exists_ : bool then
    onConversation channelID Conversation.DecrementPending ;;
    let* idTime := timeNow in
    Conversation_AddMessage channelID
      (ConversationMessage.mk ("resp_" +:+ pretty idTime) from [] content 0 false ∅)
  else ret tt.

(** ** Text (package strings)

    A Go string is its sequence of bytes.  [strings.Contains] and
    [strings.ReplaceAll] work on bytes whatever the text.
    [strings.ToLower] and [strings.TrimSpace] take the byte-wise path below
    when the text is ASCII.  On other text [strings.ToLower] maps every
    rune through [unicode.ToLower] and [strings.TrimSpace] also trims the
    white space of Unicode; the definitions below agree with them as long
    as the text is well-formed UTF-8, no rune of it outside ASCII has a
    lower-case form of its own, and no white space outside ASCII is at
    either end.  The statements that rest on them are stated for ASCII
    text, or evaluate them on texts of that kind. *)

Definition isASCIIChar (c : ascii) : bool := (N_of_ascii c <? 128)%N.

Fixpoint isASCII (s : string) : bool :=
  match s with
  | EmptyString => true
  | String c t => isASCIIChar c && isASCII t
  end.

Definition isUpper (c : ascii) : bool :=
  ((65 <=? N_of_ascii c) && (N_of_ascii c <=? 90))%N.

Definition toLowerChar (c : ascii) : ascii :=
  if isUpper c then ascii_of_N (N_of_ascii c + 32) else c.

Fixpoint ToLower (s : string) : string :=
  match s with
  | EmptyString => EmptyString
  | String c t => String (toLowerChar c) (ToLower t)
  end.

(** [asciiSpace]: tab, line feed, vertical tab, form feed, carriage return,
    space. *)
Definition isSpace (c : ascii) : bool :=
  let n := N_of_ascii c in
  ((9 <=? n) && (n <=? 13) || (n =? 32))%N.

Fixpoint trimLeft (s : string) : string :=
  match s with
  | EmptyString => EmptyString
  | String c t => if isSpace c then trimLeft t else s
  end.

Fixpoint trimRight (s : string) : string :=
  match s with
  | EmptyString => EmptyString
  | String c t =>
      match trimRight t with
      | EmptyString => if isSpace c then EmptyString else String c EmptyString
      | t' => String c t'
      end
  end.

Definition TrimSpace (s : string) : string := trimRight (trimLeft s).

Fixpoint Contains (s substr : string) : bool :=
  String.prefix substr s
  || match s with
     | EmptyString => false
     | String _ t => Contains t substr
     end.

Fixpoint dropString (n : nat) (s : string) : string :=
  match n, s with
  | O, _ => s
  | S n, String _ t => dropString n t
  | S _, EmptyString => EmptyString
  end.

(** [strings.ReplaceAll s old new] for a non-empty [old]: the occurrences
    of [old] are taken leftmost first and do not overlap.  [skip] counts the
    bytes of the occurrence just replaced that are still to be passed. *)
Fixpoint replaceFrom (skip : nat) (s old new : string) : string :=
  match s with
  | EmptyString => EmptyString
  | String c t =>
      match skip with
      | S k => replaceFrom k t old new
      | O =>
          if String.prefix old s
          then new +:+ replaceFrom (String.length old - 1) t old new
          else String c (replaceFrom O t old new)
      end
  end.

(** With an empty [old], [new] goes in front of every byte and at the end. *)
Fixpoint insertAround (s new : string) : string :=
  match s with
  | EmptyString => new
  | String c t => new +:+ String c (insertAround t new)
  end.

Definition ReplaceAll (s old new : string) : string :=
  match old with
  | EmptyString => insertAround s new
  | _ => replaceFrom O s old new
  end.

(** ** The mention pattern [(?i)@(master|dev|qa|pm|ops)\b] (package regexp)

    The text is a sequence of bytes, UTF-8 when it is well formed.  Under
    [(?i)] a letter of the pattern matches every rune of its case-folding
    orbit: the letter in either case and, for [s] and [k] only, one rune
    more, U+017F (long s, bytes C5 BF) and U+212A (Kelvin sign, bytes E2
    84 AA).  [\b] is the ASCII word boundary: it holds between a word byte
    ([0-9A-Za-z_]) and a byte that is not one, the ends of the text
    counting as not one; the bytes of a rune that is not ASCII are not
    word bytes. *)

Definition isWordChar (c : ascii) : bool :=
  let n := N_of_ascii c in
  ((48 <=? n) && (n <=? 57) || (65 <=? n) && (n <=? 90)
   || (97 <=? n) && (n <=? 122) || (n =? 95))%N.

Definition foldEq (p c : ascii) : bool :=
  Ascii.eqb (toLowerChar p) (toLowerChar c).

Definition longS : string := String "197" (String "191" "").
Definition kelvinSign : string := String "226" (String "132" (String "170" "")).

(** [foldRune p s]: the pattern letter [p] matched at the start of [s];
    the result is the rune matched and what follows it. *)
Definition foldRune (p : ascii) (s : string) : option (string * string) :=
  match s with
  | String c t =>
      if foldEq p c then Some (String c "", t)
      else if Ascii.eqb (toLowerChar p) "s" && String.prefix longS s
      then Some (longS, dropString 2 s)
      else if Ascii.eqb (toLowerChar p) "k" && String.prefix kelvinSign s
      then Some (kelvinSign, dropString 3 s)
      else None
  | EmptyString => None
  end.

(** [foldPrefix lit s]: the literal [lit] matched case-insensitively at the
    start of [s]; the result is the text matched and what follows it. *)
Fixpoint foldPrefix (lit s : string) : option (string * string) :=
  match lit with
  | EmptyString => Some (EmptyString, s)
  | String p lit =>
      match foldRune p s with
      | Some (rune, t) =>
          match foldPrefix lit t with
          | Some (m, rest) => Some (rune +:+ m, rest)
          | None => None
          end
      | None => None
      end
  end.

Fixpoint lastChar (s : string) : option ascii :=
  match s with
  | EmptyString => None
  | String c EmptyString => Some c
  | String _ t => lastChar t
  end.

Definition isWordAt (c : option ascii) : bool :=
  match c with Some c => isWordChar c | None => false end.

Definition headChar (s : string) : option ascii :=
  match s with String c _ => Some c | EmptyString => None end.

Definition wordBoundary (before : option ascii) (rest : string) : bool :=
  xorb (isWordAt before) (isWordAt (headChar rest)).

(** One alternative of the group together with the [\b] after the group:
    the text of the group and the text after it. *)
Definition matchAlternative (alt s : string) : option (string * string) :=
  match foldPrefix alt s with
  | Some (group, rest) =>
      if wordBoundary (lastChar group) rest then Some (group, rest) else None
  | None => None
  end.

(** The alternatives are tried in the order they are written. *)
Fixpoint matchAlternatives (alts : list string) (s : string)
    : option (string * string) :=
  match alts with
  | [] => None
  | alt :: alts =>
      match matchAlternative alt s with
      | Some found => Some found
      | None => matchAlternatives alts s
      end
  end.

(** A match of the whole pattern at the start of [s]: the text of group 1
    and the text after the match. *)
Definition matchMention (s : string) : option (string * string) :=
  match s with
  | String c t =>
      if Ascii.eqb c "@" then matchAlternatives AllAgentTypes t else None
  | EmptyString => None
  end.

Inductive Piece :=
  | Kept (c : ascii)
  | Matched (group : string).

(** The text cut into the successive matches (leftmost first, not
    overlapping) and the bytes between them. *)
Fixpoint scanFrom (skip : nat) (s : string) : list Piece :=
  match s with
  | EmptyString => []
  | String c t =>
      match skip with
      | S k => scanFrom k t
      | O =>
          match matchMention s with
          | Some (group, _) => Matched group :: scanFrom (String.length group) t
          | None => Kept c :: scanFrom O t
          end
      end
  end.

(** Group 1 of every match: [FindAllStringSubmatch(content, -1)]. *)
Definition FindAllStringSubmatch (content : string) : list string :=
  omap (fun p => match p with Matched g => Some g | Kept _ => None end)
       (scanFrom O content).

(** [ReplaceAllString(content, "")] *)
Definition ReplaceAllString_empty (content : string) : string :=
  foldr (fun p acc => match p with Kept c => String c acc | Matched _ => acc end)
        EmptyString (scanFrom O content).

(** ** Mentions: the gateway (discord_multi.go) *)

Definition collectUnseen (found : list AgentType) : list AgentType :=
  fst (foldl
         (fun '(agents, seen) agentType =>
            if bool_decide ((seen : gmap AgentType bool) !! agentType = Some true)
            then (agents, seen)
            else (agents ++ [agentType], <[agentType := true]> seen))
         ([], ∅) found).

Definition parseMentions (content : string) : list AgentType :=
  collectUnseen (ToLower <$> FindAllStringSubmatch content).

Definition cleanMentions (content : string) : string :=
  TrimSpace (ReplaceAllString_empty content).

(** ** Mentions: the reply handler (multi_agent_handler.go) *)

Definition parseMentionsFromResponse (content : string) : list AgentType :=
  collectUnseen
    (filter (fun agent => Contains (ToLower content) ("@" +:+ agent) = true)
            AllAgentTypes).

Definition cleanMentionsFromResponse (content : string) : string :=
  TrimSpace
    (foldl (fun result agent => ReplaceAll (ToLower result) ("@" +:+ agent) "")
           content AllAgentTypes).

Section Handler.
(** The post of a reply under an agent's identity is the chat client's
    business; [SendAsAgent agent channelID content] is its verdict. *)
Variable SendAsAgent : AgentType -> string -> string -> option GoError.

Fixpoint routeMentions (agent : AgentType) (mentions : list AgentType)
    (cleanContent channelID : string) : M unit :=
  match mentions with
  | [] => ret tt
  | target :: mentions =>
      RouteToAgent agent target cleanContent channelID ;;
      routeMentions agent mentions cleanContent channelID
  end.

Definition SendAgentResponse (agent : AgentType) (channelID content : string)
    : M (option GoError) :=
  let mentions := parseMentionsFromResponse content in
  match SendAsAgent agent channelID content with
  | Some err => ret (Some err)
  | None =>
      HandleAgentResponse agent content channelID ;;
      (if (0 <? length mentions)%nat
       then routeMentions agent mentions (cleanMentionsFromResponse content) channelID
       else ret tt) ;;
      ret None
  end.
End Handler.

(** ** Vocabulary for comparing runs *)

(** A change to the history and the active agents of a channel's
    conversation, carried through a run. *)
Definition relabel (h : list ConversationMessage.t -> list ConversationMessage.t)
    (k : gmap AgentType bool -> gmap AgentType bool) (c : Conversation.t)
    : Conversation.t :=
  Conversation.mk (Conversation.ID c) (Conversation.ChannelID c)
    (Conversation.State c) (Conversation.PendingCount c)
    (h (Conversation.Messages c)) (k (Conversation.ActiveAgents c))
    (Conversation.CreatedAt c) (Conversation.LastActivity c)
    (Conversation.IdleTimeout c).

Definition relabelWorld (channelID : string) (g : Conversation.t -> Conversation.t)
    (w : World) : World :=
  setConversations (alter g channelID (conversationsOf w)) w.

Definition mapWorld {A} (f : World -> World) (r : Outcome (A * World))
    : Outcome (A * World) :=
  match r with
  | Returns (a, w) => Returns (a, f w)
  | Panics reason => Panics reason
  end.

(** [m] does the same in a world and in its image under [R]. *)
Definition commutes {A} (R : World -> World) (m : M A) : Prop :=
  forall w, m (R w) = mapWorld R (m w).

(** Two worlds show the same history and active agents on every channel. *)
Definition sameTalk (w w' : World) : Prop :=
  forall channelID,
    historyOf w' channelID = historyOf w channelID
    /\ activeAgentsOf w' channelID = activeAgentsOf w channelID.

Fixpoint mapLast {A} (f : A -> A) (l : list A) : list A :=
  match l with
  | [] => []
  | [x] => [f x]
  | x :: l => x :: mapLast f l
  end.

(** What naming the coordinator changes in a conversation: the last
    history entry is addressed to it and it is marked active. *)
Definition addressedToMaster : Conversation.t -> Conversation.t :=
  relabel (mapLast (ConversationMessage.withTo [AgentMaster]))
          (insert AgentMaster true).

(** ** Vocabulary for texts and mentions *)

(** Text made of word bytes only. *)
Fixpoint allWord (s : string) : bool :=
  match s with
  | EmptyString => true
  | String c t => isWordChar c && allWord t
  end.

(** The text is empty or starts with a byte that is not a word byte. *)
Definition nonWordStart (s : string) : Prop := isWordAt (headChar s) = false.

(** No suffix of the text starts with a match of the mention pattern. *)
Fixpoint matchFree (s : string) : Prop :=
  matchMention s = None
  /\ match s with
     | EmptyString => True
     | String _ t => matchFree t
     end.

(** Text made of white space only. *)
Fixpoint allSpace (s : string) : bool :=
  match s with
  | EmptyString => true
  | String c t => isSpace c && allSpace t
  end.





(** ** Sample worlds

    A wall clock that advances by one nanosecond per reading, and a system
    with the coordinator, [dev] and a one-slot [qa] registered and no
    conversation yet. *)

Definition sampleClock : Clock.t := Clock.mk (fun n => 1000 + Z.of_nat n) 0.

Definition emptyWorld : World :=
  mkWorld sampleClock (ActorSystem.mk ∅) (ConversationManager.mk ∅ 300000000000 false).

Definition sampleWorld : World :=
  setMailboxes
    (<[AgentMaster := ActorMailbox.mk AgentMaster [] 100 false false]>
       (<[AgentDev := ActorMailbox.mk AgentDev [] 100 false false]>
          (<[AgentQA := ActorMailbox.mk AgentQA [] 1 false false]> ∅)))
    emptyWorld.

(** * More of the same files

    The reads of a conversation, the idle reaper, the receiving side of a
    mailbox, the remaining operations of the actor system and of the
    router, the agents' message handler and the gateway's inbound path. *)

(** ** Conversation reads (conversation.go) *)

(** [GetRecentMessages]: [Messages[start:]] with [start = len - n], raised
    to zero. *)
Definition GetRecentMessages (n : Z) (c : Conversation.t)
    : list ConversationMessage.t :=
  let len := Z.of_nat (length (Conversation.Messages c)) in
  if (n <=? 0) || (len =? 0) then []
  else
    let start := wrapInt (len - n) in
    let start := if start <? 0 then 0 else start in
    drop (Z.to_nat start) (Conversation.Messages c).

Definition newline : string := String "010"%char "".

(** The label [BuildContextForAgent] gives the sender of an entry. *)
Definition senderLabel (msg : ConversationMessage.t) : string :=
  if ConversationMessage.IsFromHuman msg then "Human"
  else if negb (String.eqb (ConversationMessage.From msg) "")
       then ConversationMessage.From msg
       else "System".

(** One line of the context: [fmt.Sprintf("[%s]: %s\n", sender, msg.Content)]. *)
Definition contextLine (msg : ConversationMessage.t) : string :=
  "[" +:+ senderLabel msg +:+ "]: " +:+ ConversationMessage.Content msg +:+ newline.

Definition BuildContextForAgent (agent : AgentType) (maxMessages : Z)
    (c : Conversation.t) : string :=
  match GetRecentMessages maxMessages c with
  | [] => ""
  | messages => foldl (fun context msg => context +:+ contextLine msg) "" messages
  end.

(** ** The conversation manager's constructor and reaper (conversation.go) *)

Definition minute : Z := 60 * 1000000000.

(** [NewConversationManager]; the cleanup goroutine it starts is
    [cleanupIdleConversations] run once a minute. *)
Definition NewConversationManager (idleTimeout : Z) : ConversationManager.t :=
  ConversationManager.mk ∅
    (if idleTimeout =? 0 then 5 * minute else idleTimeout) false.

Section Reaper.
(** [now.Sub(conv.LastActivity)] is the time package's business. *)
Variable timeSub : Time -> Time -> Z.

Definition isIdleAt (now : Time) (conv : Conversation.t) : bool :=
  (Conversation.PendingCount conv =? 0)
  && (Conversation.IdleTimeout conv <? timeSub now (Conversation.LastActivity conv)).

(** The channels the first loop collects, then the second loop: mark the
    conversation closed and delete its entry. *)
Definition idleChannels (now : Time) (cs : gmap string Conversation.t)
    : list string :=
  omap (fun kv : string * Conversation.t =>
          if isIdleAt now kv.2 then Some kv.1 else None)
       (map_to_list cs).

Definition dropChannel (cs : gmap string Conversation.t) (channelID : string)
    : gmap string Conversation.t :=
  delete channelID (alter Conversation.close channelID cs).

Definition cleanupIdleConversations : M unit :=
  let* now := timeNow in
  fun w =>
    Returns (tt,
      setConversations
        (foldl dropChannel (conversationsOf w) (idleChannels now (conversationsOf w)))
        w).
End Reaper.

(** ** The receiving side of a mailbox (discord_actor.go) *)

(** [msg, ok := <-m.messages]: a buffered message if there is one, even on
    a closed channel; otherwise [ok = false] on a closed channel, and the
    receive blocks on an open one. *)
Inductive Received :=
  | Got (msg : ActorMessage.t) (m : ActorMailbox.t)
  | ChannelClosed
  | WouldBlock.

Definition receive (m : ActorMailbox.t) : Received :=
  match ActorMailbox.messages m with
  | msg :: rest =>
      Got msg (ActorMailbox.mk (ActorMailbox.agent m) rest (ActorMailbox.capacity m)
                 (ActorMailbox.ctxDone m) (ActorMailbox.closed m))
  | [] => if ActorMailbox.closed m then ChannelClosed else WouldBlock
  end.

(** What happens to one mailbox: a caller's [Send], a receive by the worker
    (skipped when nothing can be received), a [Stop]. *)
Inductive MailboxEvent :=
  | EvSend (msg : ActorMessage.t)
  | EvReceive
  | EvStop.

(** The mailbox together with the messages [Send] has accepted and the
    messages the worker has received, both oldest first. *)
Record MailboxTrace := mkTrace {
  traceMailbox : ActorMailbox.t;
  accepted : list ActorMessage.t;
  received : list ActorMessage.t
}.

Definition mailboxStep (st : MailboxTrace) (ev : MailboxEvent) : Outcome MailboxTrace :=
  match ev with
  | EvSend msg =>
      match ActorMailbox.Send msg (traceMailbox st) with
      | Returns (None, m) => Returns (mkTrace m (accepted st ++ [msg]) (received st))
      | Returns (Some _, m) => Returns (mkTrace m (accepted st) (received st))
      | Panics reason => Panics reason
      end
  | EvReceive =>
      match receive (traceMailbox st) with
      | Got msg m => Returns (mkTrace m (accepted st) (received st ++ [msg]))
      | ChannelClosed | WouldBlock => Returns st
      end
  | EvStop =>
      match ActorMailbox.Stop (traceMailbox st) with
      | Returns m => Returns (mkTrace m (accepted st) (received st))
      | Panics reason => Panics reason
      end
  end.

Fixpoint mailboxRun (evs : list MailboxEvent) (st : MailboxTrace)
    : Outcome MailboxTrace :=
  match evs with
  | [] => Returns st
  | ev :: evs =>
      match mailboxStep st ev with
      | Returns st' => mailboxRun evs st'
      | Panics reason => Panics reason
      end
  end.

(** ** The rest of the actor system (discord_actor.go) *)

Definition GetMailbox (agent : AgentType) : M (option ActorMailbox.t) :=
  fun w => Returns (mailboxesOf w !! agent, w).

Definition ActorMessage_withTo (to : AgentType) (msg : ActorMessage.t)
    : ActorMessage.t :=
  ActorMessage.mk (ActorMessage.ID msg) (ActorMessage.From msg) to
    (ActorMessage.Content msg) (ActorMessage.ChannelID msg)
    (ActorMessage.ReplyTo msg) (ActorMessage.Timestamp msg)
    (ActorMessage.Metadata msg).

(** The loop of [Broadcast], with the errors collected so far. *)
Fixpoint broadcastEach (agents : list AgentType) (msg : ActorMessage.t)
    (errors : list GoError) : M (list GoError) :=
  match agents with
  | [] => ret errors
  | agent :: agents =>
      let* err := Route (ActorMessage_withTo agent msg) in
      match err with
      | Some e => broadcastEach agents msg (errors ++ [e])
      | None => broadcastEach agents msg errors
      end
  end.

Definition Broadcast (msg : ActorMessage.t) (agents : list AgentType)
    : M (list GoError) :=
  broadcastEach agents msg [].

(** [GetStats]: per agent, [queue_size] and [capacity]. *)
Definition GetStats : M (gmap string (Z * Z)) :=
  fun w =>
    Returns ((fun m => (ActorMailbox.QueueSize m, ActorMailbox.capacity m))
               <$> mailboxesOf w, w).

(** ** The rest of the router (discord_actor.go) *)

(** The loop of [RouteToMultiple], with the errors collected so far. *)
Fixpoint routeToEach (from : AgentType) (targets : list AgentType)
    (content channelID : string) (errors : list GoError) : M (list GoError) :=
  match targets with
  | [] => ret errors
  | to :: targets =>
      let* err := RouteToAgent from to content channelID in
      match err with
      | Some e => routeToEach from targets content channelID (errors ++ [e])
      | None => routeToEach from targets content channelID errors
      end
  end.

Definition RouteToMultiple (from : AgentType) (targets : list AgentType)
    (content channelID : string) : M (list GoError) :=
  routeToEach from targets content channelID [].

(** ** Vocabulary for the properties of these operations *)

(** The mailbox of [agent] would take a message now. *)
Definition accepts (w : World) (agent : AgentType) : bool :=
  match mailboxesOf w !! agent with
  | Some m => negb (ActorMailbox.isFull m)
  | None => false
  end.

(** The capacity a new mailbox gets. *)
Definition effectiveCapacity (capacity : Z) : Z :=
  if capacity <=? 0 then 100 else capacity.

(** The largest buffer [make(chan ActorMessage, _)] accepts: 2^41 - 1. *)
Definition maxChanCapacity : Z := 2199023255551.

(** A mailbox and its trace agree: what was accepted is what was received
    followed by what is still queued, and the queue is within capacity. *)
Definition traceConsistent (st : MailboxTrace) : Prop :=
  accepted st = received st ++ ActorMailbox.messages (traceMailbox st)
  /\ ActorMailbox.QueueSize (traceMailbox st) <= ActorMailbox.capacity (traceMailbox st).

(** A mailbox as [Stop] leaves it. *)
Definition stopped (m : ActorMailbox.t) : ActorMailbox.t :=
  ActorMailbox.mk (ActorMailbox.agent m) (ActorMailbox.messages m)
    (ActorMailbox.capacity m) true true.

(** A queued message with this sender, addressee, text and channel. *)
Definition carries (from to : AgentType) (content channelID : string)
    (msg : ActorMessage.t) : Prop :=
  ActorMessage.From msg = from /\ ActorMessage.To msg = to
  /\ ActorMessage.Content msg = content /\ ActorMessage.ChannelID msg = channelID.

(** A history entry with this sender, these addressees and this text. *)
Definition records (from : AgentType) (tos : list AgentType) (content : string)
    (human : bool) (m : ConversationMessage.t) : Prop :=
  ConversationMessage.From m = from /\ ConversationMessage.To m = tos
  /\ ConversationMessage.Content m = content
  /\ ConversationMessage.IsFromHuman m = human.

(** A queued message from the human [senderID]: no sender agent, and the
    two metadata entries [RouteFromHuman] sets. *)
Definition humanMessage (senderID : string) (to : AgentType)
    (content channelID : string) (msg : ActorMessage.t) : Prop :=
  carries "" to content channelID msg
  /\ ActorMessage.Metadata msg !! "is_human" = Some "true"
  /\ ActorMessage.Metadata msg !! "sender_id" = Some senderID.

(** The targets [RouteFromHuman] routes to. *)
Definition effectiveTargets (targets : list AgentType) : list AgentType :=
  match targets with [] => [AgentMaster] | _ => targets end.

(** ** The gateway and the agent handler (discord_multi.go,
    multi_agent_handler.go)

    The two functions below end by handing one message to the bus
    ([bus.PublishInbound]); the message handed over is their result here.
    Logging and the typing indicator, whose error is only logged, leave no
    trace in the state. *)

(** [discordgo.User], the fields the gateway reads. *)
Module DiscordUser.
Record t := mk {
  ID : string;
  Username : string;
  Discriminator : string
}.
End DiscordUser.

(** [discordgo.MessageCreate], the fields the gateway reads; [Author] may
    be nil. *)
Module MessageCreate.
Record t := mk {
  ID : string;
  Author : option DiscordUser.t;
  ChannelID : string;
  GuildID : string;
  Content : string
}.
End MessageCreate.

(** [bus.InboundMessage], with the fields the struct literals of
    [handleGatewayMessage] and [handleAgentMessage] set. *)
Module InboundMessage.
Record t := mk {
  Channel : string;
  SenderID : string;
  ChatID : string;
  Content : string;
  Media : list string;
  SessionKey : string;
  Metadata : gmap string string
}.
End InboundMessage.

(** What [isOurBot] and [handleGatewayMessage] read of the channel: the
    user id of the gateway session when its state and user are set, the
    user id of every agent bot, and the main channel. *)
Module MultiAgentDiscordChannel.
Record t := mk {
  gatewayUserID : option string;
  botUserIDs : gmap AgentType string;
  mainChannelID : string
}.
End MultiAgentDiscordChannel.

Definition isOurBot (c : MultiAgentDiscordChannel.t) (userID : string) : bool :=
  let agentBot :=
    existsb (fun bot => String.eqb bot.2 userID)
            (map_to_list (MultiAgentDiscordChannel.botUserIDs c)) in
  match MultiAgentDiscordChannel.gatewayUserID c with
  | Some id => if String.eqb id userID then true else agentBot
  | None => agentBot
  end.

(** [getAgentFromMetadata]; [None] is the nil map. *)
Definition getAgentFromMetadata (metadata : option (gmap string string)) : AgentType :=
  match metadata with
  | None => AgentMaster
  | Some metadata =>
      match metadata !! "agent" with
      | Some agentStr => ToLower agentStr
      | None => AgentMaster
      end
  end.

Definition agentTypesToStrings (agents : list AgentType) : list string :=
  (fun a : AgentType => (a : string)) <$> agents.

(** [strings.Join] *)
Fixpoint Join (elems : list string) (sep : string) : string :=
  match elems with
  | [] => ""
  | [elem] => elem
  | elem :: elems => elem +:+ sep +:+ Join elems sep
  end.

(** [s[:n]] for [0 <= n <= len(s)]. *)
Fixpoint takeString (n : nat) (s : string) : string :=
  match n, s with
  | S n, String c t => String c (takeString n t)
  | _, _ => EmptyString
  end.

(** [truncateForLog]; slicing with a negative bound panics. *)
Definition truncateForLog (s : string) (maxLen : Z) : Outcome string :=
  if Z.of_nat (String.length s) <=? maxLen then Returns s
  else if maxLen <? 0 then Panics "slice bounds out of range"
  else Returns (takeString (Z.to_nat maxLen) s +:+ "...").

Definition handleGatewayMessage (c : MultiAgentDiscordChannel.t)
    (m : option MessageCreate.t) : M (option InboundMessage.t) :=
  match m with
  | None => ret None
  | Some m =>
      match MessageCreate.Author m with
      | None => ret None
      | Some author =>
          if isOurBot c (DiscordUser.ID author) then ret None
          else if negb (String.eqb (MultiAgentDiscordChannel.mainChannelID c) "")
                  && negb (String.eqb (MessageCreate.ChannelID m)
                             (MultiAgentDiscordChannel.mainChannelID c))
          then ret None
          else
            let targetAgents := parseMentions (MessageCreate.Content m) in
            let content := cleanMentions (MessageCreate.Content m) in
            let senderID := DiscordUser.ID author in
            let senderName :=
              if negb (String.eqb (DiscordUser.Discriminator author) "")
                 && negb (String.eqb (DiscordUser.Discriminator author) "0")
              then DiscordUser.Username author +:+ "#"
                     +:+ DiscordUser.Discriminator author
              else DiscordUser.Username author in
            match truncateForLog content 50 with
            | Panics reason => fun _ => Panics reason
            | Returns _ =>
                let* _ := RouteFromHuman targetAgents content
                            (MessageCreate.ChannelID m) senderID in
                let metadata : gmap string string :=
                  <["target_agents" := Join (agentTypesToStrings targetAgents) ","]>
                    (<["channel_id" := MessageCreate.ChannelID m]>
                       (<["guild_id" := MessageCreate.GuildID m]>
                          (<["display_name" := senderName]>
                             (<["username" := DiscordUser.Username author]>
                                (<["user_id" := senderID]>
                                   (<["message_id" := MessageCreate.ID m]> ∅)))))) in
                ret (Some (InboundMessage.mk "discord_multi" senderID
                             (MessageCreate.ChannelID m) content []
                             ("discord_multi:" +:+ MessageCreate.ChannelID m)
                             metadata))
            end
      end
  end.

(** [handleAgentMessage]: [agentPrompts] is the handler's prompt table; a
    missing entry reads as the empty string. *)
Definition handleAgentMessage (agentPrompts : gmap AgentType string)
    (agent : AgentType) (msg : ActorMessage.t) : M InboundMessage.t :=
  match truncateForLog (ActorMessage.Content msg) 50 with
  | Panics reason => fun _ => Panics reason
  | Returns _ =>
      GetOrCreateConversation (ActorMessage.ChannelID msg) ;;
      fun w =>
        let conversationContext :=
          from_option (BuildContextForAgent agent 10) ""
            (conversationsOf w !! ActorMessage.ChannelID msg) in
        let systemPrompt := default "" (agentPrompts !! agent) in
        let systemPrompt :=
          if negb (String.eqb conversationContext "")
          then systemPrompt +:+ newline +:+ newline +:+ "## Recent Conversation:"
                 +:+ newline +:+ conversationContext
          else systemPrompt in
        let senderInfo :=
          if String.eqb (ActorMessage.From msg) "" then "Human"
          else ActorMessage.From msg in
        let fullContent :=
          "[From " +:+ senderInfo +:+ "]: " +:+ ActorMessage.Content msg in
        let sessionKey :=
          "discord_multi:" +:+ ActorMessage.ChannelID msg +:+ ":" +:+ agent in
        Returns
          (InboundMessage.mk "discord_multi" (ActorMessage.From msg)
             (ActorMessage.ChannelID msg) fullContent [] sessionKey
             (<["is_multi_agent" := "true"]>
                (<["system_prompt" := systemPrompt]>
                   (<["agent" := agent]> ∅))),
           w)
  end.

(** Replies handled one after the other on one channel: the calls of
    [HandleAgentResponse] a round of answers makes. *)
Fixpoint handleResponses (replies : list (AgentType * string)) (channelID : string)
    : M unit :=
  match replies with
  | [] => ret tt
  | (from, content) :: replies =>
      HandleAgentResponse from content channelID ;;
      handleResponses replies channelID
  end.

(** * Properties *)

(** ** Go [int] arithmetic *)

Lemma wrapInt_in_range (z : Z) : intMin <= z <= intMax -> wrapInt z = z.
Proof.
  unfold intMin, intMax, wrapInt.
  change (2 ^ 63) with 9223372036854775808.
  change (2 ^ 64) with 18446744073709551616.
  intros Hz. rewrite Z.mod_small by lia. lia.
Qed.

(** ** One conversation *)

Section ConversationFacts.
Import Conversation.

Lemma PendingCount_AddMessage stamp activity msg c :
  PendingCount (AddMessage stamp activity msg c) = PendingCount c.
Proof. reflexivity. Qed.

Lemma PendingCount_close c : PendingCount (close c) = PendingCount c.
Proof. reflexivity. Qed.

Lemma PendingCount_IncrementPending c :
  0 <= PendingCount c < intMax ->
  PendingCount (IncrementPending c) = PendingCount c + 1.
Proof.
  intros Hp. cbn. apply wrapInt_in_range. unfold intMin, intMax in *. lia.
Qed.

Lemma State_IncrementPending c : State (IncrementPending c) = ConvStateProcessing.
Proof. reflexivity. Qed.

(** [DecrementPending], case by case. *)
Lemma DecrementPending_cases c :
  0 <= PendingCount c <= intMax ->
  (PendingCount c = 0 /\
   PendingCount (DecrementPending c) = 0 /\
   State (DecrementPending c) = ConvStateActive)
  \/ (PendingCount c = 1 /\
      PendingCount (DecrementPending c) = 0 /\
      State (DecrementPending c) = ConvStateActive)
  \/ (1 < PendingCount c /\
      PendingCount (DecrementPending c) = PendingCount c - 1 /\
      State (DecrementPending c) = State c).
Proof.
  intros Hp. unfold DecrementPending.
  destruct (Z.ltb_spec 0 (PendingCount c)) as [Hpos | Hzero].
  - rewrite wrapInt_in_range by (unfold intMin, intMax in *; lia).
    cbn [PendingCount withPendingCount].
    destruct (Z.eqb_spec (PendingCount c - 1) 0) as [Hone | Hmore].
    + right; left. cbn. repeat split; lia.
    + right; right. cbn. repeat split; lia.
  - left. assert (PendingCount c = 0) as Hz by lia.
    rewrite Hz. cbn. auto.
Qed.

Lemma other_fields_DecrementPending c :
  Messages (DecrementPending c) = Messages c
  /\ LastActivity (DecrementPending c) = LastActivity c
  /\ ActiveAgents (DecrementPending c) = ActiveAgents c.
Proof.
  unfold DecrementPending.
  destruct (0 <? PendingCount c);
    cbn [PendingCount withPendingCount];
    match goal with |- context [?x =? 0] => destruct (x =? 0) end;
    cbn; auto.
Qed.

Lemma consistent_fresh id channelID created activity idleTimeout :
  consistent (fresh id channelID created activity idleTimeout).
Proof. unfold consistent; cbn. repeat split; (lia || discriminate || auto). Qed.

Lemma consistent_apply c op :
  consistent c -> PendingCount c < intMax ->
  consistent (apply c op) /\ PendingCount (apply c op) <= PendingCount c + 1.
Proof.
  intros (Hnn & Hproc & Hpos & Hidle) Hlt.
  destruct op as [stamp activity msg | | | ]; cbn [apply].
  - split; [|rewrite PendingCount_AddMessage; lia].
    unfold consistent. rewrite PendingCount_AddMessage. cbn [State AddMessage].
    destruct (State c) eqn:Hs; repeat split; intros; intuition (try lia; try discriminate).
  - rewrite PendingCount_IncrementPending by lia. split; [|lia].
    unfold consistent. rewrite PendingCount_IncrementPending by lia.
    rewrite State_IncrementPending.
    repeat split; intros; intuition (try lia; try discriminate).
  - destruct (DecrementPending_cases c) as
      [(Hz & Hp' & Hs') | [(Hone & Hp' & Hs') | (Hmore & Hp' & Hs')]];
      [lia | | | ]; (split; [|lia]); unfold consistent; rewrite Hp', Hs';
      repeat split; intros; try (apply Hpos; lia);
      intuition (try lia; try discriminate).
  - split; [|rewrite PendingCount_close; lia].
    unfold consistent. rewrite PendingCount_close. cbn [State close withState].
    repeat split; intros; intuition (try lia; try discriminate).
Qed.

Lemma consistent_run ops : forall c,
  consistent c -> PendingCount c + Z.of_nat (length ops) <= intMax ->
  consistent (run ops c)
  /\ PendingCount (run ops c) <= PendingCount c + Z.of_nat (length ops).
Proof.
  induction ops as [|op ops IH]; intros c Hc Hlen.
  - cbn. split; [assumption | lia].
  - cbn [run foldl]. cbn [length] in Hlen.
    destruct (consistent_apply c op Hc) as [Hc' Hstep]; [lia|].
    destruct (IH (apply c op) Hc') as [Hr Hbound]; [lia|].
    split; [exact Hr|]. unfold run in Hbound. cbn [length]. lia.
Qed.

(** The counter moves by at most one per call and never below zero. *)
Lemma pending_step c op :
  0 <= PendingCount c < intMax ->
  0 <= PendingCount (apply c op) <= PendingCount c + 1.
Proof.
  intros Hp. destruct op as [stamp activity msg | | | ]; cbn [apply].
  - rewrite PendingCount_AddMessage. lia.
  - rewrite PendingCount_IncrementPending by lia. lia.
  - destruct (DecrementPending_cases c) as
      [(? & -> & _) | [(? & -> & _) | (? & -> & _)]]; lia.
  - rewrite PendingCount_close. lia.
Qed.

Lemma pending_run ops : forall c,
  0 <= PendingCount c -> PendingCount c + Z.of_nat (length ops) <= intMax ->
  0 <= PendingCount (run ops c) <= PendingCount c + Z.of_nat (length ops).
Proof.
  induction ops as [|op ops IH]; intros c Hc Hlen; [cbn; lia|].
  cbn [run foldl]. cbn [length] in Hlen |- *.
  pose proof (pending_step c op ltac:(lia)) as Hstep.
  specialize (IH (apply c op) ltac:(lia) ltac:(lia)). unfold run in IH. lia.
Qed.

Lemma not_closed_apply c op :
  op <> OpClose -> State c <> ConvStateClosed ->
  State (apply c op) <> ConvStateClosed.
Proof.
  intros Hop Hs. destruct op as [stamp activity msg | | | ]; cbn [apply].
  - cbn. destruct (State c); congruence.
  - rewrite State_IncrementPending. discriminate.
  - unfold DecrementPending.
    destruct (0 <? PendingCount c); cbn [PendingCount withPendingCount];
      match goal with |- context [?x =? 0] => destruct (x =? 0) end;
      cbn; congruence.
  - congruence.
Qed.

Lemma not_closed_run ops : forall c,
  Forall (fun op => op <> OpClose) ops -> State c <> ConvStateClosed ->
  State (run ops c) <> ConvStateClosed.
Proof.
  induction ops as [|op ops IH]; intros c Hops Hs; [exact Hs|].
  inversion Hops; subst. cbn [run foldl]. apply IH; [assumption|].
  now apply not_closed_apply.
Qed.

End ConversationFacts.

(** ** Claims about one conversation *)

(** C1 (as amended).  On every conversation reached from a new one by
    [AddMessage], [IncrementPending], [DecrementPending] and [close] (no more
    calls than a Go [int] counts): state Processing implies a positive
    counter; a positive counter implies state Processing unless the
    conversation was closed; state Idle implies a zero counter; a run
    without [close] never shows state Closed; and [AddMessage] and [close]
    leave a Closed conversation Closed. *)
Theorem conversation_state_follows_pending
    (id channelID : string) (created activity : Time) (idleTimeout : Z)
    (ops : list Conversation.Op) :
  Z.of_nat (length ops) <= intMax ->
  let c := Conversation.run ops
             (Conversation.fresh id channelID created activity idleTimeout) in
  (Conversation.State c = ConvStateProcessing -> 0 < Conversation.PendingCount c)
  /\ (0 < Conversation.PendingCount c ->
      Conversation.State c = ConvStateProcessing
      \/ Conversation.State c = ConvStateClosed)
  /\ (Conversation.State c = ConvStateIdle -> Conversation.PendingCount c = 0)
  /\ (Forall (fun op => op <> Conversation.OpClose) ops ->
      Conversation.State c <> ConvStateClosed)
  /\ (Conversation.State c = ConvStateClosed ->
      forall stamp activity' msg,
        Conversation.State (Conversation.AddMessage stamp activity' msg c)
          = ConvStateClosed
        /\ Conversation.State (Conversation.close c) = ConvStateClosed).
Proof.
  intros Hlen c.
  destruct (consistent_run ops
              (Conversation.fresh id channelID created activity idleTimeout))
    as [(_ & Hproc & Hpos & Hidle) _].
  - apply consistent_fresh.
  - cbn. lia.
  - fold c in Hproc, Hpos, Hidle. repeat split; try assumption.
    + intros Hops. apply not_closed_run; [assumption | discriminate].
    + cbn. now rewrite H.
Qed.

Lemma conversation_state_follows_pending_witness :
  let c := Conversation.run
             [Conversation.OpIncrementPending; Conversation.OpIncrementPending;
              Conversation.OpDecrementPending]
             (Conversation.fresh "conv_room_7" "room" 7 8 300) in
  Conversation.State c = ConvStateProcessing /\ 0 < Conversation.PendingCount c.
Proof.
  pose proof (conversation_state_follows_pending "conv_room_7" "room" 7 8 300
                [Conversation.OpIncrementPending; Conversation.OpIncrementPending;
                 Conversation.OpDecrementPending]) as H.
  cbv zeta in H. intros c. split; [reflexivity|].
  apply H; [vm_compute; discriminate | reflexivity].
Defined.

(** C1 as stated fails: closing a conversation with work in flight leaves
    a positive counter in a state other than Processing, and a later
    [IncrementPending] moves the conversation out of Closed. *)
Lemma closed_conversation_reopens :
  let c := Conversation.run
             [Conversation.OpIncrementPending; Conversation.OpClose]
             (Conversation.fresh "conv_room_7" "room" 7 8 300) in
  (0 < Conversation.PendingCount c
   /\ Conversation.State c <> ConvStateProcessing)
  /\ (Conversation.State c = ConvStateClosed
      /\ Conversation.State (Conversation.run [Conversation.OpIncrementPending] c)
           <> ConvStateClosed).
Proof. vm_compute. repeat split; discriminate. Qed.

(** C6.  From a conversation whose counter is not negative, no sequence of
    calls (within the range of a Go [int]) makes it negative at any point of
    the sequence; and [DecrementPending] on a zero counter leaves it at
    zero. *)
Theorem pending_never_negative (c : Conversation.t) (ops : list Conversation.Op) :
  0 <= Conversation.PendingCount c ->
  Conversation.PendingCount c + Z.of_nat (length ops) <= intMax ->
  (forall n, 0 <= Conversation.PendingCount (Conversation.run (take n ops) c))
  /\ (Conversation.PendingCount c = 0 ->
      Conversation.PendingCount (Conversation.DecrementPending c) = 0).
Proof.
  intros Hnn Hlen. split.
  - intros n. apply pending_run; [exact Hnn|].
    rewrite length_take. lia.
  - intros Hz.
    destruct (DecrementPending_cases c) as [(_ & H & _) | [(? & _) | (? & _)]];
      unfold intMax in *; lia.
Qed.

Lemma pending_never_negative_witness :
  0 <= Conversation.PendingCount
         (Conversation.run
            (take 3 [Conversation.OpDecrementPending; Conversation.OpIncrementPending;
                     Conversation.OpDecrementPending; Conversation.OpDecrementPending])
            (Conversation.fresh "conv_room_7" "room" 7 8 300))
  /\ Conversation.PendingCount
       (Conversation.DecrementPending
          (Conversation.fresh "conv_room_7" "room" 7 8 300)) = 0.
Proof.
  destruct (pending_never_negative
              (Conversation.fresh "conv_room_7" "room" 7 8 300)
              [Conversation.OpDecrementPending; Conversation.OpIncrementPending;
               Conversation.OpDecrementPending; Conversation.OpDecrementPending])
    as [Halways Hzero].
  - vm_compute. discriminate.
  - vm_compute. discriminate.
  - split; [apply (Halways 3%nat) | apply Hzero; reflexivity].
Defined.

(** C9 (as amended).  [AddMessage] sets [LastActivity] to the clock reading
    it takes for it; [IncrementPending] and [DecrementPending] leave
    [LastActivity] as it was. *)
Theorem lastActivity_set_by_AddMessage_only
    (stamp activity : Time) (msg : ConversationMessage.t) (c : Conversation.t) :
  Conversation.LastActivity (Conversation.AddMessage stamp activity msg c) = activity
  /\ Conversation.LastActivity (Conversation.IncrementPending c)
     = Conversation.LastActivity c
  /\ Conversation.LastActivity (Conversation.DecrementPending c)
     = Conversation.LastActivity c.
Proof.
  repeat split. apply other_fields_DecrementPending.
Qed.

(** ** Mailboxes *)

Lemma Stop_closes (m m' : ActorMailbox.t) :
  ActorMailbox.Stop m = Returns m' ->
  ActorMailbox.closed m = false
  /\ m' = ActorMailbox.mk (ActorMailbox.agent m) (ActorMailbox.messages m)
            (ActorMailbox.capacity m) true true.
Proof.
  unfold ActorMailbox.Stop. cbn. destruct (ActorMailbox.closed m); [discriminate|].
  intros [= <-]. auto.
Qed.

(** C4 (the code's behaviour).  Once [Stop] has returned, every [Send] on
    the mailbox panics, whatever the worker has taken from the queue in the
    meantime: it neither returns an error nor succeeds. *)
Theorem Send_after_Stop_panics (m m' : ActorMailbox.t) (msg : ActorMessage.t) :
  ActorMailbox.Stop m = Returns m' ->
  forall queue,
    ActorMailbox.Send msg
      (ActorMailbox.mk (ActorMailbox.agent m') queue (ActorMailbox.capacity m')
         (ActorMailbox.ctxDone m') (ActorMailbox.closed m'))
    = Panics "send on closed channel".
Proof.
  intros Hstop queue. apply Stop_closes in Hstop as [_ ->]. reflexivity.
Qed.

Lemma Send_after_Stop_panics_witness :
  ActorMailbox.Send
    (ActorMessage.mk "msg_1" "" "dev" "hello" "room" "" 1 ∅)
    (ActorMailbox.mk "dev" [] 100 true true)
  = Panics "send on closed channel".
Proof.
  apply (Send_after_Stop_panics (ActorMailbox.mk "dev" [] 100 false false)
           (ActorMailbox.mk "dev" [] 100 true true)).
  reflexivity.
Defined.

Lemma stopEach_Panics (reason : string) (agents : list AgentType) :
  foldl stopStep (Panics reason) agents = Panics reason.
Proof. induction agents as [|a agents IH]; [reflexivity | exact IH]. Qed.

(** After a round of [stopEach] that returns, the registry has the same
    agents and every agent of the round is closed. *)
Lemma stopEach_Returns (agents : list AgentType) :
  forall mbs mbs' : gmap AgentType ActorMailbox.t,
    stopEach mbs agents = Returns mbs' ->
    (forall a, is_Some (mbs' !! a) <-> is_Some (mbs !! a))
    /\ (forall a m, mbs' !! a = Some m ->
          a ∈ agents \/ (exists m0, mbs !! a = Some m0 /\ ActorMailbox.closed m0 = true) ->
          ActorMailbox.closed m = true).
Proof.
  unfold stopEach.
  induction agents as [|a agents IH]; intros mbs mbs' Hrun.
  - cbn in Hrun. injection Hrun as <-. split; [reflexivity|].
    intros a m Hm [Hin | (m0 & Hm0 & Hc)]; [inversion Hin|]. congruence.
  - cbn [foldl] in Hrun. unfold stopStep at 2 in Hrun.
    destruct (mbs !! a) as [mailbox|] eqn:Ha.
    + destruct (ActorMailbox.Stop mailbox) as [mailbox'|reason] eqn:Hstop;
        [|rewrite stopEach_Panics in Hrun; discriminate].
      apply Stop_closes in Hstop as [_ ->].
      destruct (IH _ _ Hrun) as [Hdom Hclosed]. split.
      * intros b. rewrite Hdom. destruct (decide (a = b)) as [<- | Hne].
        -- rewrite lookup_insert_eq, Ha. split; eauto.
        -- now rewrite lookup_insert_ne.
      * intros b m Hm Hb. apply (Hclosed b m Hm).
        destruct (decide (a = b)) as [<- | Hne].
        -- right. eexists. rewrite lookup_insert_eq. split; reflexivity.
        -- destruct Hb as [Hin | (m0 & Hm0 & Hc)].
           ++ left. apply elem_of_cons in Hin as [-> | Hin]; [congruence | exact Hin].
           ++ right. exists m0. now rewrite lookup_insert_ne.
    + destruct (IH _ _ Hrun) as [Hdom Hclosed]. split; [exact Hdom|].
      intros b m Hm Hb. apply (Hclosed b m Hm).
      destruct Hb as [Hin | Hb]; [|right; exact Hb].
      apply elem_of_cons in Hin as [-> | Hin]; [|left; exact Hin].
      exfalso. assert (is_Some (mbs !! a)) as [? ?]; [|congruence].
      apply Hdom. eauto.
Qed.

Lemma StopAll_on_closed_panics (w : World) (a : AgentType) (m : ActorMailbox.t) :
  mailboxesOf w !! a = Some m ->
  (forall b mb, mailboxesOf w !! b = Some mb -> ActorMailbox.closed mb = true) ->
  StopAll w = Panics "close of closed channel".
Proof.
  intros Ha Hall. unfold StopAll.
  destruct (map_to_list (mailboxesOf w)) as [|[b mb] rest] eqn:Hl.
  - apply map_to_list_empty_iff in Hl. rewrite Hl in Ha.
    rewrite lookup_empty in Ha. discriminate.
  - assert (Hb : mailboxesOf w !! b = Some mb).
    { apply elem_of_map_to_list. rewrite Hl. left. }
    unfold stopEach. cbn [fmap list_fmap fst foldl]. unfold stopStep at 2.
    rewrite Hb. unfold ActorMailbox.Stop. cbn [ActorMailbox.closed].
    rewrite (Hall b mb Hb). now rewrite stopEach_Panics.
Qed.

(** C8 (the code's behaviour).  A second [Stop] on a mailbox panics,
    whatever the worker has taken from the queue in the meantime, and so
    does a second [StopAll] on a system with at least one mailbox. *)
Theorem second_Stop_panics :
  (forall m m' : ActorMailbox.t,
      ActorMailbox.Stop m = Returns m' ->
      forall queue,
        ActorMailbox.Stop
          (ActorMailbox.mk (ActorMailbox.agent m') queue (ActorMailbox.capacity m')
             (ActorMailbox.ctxDone m') (ActorMailbox.closed m'))
        = Panics "close of closed channel")
  /\ (forall (w w' : World) (agent : AgentType),
        is_Some (mailboxesOf w !! agent) ->
        StopAll w = Returns (tt, w') ->
        StopAll w' = Panics "close of closed channel").
Proof.
  split.
  - intros m m' Hstop queue. apply Stop_closes in Hstop as [_ ->]. reflexivity.
  - intros w w' agent Hreg Hstop. unfold StopAll in Hstop.
    destruct (stopEach (mailboxesOf w) (map_to_list (mailboxesOf w)).*1)
      as [mbs|reason] eqn:Hrun; [|discriminate].
    injection Hstop as <-.
    destruct (stopEach_Returns _ _ _ Hrun) as [Hdom Hclosed].
    destruct (proj2 (Hdom agent) Hreg) as [m Hm].
    apply (StopAll_on_closed_panics _ agent m); [exact Hm|].
    intros b mb Hb. apply (Hclosed b mb Hb). left.
    assert (is_Some (mailboxesOf w !! b)) as [mb0 Hb0] by (apply Hdom; eauto).
    apply list_elem_of_fmap. exists (b, mb0). split; [reflexivity|].
    now apply elem_of_map_to_list.
Qed.

Lemma second_Stop_panics_witness :
  ActorMailbox.Stop (ActorMailbox.mk "dev" [] 1 true true)
  = Panics "close of closed channel"
  /\ match (RegisterAgent "dev" 1 ;; StopAll) emptyWorld with
     | Returns (_, w) => StopAll w = Panics "close of closed channel"
     | Panics _ => False
     end.
Proof.
  destruct second_Stop_panics as [Hstop HstopAll]. split.
  - apply (Hstop (ActorMailbox.mk "dev" [] 1 false false)
             (ActorMailbox.mk "dev" [] 1 true true)).
    reflexivity.
  - destruct ((RegisterAgent "dev" 1 ;; StopAll) emptyWorld) as [[[] w]|reason] eqn:E;
      [|vm_compute in E; discriminate E].
    apply (HstopAll (setMailboxes
                       (<["dev" := ActorMailbox.mk "dev" [] 1 false false]> ∅)
                       emptyWorld) w "dev").
    + vm_compute. eauto.
    + exact E.
Defined.

(** ** The router *)

(** C10.  [HandleAgentResponse] for a channel without a conversation in the
    registry changes nothing: no conversation is created, no counter is
    decremented, no history entry is appended and the clock is not read. *)
Theorem HandleAgentResponse_unknown_channel
    (w : World) (from : AgentType) (content channelID : string) :
  conversationsOf w !! channelID = None ->
  HandleAgentResponse from content channelID w = Returns (tt, w).
Proof.
  intros Hnone. unfold HandleAgentResponse, bind, GetConversation.
  rewrite Hnone. rewrite bool_decide_eq_false_2 by (intros [? ?]; discriminate).
  reflexivity.
Qed.

(** ** Running the monad *)

Lemma bind_Returns {A B} (m : M A) (k : A -> M B) (w w' : World) (a : A) :
  m w = Returns (a, w') -> bind m k w = k a w'.
Proof. unfold bind. now intros ->. Qed.

Lemma bind_Panics {A B} (m : M A) (k : A -> M B) (w : World) (reason : string) :
  m w = Panics reason -> bind m k w = Panics reason.
Proof. unfold bind. now intros ->. Qed.

Ltac step E := erewrite bind_Returns by exact E; cbv beta.
Ltac step_now := erewrite bind_Returns by reflexivity; cbv beta.

Lemma GetOrCreateConversation_spec (channelID : string) (w : World) :
  exists w' c,
    GetOrCreateConversation channelID w = Returns (tt, w')
    /\ actorSystem w' = actorSystem w
    /\ Clock.wall (clock w') = Clock.wall (clock w)
    /\ conversationsOf w' = <[channelID := c]> (conversationsOf w)
    /\ Conversation.PendingCount c = pendingOf w channelID
    /\ Conversation.Messages c = historyOf w channelID
    /\ Conversation.ActiveAgents c = activeAgentsOf w channelID.
Proof.
  unfold GetOrCreateConversation, pendingOf, historyOf, activeAgentsOf.
  destruct (conversationsOf w !! channelID) as [c|] eqn:Hc.
  - exists w, c. rewrite insert_id by exact Hc. repeat split.
  - do 3 step_now. eexists _, _. split; [reflexivity|]. repeat split.
Qed.

Lemma Route_spec (msg : ActorMessage.t) (w : World) :
  ~ mailboxStopped w (ActorMessage.To msg) ->
  exists err w',
    Route msg w = Returns (err, w')
    /\ clock w' = clock w
    /\ convManager w' = convManager w
    /\ (is_Some err <->
        mailboxesOf w !! ActorMessage.To msg = None
        \/ mailboxFull w (ActorMessage.To msg))
    /\ (is_Some err -> w' = w)
    /\ (err = None ->
        queueOf w' (ActorMessage.To msg) = queueOf w (ActorMessage.To msg) ++ [msg]).
Proof.
  intros Hlive. unfold Route, mailboxFull, mailboxStopped, queueOf in *.
  destruct (mailboxesOf w !! ActorMessage.To msg) as [mb|] eqn:Hmb.
  - unfold ActorMailbox.Send.
    destruct (ActorMailbox.closed mb) eqn:Hclosed; [exfalso; eauto|].
    destruct (ActorMailbox.isFull mb) eqn:Hfull.
    + eexists _, _. split; [reflexivity|]. repeat split; eauto.
      * intros _. unfold setMailboxes. rewrite insert_id by exact Hmb.
        unfold mailboxesOf. now destruct w as [? [?] ?].
      * discriminate.
    + eexists _, _. split; [reflexivity|]. repeat split.
      * intros [? [=]].
      * intros [[=] | (m & [= <-] & Hf)]; congruence.
      * intros [? [=]].
      * intros _. cbn. rewrite lookup_insert_eq. reflexivity.
  - eexists _, _. split; [reflexivity|]. repeat split; eauto. discriminate.
Qed.

Lemma from_option_alter {A B} (g : A -> B) (d : B) (f : A -> A)
    (m : gmap string A) (k : string) :
  from_option g d (alter f k m !! k) = from_option (fun x => g (f x)) d (m !! k).
Proof. rewrite lookup_alter_eq. now destruct (m !! k). Qed.

(** The error handling of [RouteToAgent] on a mailbox that has not been
    stopped.  While the target's mailbox has not been stopped and the
    counter is within the range of a Go [int], [RouteToAgent] returns; it
    returns an error exactly when the target is not registered or its
    mailbox is full; on an error the channel's counter and history are
    what they were before the call; on success the counter has grown by
    one and the history by one entry from [from] to [to], not from the
    human. *)
Theorem RouteToAgent_error_handling
    (w : World) (from to : AgentType) (content channelID : string) :
  ~ mailboxStopped w to ->
  0 <= pendingOf w channelID < intMax ->
  exists err w',
    RouteToAgent from to content channelID w = Returns (err, w')
    /\ (is_Some err <-> mailboxesOf w !! to = None \/ mailboxFull w to)
    /\ match err with
       | Some _ =>
           pendingOf w' channelID = pendingOf w channelID
           /\ historyOf w' channelID = historyOf w channelID
       | None =>
           pendingOf w' channelID = pendingOf w channelID + 1
           /\ exists m,
               historyOf w' channelID = historyOf w channelID ++ [m]
               /\ ConversationMessage.From m = from
               /\ ConversationMessage.To m = [to]
               /\ ConversationMessage.Content m = content
               /\ ConversationMessage.IsFromHuman m = false
       end.
Proof.
  intros Hlive Hrange. unfold RouteToAgent.
  do 2 step_now.
  destruct (GetOrCreateConversation_spec channelID (tick (tick w)))
    as (w1 & c & E1 & Hsys1 & _ & Hcs1 & Hp & Hh & _).
  change (pendingOf (tick (tick w)) channelID) with (pendingOf w channelID) in Hp.
  change (historyOf (tick (tick w)) channelID) with (historyOf w channelID) in Hh.
  change (conversationsOf (tick (tick w))) with (conversationsOf w) in Hcs1.
  change (actorSystem (tick (tick w))) with (actorSystem w) in Hsys1.
  step E1. step_now.
  set (msg := ActorMessage.mk _ from to content channelID "" _ ∅).
  set (w2 := setConversations _ w1).
  destruct (Route_spec msg w2) as (err & w3 & E3 & _ & Hcm3 & Herr & Hfail & _).
  { unfold mailboxStopped, mailboxesOf, w2 in *. cbn. now rewrite Hsys1. }
  step E3.
  assert (Hcs3 : conversationsOf w3
                 = alter Conversation.IncrementPending channelID
                     (<[channelID := c]> (conversationsOf w))).
  { unfold conversationsOf at 1. rewrite Hcm3. unfold w2. cbn. now rewrite Hcs1. }
  assert (Hsame : (mailboxesOf w2 !! to = None \/ mailboxFull w2 to)
                  <-> (mailboxesOf w !! to = None \/ mailboxFull w to)).
  { unfold mailboxFull, mailboxesOf, w2. cbn. now rewrite Hsys1. }
  destruct err as [e|].
  - step_now. eexists _, _. split; [reflexivity|]. split.
    { rewrite <- Hsame. exact Herr. }
    unfold pendingOf, historyOf. cbn. rewrite Hcs3.
    rewrite !from_option_alter, lookup_insert_eq. cbn [from_option].
    split.
    + fold (pendingOf w channelID). rewrite <- Hp.
      change (Conversation.PendingCount
                (Conversation.DecrementPending (Conversation.IncrementPending c))
              = Conversation.PendingCount c).
      assert (Hinc : Conversation.PendingCount (Conversation.IncrementPending c)
                     = Conversation.PendingCount c + 1)
        by (apply PendingCount_IncrementPending; lia).
      destruct (DecrementPending_cases (Conversation.IncrementPending c))
        as [(Hz & _) | [(H1 & Hd & _) | (H1 & Hd & _)]];
        rewrite ?Hinc in *; unfold intMax in *; lia.
    + fold (historyOf w channelID). rewrite <- Hh.
      now destruct (other_fields_DecrementPending (Conversation.IncrementPending c))
        as [-> _].
  - step_now.
    eexists _, _. split; [reflexivity|]. split.
    { rewrite <- Hsame. exact Herr. }
    unfold pendingOf, historyOf. cbn.
    change (conversationsOf (tick (tick w3))) with (conversationsOf w3).
    rewrite Hcs3.
    rewrite !from_option_alter, lookup_insert_eq. cbn [from_option].
    fold (pendingOf w channelID). fold (historyOf w channelID).
    rewrite <- Hp, <- Hh. split.
    + rewrite PendingCount_AddMessage. apply PendingCount_IncrementPending. lia.
    + eexists. split; [reflexivity|]. repeat split.
Qed.

Lemma RouteToAgent_error_handling_witness :
  exists err w',
    RouteToAgent AgentDev AgentQA "PR ready" "room" sampleWorld = Returns (err, w')
    /\ (is_Some err <->
        mailboxesOf sampleWorld !! AgentQA = None \/ mailboxFull sampleWorld AgentQA)
    /\ match err with
       | Some _ =>
           pendingOf w' "room" = pendingOf sampleWorld "room"
           /\ historyOf w' "room" = historyOf sampleWorld "room"
       | None =>
           pendingOf w' "room" = pendingOf sampleWorld "room" + 1
           /\ exists m,
               historyOf w' "room" = historyOf sampleWorld "room" ++ [m]
               /\ ConversationMessage.From m = AgentDev
               /\ ConversationMessage.To m = [AgentQA]
               /\ ConversationMessage.Content m = "PR ready"
               /\ ConversationMessage.IsFromHuman m = false
       end.
Proof.
  apply (RouteToAgent_error_handling sampleWorld AgentDev AgentQA "PR ready" "room").
  - intros (m & Hm & Hclosed). vm_compute in Hm. injection Hm as <-. discriminate.
  - vm_compute. split; [discriminate | reflexivity].
Defined.

(** C3 (the code's behaviour).  Once the mailbox of the target has been
    stopped, [RouteToAgent] panics, whether the mailbox is full or not and
    whatever the conversation holds: it returns neither an error nor
    success, and the panic comes after the increment of the pending
    counter, which nothing undoes. *)
Theorem RouteToAgent_on_stopped_mailbox_panics
    (w : World) (from to : AgentType) (content channelID : string) :
  mailboxStopped w to ->
  RouteToAgent from to content channelID w = Panics "send on closed channel".
Proof.
  intros (mb & Hmb & Hclosed). unfold RouteToAgent.
  do 2 step_now.
  destruct (GetOrCreateConversation_spec channelID (tick (tick w)))
    as (w1 & c & E1 & Hsys1 & _).
  change (actorSystem (tick (tick w))) with (actorSystem w) in Hsys1.
  step E1. step_now.
  apply bind_Panics. unfold Route.
  change (mailboxesOf (setConversations ?cs w1)) with (mailboxesOf w1).
  unfold mailboxesOf at 1. rewrite Hsys1. fold (mailboxesOf w).
  cbn [ActorMessage.To]. rewrite Hmb.
  unfold ActorMailbox.Send. now rewrite Hclosed.
Qed.

Lemma RouteToAgent_on_stopped_mailbox_panics_witness :
  exists w,
    (RouteToAgent AgentDev AgentQA "PR ready" "room" ;; StopAll) sampleWorld
      = Returns (tt, w)
    /\ mailboxFull w AgentQA
    /\ pendingOf w "room" = 1
    /\ RouteToAgent AgentDev AgentQA "PR ready, again" "room" w
       = Panics "send on closed channel".
Proof.
  destruct ((RouteToAgent AgentDev AgentQA "PR ready" "room" ;; StopAll) sampleWorld)
    as [[[] w]|reason] eqn:E; [|vm_compute in E; discriminate E].
  exists w. split; [reflexivity|].
  vm_compute in E. injection E as <-.
  split; [eexists; split; reflexivity|]. split; [reflexivity|].
  apply (RouteToAgent_on_stopped_mailbox_panics _ AgentDev AgentQA).
  eexists. split; reflexivity.
Defined.

(** ** [RouteFromHuman] with and without an explicit coordinator *)

Lemma commutes_ret {A} (R : World -> World) (a : A) : commutes R (ret a).
Proof. intros w. reflexivity. Qed.

Lemma commutes_bind {A B} (R : World -> World) (m : M A) (k : A -> M B) :
  commutes R m -> (forall a, commutes R (k a)) -> commutes R (bind m k).
Proof.
  intros Hm Hk w. unfold bind. rewrite Hm.
  destruct (m w) as [[a w']|reason]; cbn; [apply Hk | reflexivity].
Qed.

Section Relabel.
Variable channelID : string.
Variable h : list ConversationMessage.t -> list ConversationMessage.t.
Variable k : gmap AgentType bool -> gmap AgentType bool.

Let R : World -> World := relabelWorld channelID (relabel h k).

Lemma relabel_IncrementPending c :
  relabel h k (Conversation.IncrementPending c)
  = Conversation.IncrementPending (relabel h k c).
Proof. reflexivity. Qed.

Lemma relabel_DecrementPending c :
  relabel h k (Conversation.DecrementPending c)
  = Conversation.DecrementPending (relabel h k c).
Proof.
  unfold Conversation.DecrementPending.
  change (Conversation.PendingCount (relabel h k c)) with (Conversation.PendingCount c).
  destruct (0 <? Conversation.PendingCount c);
    cbn [Conversation.PendingCount Conversation.withPendingCount relabel];
    match goal with |- context [?x =? 0] => destruct (x =? 0) end;
    reflexivity.
Qed.

Lemma commutes_timeNow : commutes R timeNow.
Proof. intros w. reflexivity. Qed.

Lemma commutes_onConversation (f : Conversation.t -> Conversation.t) :
  (forall c, relabel h k (f c) = f (relabel h k c)) ->
  commutes R (onConversation channelID f).
Proof.
  intros Hcomm w. unfold R, onConversation, relabelWorld, mapWorld. f_equal. f_equal.
  unfold setConversations, conversationsOf. cbn. f_equal. f_equal.
  rewrite !alter_alter_eq. apply alter_ext. intros c _. cbn. now rewrite Hcomm.
Qed.

Lemma commutes_Route (msg : ActorMessage.t) : commutes R (Route msg).
Proof.
  intros w. unfold R, Route, relabelWorld, mapWorld.
  change (mailboxesOf (setConversations _ w)) with (mailboxesOf w).
  destruct (mailboxesOf w !! ActorMessage.To msg) as [mb|]; [|reflexivity].
  destruct (ActorMailbox.Send msg mb) as [[err mb']|reason]; reflexivity.
Qed.

Lemma commutes_routeEach (targets : list AgentType) (content senderID : string) :
  forall errors : list GoError,
    commutes R (routeEach targets content channelID senderID errors).
Proof.
  induction targets as [|to targets IH]; intros errors; cbn [routeEach].
  - apply commutes_ret.
  - apply commutes_bind; [apply commutes_timeNow | intros idTime].
    apply commutes_bind; [apply commutes_timeNow | intros stamp].
    apply commutes_bind;
      [apply commutes_onConversation, relabel_IncrementPending | intros _].
    apply commutes_bind; [apply commutes_Route | intros [e|]]; [|apply IH].
    apply commutes_bind;
      [apply commutes_onConversation, relabel_DecrementPending | intros _].
    apply IH.
Qed.

End Relabel.

(** *** What the loop of [RouteFromHuman] leaves alone *)

Lemma sameTalk_refl w : sameTalk w w.
Proof. intros ch. split; reflexivity. Qed.

Lemma sameTalk_trans w1 w2 w3 : sameTalk w1 w2 -> sameTalk w2 w3 -> sameTalk w1 w3.
Proof.
  intros H12 H23 ch. destruct (H12 ch) as [<- <-]. apply H23.
Qed.

Lemma sameTalk_convManager w w' : convManager w' = convManager w -> sameTalk w w'.
Proof.
  intros Heq ch. unfold historyOf, activeAgentsOf, conversationsOf.
  rewrite Heq. split; reflexivity.
Qed.

Lemma sameTalk_onConversation channelID f w :
  (forall c, Conversation.Messages (f c) = Conversation.Messages c
             /\ Conversation.ActiveAgents (f c) = Conversation.ActiveAgents c) ->
  sameTalk w (setConversations (alter f channelID (conversationsOf w)) w).
Proof.
  intros Hf ch. unfold historyOf, activeAgentsOf.
  change (conversationsOf (setConversations ?cs w)) with cs.
  destruct (decide (channelID = ch)) as [<- | Hne].
  - rewrite lookup_alter_eq. destruct (conversationsOf w !! channelID) as [c|]; cbn;
      [apply Hf | split; reflexivity].
  - rewrite lookup_alter_ne by exact Hne. split; reflexivity.
Qed.

Lemma Route_frame msg w err w' :
  Route msg w = Returns (err, w') ->
  clock w' = clock w /\ convManager w' = convManager w.
Proof.
  unfold Route.
  destruct (mailboxesOf w !! ActorMessage.To msg) as [mb|].
  - destruct (ActorMailbox.Send msg mb) as [[e mb']|reason]; [|discriminate].
    intros [= <- <-]. split; reflexivity.
  - intros [= <- <-]. split; reflexivity.
Qed.

Lemma routeEach_sameTalk targets content channelID senderID :
  forall errors w errs w',
    routeEach targets content channelID senderID errors w = Returns (errs, w') ->
    sameTalk w w'.
Proof.
  induction targets as [|to targets IH]; intros errors w errs w' Hrun.
  - injection Hrun as <- <-. apply sameTalk_refl.
  - cbn [routeEach] in Hrun. unfold bind at 1 2 3 in Hrun. cbn [timeNow onConversation] in Hrun.
    match type of Hrun with
    | bind (Route ?msg) _ ?w2 = _ =>
        unfold bind at 1 in Hrun;
        destruct (Route msg w2) as [[err w3]|reason] eqn:Hroute; [|discriminate];
        assert (H2 : sameTalk w w2);
        [ eapply sameTalk_trans;
          [ apply (sameTalk_convManager w (tick (tick w))); reflexivity
          | apply (sameTalk_onConversation channelID Conversation.IncrementPending
                     (tick (tick w))); intros c; split; reflexivity ] |]
    end.
    apply Route_frame in Hroute as [_ Hcm].
    pose proof (sameTalk_convManager _ _ Hcm) as H3.
    destruct err as [e|].
    + unfold bind at 1 in Hrun. cbn [onConversation] in Hrun.
      apply IH in Hrun.
      eapply sameTalk_trans; [exact H2|]. eapply sameTalk_trans; [exact H3|].
      eapply sameTalk_trans; [|exact Hrun].
      apply sameTalk_onConversation. intros c.
      destruct (other_fields_DecrementPending c) as (-> & _ & ->). split; reflexivity.
    + apply IH in Hrun.
      eapply sameTalk_trans; [exact H2|]. eapply sameTalk_trans; [exact H3|]. exact Hrun.
Qed.

Lemma mapLast_snoc {A} (f : A -> A) (l : list A) (x : A) :
  mapLast f (l ++ [x]) = l ++ [f x].
Proof.
  induction l as [|y l IH]; [reflexivity|].
  cbn [app mapLast]. rewrite IH. destruct (l ++ [x]) eqn:E; [|reflexivity].
  now destruct l.
Qed.

Lemma AddMessage_addressedToMaster stamp activity id content meta c :
  Conversation.AddMessage stamp activity
    (ConversationMessage.mk id "" [AgentMaster] content 0 true meta) c
  = addressedToMaster
      (Conversation.AddMessage stamp activity
         (ConversationMessage.mk id "" [] content 0 true meta) c).
Proof.
  unfold addressedToMaster, relabel, Conversation.AddMessage. cbn.
  now rewrite mapLast_snoc.
Qed.

(** Both calls reach the loop over [[AgentMaster]]; the worlds they reach it
    in differ by [addressedToMaster]. *)
Lemma RouteFromHuman_reaches_loop (w : World) (content channelID senderID : string) :
  exists wa m,
    RouteFromHuman [] content channelID senderID w
    = routeEach [AgentMaster] content channelID senderID [] wa
    /\ RouteFromHuman [AgentMaster] content channelID senderID w
       = routeEach [AgentMaster] content channelID senderID []
           (relabelWorld channelID addressedToMaster wa)
    /\ ConversationMessage.To m = []
    /\ ConversationMessage.From m = ""
    /\ ConversationMessage.IsFromHuman m = true
    /\ ConversationMessage.Content m = content
    /\ historyOf wa channelID = historyOf w channelID ++ [m]
    /\ activeAgentsOf wa channelID = activeAgentsOf w channelID.
Proof.
  destruct (GetOrCreateConversation_spec channelID w)
    as (w0 & c & E0 & _ & _ & Hcs0 & _ & Hh0 & Ha0).
  eexists _, _. split; [|split].
  - unfold RouteFromHuman. step E0. step_now.
    unfold Conversation_AddMessage. step_now. reflexivity.
  - unfold RouteFromHuman. step E0. step_now.
    unfold Conversation_AddMessage. step_now. f_equal.
    unfold relabelWorld, setConversations, conversationsOf. cbn.
    f_equal. f_equal. rewrite alter_alter_eq. apply alter_ext. intros c' _.
    apply AddMessage_addressedToMaster.
  - unfold historyOf at 1, activeAgentsOf at 1.
    change (conversationsOf (setConversations ?cs _)) with cs.
    change (conversationsOf (tick (tick (tick w0)))) with (conversationsOf w0).
    rewrite Hcs0, !from_option_alter, lookup_insert_eq. cbn. rewrite Hh0.
    repeat split; try reflexivity. exact Ha0.
Qed.

(** C2 (as amended).  [RouteFromHuman] with no target and with the
    coordinator as only target panic together or return together, with the
    same errors, the same clock, the same mailboxes (so the same enqueues)
    and the same pending counter.  Both append one human entry to the
    history; it is addressed to nobody in the first run and to the
    coordinator in the second, and only the second run marks the
    coordinator active.  Other channels are the same. *)
Theorem RouteFromHuman_default_coordinator
    (w : World) (content channelID senderID : string) :
  match RouteFromHuman [] content channelID senderID w with
  | Panics reason =>
      RouteFromHuman [AgentMaster] content channelID senderID w = Panics reason
  | Returns (errs, w1) =>
      exists w2,
        RouteFromHuman [AgentMaster] content channelID senderID w = Returns (errs, w2)
        /\ clock w2 = clock w1
        /\ actorSystem w2 = actorSystem w1
        /\ pendingOf w2 channelID = pendingOf w1 channelID
        /\ (exists m,
              ConversationMessage.To m = []
              /\ ConversationMessage.From m = ""
              /\ ConversationMessage.IsFromHuman m = true
              /\ ConversationMessage.Content m = content
              /\ historyOf w1 channelID = historyOf w channelID ++ [m]
              /\ historyOf w2 channelID
                 = historyOf w channelID
                     ++ [ConversationMessage.withTo [AgentMaster] m])
        /\ activeAgentsOf w1 channelID = activeAgentsOf w channelID
        /\ activeAgentsOf w2 channelID
           = <[AgentMaster := true]> (activeAgentsOf w channelID)
        /\ (forall other, other <> channelID ->
              conversationsOf w2 !! other = conversationsOf w1 !! other)
  end.
Proof.
  destruct (RouteFromHuman_reaches_loop w content channelID senderID)
    as (wa & m & -> & -> & Hto & Hfrom & Hhuman & Hcontent & Hha & Haa).
  pose proof (commutes_routeEach channelID
                (mapLast (ConversationMessage.withTo [AgentMaster]))
                (insert AgentMaster true)
                [AgentMaster] content senderID [] wa) as Hcomm.
  fold addressedToMaster in Hcomm. rewrite Hcomm. clear Hcomm.
  destruct (routeEach [AgentMaster] content channelID senderID [] wa)
    as [[errs w1]|reason] eqn:Hrun; [|reflexivity].
  cbn [mapWorld]. eexists. split; [reflexivity|].
  apply routeEach_sameTalk in Hrun. destruct (Hrun channelID) as [Hh1 Ha1].
  rewrite <- Hh1 in Hha. rewrite <- Ha1 in Haa.
  repeat split.
  - unfold pendingOf, relabelWorld.
    change (conversationsOf (setConversations ?cs _)) with cs.
    rewrite from_option_alter. reflexivity.
  - exists m. repeat split; try assumption.
    unfold historyOf in Hha |- *. unfold relabelWorld.
    change (conversationsOf (setConversations ?cs _)) with cs.
    rewrite from_option_alter.
    destruct (conversationsOf w1 !! channelID) as [c1|]; cbn in Hha |- *.
    + rewrite Hha. apply mapLast_snoc.
    + now destruct (from_option Conversation.Messages [] (conversationsOf w !! channelID)).
  - exact Haa.
  - unfold activeAgentsOf in Haa |- *. unfold relabelWorld.
    change (conversationsOf (setConversations ?cs _)) with cs.
    rewrite from_option_alter.
    destruct (conversationsOf w1 !! channelID) as [c1|] eqn:Hc1; cbn in Haa |- *.
    + now rewrite Haa.
    + exfalso. unfold historyOf in Hha. rewrite Hc1 in Hha. cbn in Hha.
      now destruct (from_option Conversation.Messages [] (conversationsOf w !! channelID)).
  - intros other Hne. unfold relabelWorld.
    change (conversationsOf (setConversations ?cs _)) with cs.
    now rewrite lookup_alter_ne by congruence.
Qed.

(** C2 as stated fails: with the coordinator registered and no conversation
    yet, the entry appended for an empty target list is addressed to nobody
    and leaves the coordinator inactive, while the entry appended for
    [[AgentMaster]] is addressed to the coordinator and marks it active. *)
Lemma RouteFromHuman_default_differs :
  match RouteFromHuman [] "status?" "room" "u1" sampleWorld,
        RouteFromHuman [AgentMaster] "status?" "room" "u1" sampleWorld with
  | Returns (_, w1), Returns (_, w2) =>
      (ConversationMessage.To <$> historyOf w1 "room") = [[]]
      /\ (ConversationMessage.To <$> historyOf w2 "room") = [[AgentMaster]]
      /\ activeAgentsOf w1 "room" !! AgentMaster = None
      /\ activeAgentsOf w2 "room" !! AgentMaster = Some true
      /\ historyOf w1 "room" <> historyOf w2 "room"
  | _, _ => False
  end.
Proof. vm_compute. repeat split. discriminate. Qed.

(** C9 as stated fails: a conversation created at clock readings 1000 to
    1002 is incremented when the clock reads 1003, then decremented; after
    each call [LastActivity] is still 1002 and the clock has not been read. *)
Lemma pending_change_keeps_lastActivity :
  match (GetOrCreateConversation "room" ;;
         onConversation "room" Conversation.IncrementPending) emptyWorld with
  | Returns (_, w) =>
      (Conversation.LastActivity <$> conversationsOf w !! "room") = Some 1002
      /\ nowOf w = 1003
      /\ match onConversation "room" Conversation.DecrementPending w with
         | Returns (_, w') =>
             (Conversation.LastActivity <$> conversationsOf w' !! "room") = Some 1002
             /\ nowOf w' = 1003
         | Panics _ => False
         end
  | Panics _ => False
  end.
Proof. vm_compute. repeat split; reflexivity. Qed.

(** ** Text and mentions *)

Lemma isWordChar_toLowerChar (c : ascii) :
  isWordChar (toLowerChar c) = isWordChar c.
Proof. destruct c as [[] [] [] [] [] [] [] []]; reflexivity. Qed.

Lemma toLowerChar_idem (c : ascii) : toLowerChar (toLowerChar c) = toLowerChar c.
Proof. destruct c as [[] [] [] [] [] [] [] []]; reflexivity. Qed.

Lemma isSpace_not_word (c : ascii) : isSpace c = true -> isWordChar c = false.
Proof.
  destruct c as [[] [] [] [] [] [] [] []]; vm_compute; intros H;
    (reflexivity || discriminate H).
Qed.

Lemma at_not_word : isWordChar "@" = false.
Proof. reflexivity. Qed.

Lemma foldEq_word (p c : ascii) :
  foldEq p c = true -> isWordChar c = isWordChar p.
Proof.
  unfold foldEq. intros H. apply Ascii.eqb_eq in H.
  rewrite <- (isWordChar_toLowerChar c), <- (isWordChar_toLowerChar p).
  now rewrite H.
Qed.

Lemma dropString_append (g rest : string) :
  dropString (String.length g) (g +:+ rest) = rest.
Proof. induction g as [|c g IH]; [reflexivity | exact IH]. Qed.

(** *** The pattern *)

Lemma append_nil (r : string) : "" +:+ r = r.
Proof. reflexivity. Qed.

Lemma append_cons (c : ascii) (g r : string) : String c g +:+ r = String c (g +:+ r).
Proof. reflexivity. Qed.

Lemma append_assoc (a b c : string) : (a +:+ b) +:+ c = a +:+ (b +:+ c).
Proof. induction a as [|x a IH]; [reflexivity|]. rewrite !append_cons. now rewrite IH. Qed.

Lemma prefix_cons (c d : ascii) (a t : string) :
  String.prefix (String c a) (String d t) = Ascii.eqb c d && String.prefix a t.
Proof.
  cbn. destruct (ascii_dec c d) as [-> | Hne].
  - now rewrite Ascii.eqb_refl.
  - apply Ascii.eqb_neq in Hne. now rewrite Hne.
Qed.

Lemma prefix_split (a t : string) :
  String.prefix a t = true -> t = a +:+ dropString (String.length a) t.
Proof.
  revert t. induction a as [|c a IH]; intros t H; [reflexivity|].
  destruct t as [|d t]; [discriminate H|].
  rewrite prefix_cons in H. apply andb_true_iff in H as [Hc Ha].
  apply Ascii.eqb_eq in Hc as ->. rewrite append_cons. cbn [String.length dropString].
  now rewrite <- (IH _ Ha).
Qed.

Lemma prefix_append (a r : string) : String.prefix a (a +:+ r) = true.
Proof.
  induction a as [|c a IH]; [now destruct r|].
  rewrite append_cons, prefix_cons, Ascii.eqb_refl. exact IH.
Qed.

Lemma isASCII_append (a b : string) : isASCII (a +:+ b) = isASCII a && isASCII b.
Proof.
  induction a as [|c a IH]; [reflexivity|]. rewrite append_cons. cbn [isASCII].
  now rewrite IH, andb_assoc.
Qed.

(** On an ASCII byte a letter of the pattern matches by [foldEq] alone. *)
Lemma foldRune_ascii (p c : ascii) (t : string) :
  isASCIIChar c = true ->
  foldRune p (String c t) = if foldEq p c then Some (String c "", t) else None.
Proof.
  intros Hc. unfold foldRune. destruct (foldEq p c); [reflexivity|].
  unfold longS, kelvinSign. rewrite !prefix_cons.
  assert (Ascii.eqb "197" c = false /\ Ascii.eqb "226" c = false) as [-> ->].
  { destruct c as [[] [] [] [] [] [] [] []]; try discriminate Hc; split; reflexivity. }
  cbn [andb]. now rewrite !andb_false_r.
Qed.

Lemma foldRune_Some (p : ascii) (s rune t : string) :
  foldRune p s = Some (rune, t) -> s = rune +:+ t /\ rune <> "".
Proof.
  unfold foldRune. destruct s as [|c u]; [discriminate|].
  destruct (foldEq p c); [intros [= <- <-]; split; [reflexivity | discriminate]|].
  destruct (Ascii.eqb (toLowerChar p) "s" && String.prefix longS (String c u)) eqn:E1.
  - intros [= <- <-]. apply andb_true_iff in E1 as [_ E1].
    split; [exact (prefix_split _ _ E1) | discriminate].
  - destruct (Ascii.eqb (toLowerChar p) "k" && String.prefix kelvinSign (String c u))
      eqn:E2; [|discriminate].
    intros [= <- <-]. apply andb_true_iff in E2 as [_ E2].
    split; [exact (prefix_split _ _ E2) | discriminate].
Qed.

(** A match of a literal splits the text; it is not empty unless the
    literal is. *)
Lemma foldPrefix_Some (lit s g rest : string) :
  foldPrefix lit s = Some (g, rest) ->
  s = g +:+ rest /\ (lit <> "" -> g <> "").
Proof.
  revert s g rest. induction lit as [|p lit IH]; intros s g rest H; cbn [foldPrefix] in H.
  - injection H as <- <-. split; [reflexivity | congruence].
  - destruct (foldRune p s) as [[rune t]|] eqn:R; [|discriminate].
    destruct (foldPrefix lit t) as [[m r]|] eqn:E; [|discriminate].
    injection H as <- <-. destruct (foldRune_Some _ _ _ _ R) as [-> Hrune].
    destruct (IH _ _ _ E) as [-> _]. split; [now rewrite append_assoc|].
    intros _. destruct rune; [congruence | discriminate].
Qed.

Lemma matchAlternatives_None (alts : list string) (s : string) :
  matchAlternatives alts s = None <->
  Forall (fun alt => matchAlternative alt s = None) alts.
Proof.
  induction alts as [|alt alts IH]; cbn [matchAlternatives].
  - split; [constructor | reflexivity].
  - rewrite Forall_cons, <- IH.
    destruct (matchAlternative alt s); [|tauto].
    split; [discriminate | intros [[=] _]].
Qed.

Lemma matchAlternatives_Some (alts : list string) (s : string)
    (found : string * string) :
  matchAlternatives alts s = Some found ->
  exists alt, alt ∈ alts /\ matchAlternative alt s = Some found.
Proof.
  induction alts as [|alt alts IH]; cbn [matchAlternatives]; [discriminate|].
  destruct (matchAlternative alt s) as [found'|] eqn:E.
  - intros [= <-]. exists alt. split; [left | exact E].
  - intros H. destruct (IH H) as (a & Hin & Ha).
    exists a. split; [now right | exact Ha].
Qed.

Lemma roster_allWord : Forall (fun alt => allWord alt = true /\ alt <> "") AllAgentTypes.
Proof. repeat constructor; discriminate. Qed.

(** A match of the whole pattern splits the text. *)
Lemma matchMention_split (s g rest : string) :
  matchMention s = Some (g, rest) -> s = String "@" (g +:+ rest) /\ g <> "".
Proof.
  unfold matchMention. destruct s as [|c t]; [discriminate|].
  destruct (Ascii.eqb_spec c "@") as [-> | _]; [|discriminate].
  intros H. apply matchAlternatives_Some in H as (alt & Hin & H).
  pose proof roster_allWord as Hr. rewrite Forall_forall in Hr.
  destruct (Hr alt Hin) as [_ Hne].
  unfold matchAlternative in H.
  destruct (foldPrefix alt t) as [[g' rest']|] eqn:E; [|discriminate].
  destruct (wordBoundary (lastChar g') rest'); [|discriminate].
  injection H as -> ->. destruct (foldPrefix_Some _ _ _ _ E) as [-> Hg].
  split; [reflexivity | exact (Hg Hne)].
Qed.

Lemma matchMention_ascii (s g rest : string) :
  isASCII s = true -> matchMention s = Some (g, rest) ->
  isASCII g = true /\ isASCII rest = true.
Proof.
  intros Hs H. destruct (matchMention_split _ _ _ H) as [-> _].
  cbn [isASCII] in Hs. apply andb_true_iff in Hs as [_ Hs].
  rewrite isASCII_append in Hs. now apply andb_true_iff in Hs.
Qed.

Lemma foldPrefix_allWord (lit s g rest : string) :
  isASCII s = true ->
  allWord lit = true -> foldPrefix lit s = Some (g, rest) -> allWord g = true.
Proof.
  revert s g rest. induction lit as [|p lit IH]; intros s g rest Hs Hw H;
    cbn [foldPrefix] in H.
  - now injection H as <- <-.
  - destruct s as [|c t]; [discriminate H|].
    cbn [isASCII] in Hs. apply andb_true_iff in Hs as [Hc Ht].
    rewrite (foldRune_ascii _ _ _ Hc) in H.
    destruct (foldEq p c) eqn:Hf; [|discriminate].
    destruct (foldPrefix lit t) as [[m r]|] eqn:E; [|discriminate].
    injection H as <- <-. rewrite append_cons, append_nil. cbn in Hw |- *.
    apply andb_true_iff in Hw as [Hp Hlit].
    rewrite (foldEq_word _ _ Hf), Hp. cbn. eauto.
Qed.

Lemma foldPrefix_rest (lit g rest rest' : string) :
  isASCII g = true ->
  foldPrefix lit (g +:+ rest) = Some (g, rest) ->
  foldPrefix lit (g +:+ rest') = Some (g, rest').
Proof.
  revert g. induction lit as [|p lit IH]; intros g Hg H.
  - cbn in H. injection H as <- _. reflexivity.
  - destruct g as [|c g].
    + apply foldPrefix_Some in H as [_ Hne]. exfalso. now apply Hne.
    + cbn [isASCII] in Hg. apply andb_true_iff in Hg as [Hc Hg].
      rewrite append_cons in H |- *. cbn [foldPrefix] in H |- *.
      rewrite (foldRune_ascii p c (g +:+ rest) Hc) in H.
      rewrite (foldRune_ascii p c (g +:+ rest') Hc).
      destruct (foldEq p c); [|discriminate H].
      destruct (foldPrefix lit (g +:+ rest)) as [[m r]|] eqn:E; [|discriminate H].
      rewrite append_cons, append_nil in H. injection H as -> ->.
      rewrite (IH _ Hg E). now rewrite append_cons, append_nil.
Qed.

Lemma lastChar_allWord (g : string) :
  allWord g = true -> g <> "" -> isWordAt (lastChar g) = true.
Proof.
  induction g as [|c g IH]; [congruence|]. cbn [allWord]. intros Hw _.
  apply andb_true_iff in Hw as [Hc Hg]. destruct g as [|c' g']; [exact Hc|].
  apply IH; [exact Hg | discriminate].
Qed.

(** A match of an alternative made of word bytes in an ASCII text: the
    group is made of word bytes, the text is the group followed by the
    rest, and the rest does not start with a word byte. *)
Lemma matchAlternative_Some (alt s g rest : string) :
  isASCII s = true ->
  allWord alt = true -> alt <> "" ->
  matchAlternative alt s = Some (g, rest) ->
  s = g +:+ rest /\ allWord g = true /\ g <> "" /\ nonWordStart rest.
Proof.
  intros Hs Hw Hne. unfold matchAlternative.
  destruct (foldPrefix alt s) as [[g' rest']|] eqn:E; [|discriminate].
  destruct (wordBoundary (lastChar g') rest') eqn:B; [|discriminate].
  intros [= -> ->]. destruct (foldPrefix_Some _ _ _ _ E) as [Hsplit Hg0].
  pose proof (foldPrefix_allWord _ _ _ _ Hs Hw E) as Hg.
  pose proof (Hg0 Hne) as Hgne.
  repeat split; try assumption.
  unfold wordBoundary in B. rewrite (lastChar_allWord g Hg Hgne) in B.
  unfold nonWordStart. now destruct (isWordAt (headChar rest)).
Qed.

Lemma matchMention_Some (s g rest : string) :
  isASCII s = true ->
  matchMention s = Some (g, rest) ->
  s = String "@" (g +:+ rest) /\ allWord g = true /\ g <> "" /\ nonWordStart rest.
Proof.
  unfold matchMention. destruct s as [|c t]; [discriminate|].
  cbn [isASCII]. intros Hs. apply andb_true_iff in Hs as [_ Ht].
  destruct (Ascii.eqb_spec c "@") as [-> | _]; [|discriminate].
  intros H. apply matchAlternatives_Some in H as (alt & Hin & H).
  pose proof roster_allWord as Hr. rewrite Forall_forall in Hr.
  destruct (Hr alt Hin) as [Hw Hne].
  destruct (matchAlternative_Some _ _ _ _ Ht Hw Hne H) as (-> & ? & ? & ?). auto.
Qed.

Lemma matchMention_word (c : ascii) (t : string) :
  isWordChar c = true -> matchMention (String c t) = None.
Proof.
  intros Hc. unfold matchMention.
  destruct (Ascii.eqb_spec c "@") as [-> | _]; [discriminate | reflexivity].
Qed.

(** *** Scanning *)

Lemma length_append (g r : string) :
  String.length (g +:+ r) = (String.length g + String.length r)%nat.
Proof. induction g as [|c g IH]; [reflexivity|]. rewrite append_cons. cbn. now rewrite IH. Qed.

Lemma string_length_ind (P : string -> Prop) :
  (forall s, (forall s', (String.length s' < String.length s)%nat -> P s') -> P s) ->
  forall s, P s.
Proof.
  intros Hstep s. remember (String.length s) as n eqn:Hn. revert s Hn.
  induction n as [n IH] using lt_wf_ind. intros s ->.
  apply Hstep. intros s' Hlt. now apply (IH _ Hlt).
Qed.

Lemma scanFrom_skip (k : nat) (s : string) :
  scanFrom k s = scanFrom O (dropString k s).
Proof.
  revert k. induction s as [|c t IH]; intros [|k]; try reflexivity.
  cbn [scanFrom dropString]. apply IH.
Qed.

Lemma scan_match (s g rest : string) :
  matchMention s = Some (g, rest) ->
  scanFrom O s = Matched g :: scanFrom O rest.
Proof.
  intros H. destruct (matchMention_split _ _ _ H) as (Hs & _).
  destruct s as [|c t]; [discriminate Hs|]. injection Hs as -> ->.
  cbn [scanFrom]. rewrite H. now rewrite scanFrom_skip, dropString_append.
Qed.

Lemma scan_kept (c : ascii) (t : string) :
  matchMention (String c t) = None ->
  scanFrom O (String c t) = Kept c :: scanFrom O t.
Proof. intros H. cbn [scanFrom]. now rewrite H. Qed.

Lemma clean_match (s g rest : string) :
  matchMention s = Some (g, rest) ->
  ReplaceAllString_empty s = ReplaceAllString_empty rest.
Proof. intros H. unfold ReplaceAllString_empty. now rewrite (scan_match _ _ _ H). Qed.

Lemma clean_kept (c : ascii) (t : string) :
  matchMention (String c t) = None ->
  ReplaceAllString_empty (String c t) = String c (ReplaceAllString_empty t).
Proof. intros H. unfold ReplaceAllString_empty. now rewrite (scan_kept _ _ H). Qed.

Lemma rest_shorter (s g rest : string) :
  matchMention s = Some (g, rest) -> (String.length rest < String.length s)%nat.
Proof.
  intros H. destruct (matchMention_split _ _ _ H) as (-> & _).
  cbn. rewrite length_append. lia.
Qed.

Lemma isASCII_clean (s : string) :
  isASCII s = true -> isASCII (ReplaceAllString_empty s) = true.
Proof.
  induction s as [s IH] using string_length_ind. intros Hs.
  destruct (matchMention s) as [[g rest]|] eqn:Hm.
  - rewrite (clean_match _ _ _ Hm). apply IH; [now apply (rest_shorter _ g)|].
    now destruct (matchMention_ascii _ _ _ Hs Hm).
  - destruct s as [|c t]; [reflexivity|]. rewrite (clean_kept _ _ Hm).
    cbn [isASCII] in Hs |- *. apply andb_true_iff in Hs as [Hc Ht].
    rewrite Hc. apply IH; [cbn; lia | exact Ht].
Qed.

Lemma clean_allWord (g rest : string) :
  allWord g = true ->
  ReplaceAllString_empty (g +:+ rest) = g +:+ ReplaceAllString_empty rest.
Proof.
  induction g as [|c g IH]; [reflexivity|]. cbn [allWord]. intros Hw.
  apply andb_true_iff in Hw as [Hc Hg]. rewrite !append_cons.
  rewrite clean_kept by now apply matchMention_word. now rewrite IH.
Qed.

(** Cleaning an ASCII text never brings a word byte to the front of a text
    that did not start with one. *)
Lemma clean_nonWordStart (s : string) :
  isASCII s = true ->
  nonWordStart s -> nonWordStart (ReplaceAllString_empty s).
Proof.
  induction s as [s IH] using string_length_ind. intros Hascii Hs.
  destruct (matchMention s) as [[g rest]|] eqn:Hm.
  - rewrite (clean_match _ _ _ Hm). apply IH; [now apply (rest_shorter _ g)| |].
    + now destruct (matchMention_ascii _ _ _ Hascii Hm).
    + now destruct (matchMention_Some _ _ _ Hascii Hm) as (_ & _ & _ & ?).
  - destruct s as [|c t]; [exact Hs|]. rewrite (clean_kept _ _ Hm). exact Hs.
Qed.

Lemma foldPrefix_nonWordStart (lit s : string) :
  isASCII s = true ->
  allWord lit = true -> lit <> "" -> nonWordStart s -> foldPrefix lit s = None.
Proof.
  destruct lit as [|p lit]; [congruence|]. cbn [allWord]. intros Hascii Hw _ Hs.
  apply andb_true_iff in Hw as [Hp _].
  destruct s as [|c t]; [reflexivity|]. cbn [foldPrefix].
  cbn [isASCII] in Hascii. apply andb_true_iff in Hascii as [Hc _].
  rewrite (foldRune_ascii _ _ _ Hc).
  destruct (foldEq p c) eqn:Hf; [|reflexivity].
  apply foldEq_word in Hf. unfold nonWordStart in Hs. cbn in Hs. congruence.
Qed.

Lemma foldPrefix_clean_None (lit : string) : forall t,
  isASCII t = true ->
  allWord lit = true ->
  foldPrefix lit t = None -> foldPrefix lit (ReplaceAllString_empty t) = None.
Proof.
  induction lit as [|p lit IH]; intros t Hascii Hw H; [discriminate H|].
  pose proof Hw as Hw'. cbn [allWord] in Hw. apply andb_true_iff in Hw as [Hp Hlit].
  destruct t as [|c u]; [reflexivity|].
  destruct (matchMention (String c u)) as [[g rest]|] eqn:Hm.
  - rewrite (clean_match _ _ _ Hm).
    destruct (matchMention_ascii _ _ _ Hascii Hm) as [_ Hrest].
    apply foldPrefix_nonWordStart;
      [now apply isASCII_clean | exact Hw' | discriminate |].
    apply clean_nonWordStart; [exact Hrest|].
    now destruct (matchMention_Some _ _ _ Hascii Hm) as (_ & _ & _ & ?).
  - rewrite (clean_kept _ _ Hm). cbn [foldPrefix] in H |- *.
    cbn [isASCII] in Hascii. apply andb_true_iff in Hascii as [Hc Hu].
    rewrite (foldRune_ascii p c u Hc) in H.
    rewrite (foldRune_ascii p c (ReplaceAllString_empty u) Hc).
    destruct (foldEq p c); [|reflexivity].
    destruct (foldPrefix lit u) as [[m r]|] eqn:E; [discriminate H|].
    now rewrite (IH _ Hu Hlit E).
Qed.

Lemma matchAlternative_clean (alt t : string) :
  isASCII t = true ->
  allWord alt = true -> alt <> "" ->
  matchAlternative alt t = None ->
  matchAlternative alt (ReplaceAllString_empty t) = None.
Proof.
  intros Hascii Hw Hne. unfold matchAlternative.
  destruct (foldPrefix alt t) as [[g rest]|] eqn:E.
  - destruct (wordBoundary (lastChar g) rest) eqn:B; [discriminate|]. intros _.
    destruct (foldPrefix_Some _ _ _ _ E) as [Hsplit Hg0].
    pose proof (foldPrefix_allWord _ _ _ _ Hascii Hw E) as Hg.
    pose proof (Hg0 Hne) as Hgne. subst t.
    rewrite isASCII_append in Hascii. apply andb_true_iff in Hascii as [Hga _].
    rewrite (clean_allWord g rest Hg).
    rewrite (foldPrefix_rest _ _ _ (ReplaceAllString_empty rest) Hga E).
    unfold wordBoundary in B |- *. rewrite (lastChar_allWord g Hg Hgne) in B |- *.
    destruct rest as [|c r]; [discriminate B|]. cbn in B.
    destruct (isWordChar c) eqn:Hc; [|discriminate B].
    rewrite clean_kept by now apply matchMention_word. cbn. now rewrite Hc.
  - intros _. now rewrite (foldPrefix_clean_None _ _ Hascii Hw E).
Qed.

Lemma matchMention_clean (c : ascii) (t : string) :
  isASCII t = true ->
  matchMention (String c t) = None ->
  matchMention (String c (ReplaceAllString_empty t)) = None.
Proof.
  intros Hascii. unfold matchMention. destruct (Ascii.eqb c "@"); [|reflexivity].
  rewrite !matchAlternatives_None. intros H.
  pose proof roster_allWord as Hr.
  rewrite Forall_forall in H, Hr |- *. intros alt Hin.
  destruct (Hr alt Hin) as [Hw Hne]. apply matchAlternative_clean; auto.
Qed.

(** The cleaned text of an ASCII text holds no mention. *)
Lemma clean_matchFree (s : string) :
  isASCII s = true -> matchFree (ReplaceAllString_empty s).
Proof.
  induction s as [s IH] using string_length_ind. intros Hascii.
  destruct (matchMention s) as [[g rest]|] eqn:Hm.
  - rewrite (clean_match _ _ _ Hm). apply IH; [now apply (rest_shorter _ g)|].
    now destruct (matchMention_ascii _ _ _ Hascii Hm).
  - destruct s as [|c t]; [now split|]. rewrite (clean_kept _ _ Hm).
    cbn [isASCII] in Hascii. apply andb_true_iff in Hascii as [_ Ht].
    cbn [matchFree]. split; [now apply matchMention_clean|].
    apply IH; [cbn; lia | exact Ht].
Qed.


(** *** Trimming *)

Lemma trimRight_split (t : string) :
  exists sp, t = trimRight t +:+ sp /\ allSpace sp = true.
Proof.
  induction t as [|c t (sp & Ht & Hsp)].
  - exists "". split; reflexivity.
  - cbn [trimRight]. destruct (trimRight t) as [|c' t'] eqn:E.
    + destruct (isSpace c) eqn:Hc.
      * exists (String c t). split; [reflexivity|].
        rewrite Ht, append_nil. cbn. now rewrite Hc.
      * exists sp. split; [|exact Hsp]. rewrite Ht at 1. reflexivity.
    + exists sp. split; [|exact Hsp]. rewrite Ht at 1. reflexivity.
Qed.

Lemma isASCII_trimRight (t : string) : isASCII t = true -> isASCII (trimRight t) = true.
Proof.
  intros Ht. destruct (trimRight_split t) as (sp & Hsplit & _).
  rewrite Hsplit, isASCII_append in Ht. now apply andb_true_iff in Ht.
Qed.

Lemma isASCII_trimLeft (t : string) : isASCII t = true -> isASCII (trimLeft t) = true.
Proof.
  induction t as [|c t IH]; [auto|]. intros Ht. cbn [trimLeft].
  destruct (isSpace c); [|exact Ht]. apply IH. cbn [isASCII] in Ht.
  now apply andb_true_iff in Ht.
Qed.

Lemma nonWordStart_append (r sp : string) :
  allSpace sp = true -> nonWordStart r -> nonWordStart (r +:+ sp).
Proof.
  intros Hsp Hr. destruct r as [|c r]; [|exact Hr].
  rewrite append_nil. destruct sp as [|c sp]; [reflexivity|].
  cbn in Hsp. apply andb_true_iff in Hsp as [Hc _].
  unfold nonWordStart. cbn. now apply isSpace_not_word.
Qed.

Lemma matchAlternative_append (alt x g r sp : string) :
  isASCII x = true ->
  allWord alt = true -> alt <> "" -> allSpace sp = true ->
  matchAlternative alt x = Some (g, r) ->
  matchAlternative alt (x +:+ sp) = Some (g, r +:+ sp).
Proof.
  intros Hascii Hw Hne Hsp H.
  destruct (matchAlternative_Some _ _ _ _ Hascii Hw Hne H) as (-> & Hg & Hgne & Hr).
  rewrite isASCII_append in Hascii. apply andb_true_iff in Hascii as [Hga _].
  unfold matchAlternative in H |- *.
  destruct (foldPrefix alt (g +:+ r)) as [[g' r']|] eqn:E; [|discriminate H].
  destruct (wordBoundary (lastChar g') r'); [|discriminate H].
  injection H as -> ->.
  rewrite append_assoc, (foldPrefix_rest _ _ _ (r +:+ sp) Hga E).
  unfold wordBoundary. rewrite (lastChar_allWord g Hg Hgne).
  now rewrite (nonWordStart_append r sp Hsp Hr).
Qed.

Lemma matchMention_trimRight (c : ascii) (t : string) :
  isASCII t = true ->
  matchMention (String c t) = None ->
  matchMention (String c (trimRight t)) = None.
Proof.
  intros Hascii. unfold matchMention. destruct (Ascii.eqb c "@"); [|reflexivity].
  intros H.
  destruct (matchAlternatives AllAgentTypes (trimRight t)) as [[g r]|] eqn:E;
    [|reflexivity].
  exfalso. apply matchAlternatives_Some in E as (alt & Hin & E).
  pose proof roster_allWord as Hr. rewrite Forall_forall in Hr.
  destruct (Hr alt Hin) as [Hw Hne].
  destruct (trimRight_split t) as (sp & Ht & Hsp).
  apply (matchAlternative_append _ _ _ _ sp (isASCII_trimRight _ Hascii) Hw Hne Hsp) in E.
  rewrite <- Ht in E.
  rewrite matchAlternatives_None, Forall_forall in H.
  specialize (H alt Hin). congruence.
Qed.

Lemma matchFree_trimRight (s : string) :
  isASCII s = true -> matchFree s -> matchFree (trimRight s).
Proof.
  induction s as [|c t IH]; [auto|]. cbn [matchFree isASCII]. intros Hascii [Hm Ht].
  apply andb_true_iff in Hascii as [_ Hta].
  pose proof (matchMention_trimRight c t Hta Hm) as Hm'.
  specialize (IH Hta Ht). cbn [trimRight].
  destruct (trimRight t) as [|c' t'] eqn:E.
  - destruct (isSpace c); [now split|]. cbn [matchFree]. now split.
  - cbn [matchFree]. split; [exact Hm' | exact IH].
Qed.

Lemma matchFree_trimLeft (s : string) : matchFree s -> matchFree (trimLeft s).
Proof.
  induction s as [|c t IH]; [auto|]. intros Hs. cbn [trimLeft].
  destruct (isSpace c); [|exact Hs]. apply IH. now destruct Hs.
Qed.

(** The text the gateway has cleaned, when the text is ASCII, holds no
    mention. *)
Lemma cleanMentions_matchFree (content : string) :
  isASCII content = true -> matchFree (cleanMentions content).
Proof.
  intros Hascii. unfold cleanMentions, TrimSpace.
  apply matchFree_trimRight;
    [now apply isASCII_trimLeft, isASCII_clean|].
  now apply matchFree_trimLeft, clean_matchFree.
Qed.


(** *** The reply handler's cleaning *)





Lemma replace_lowered (old : string) (s : string) : forall k,
  ToLower s = s -> ToLower (replaceFrom k s old "") = replaceFrom k s old "".
Proof.
  induction s as [|c t IH]; intros k Hs; [reflexivity|].
  cbn in Hs. injection Hs as Hc Ht. cbn [replaceFrom]. destruct k as [|k].
  - destruct (String.prefix old (String c t)).
    + rewrite append_nil. now apply IH.
    + cbn. now rewrite Hc, IH.
  - now apply IH.
Qed.

Lemma ToLower_idem (s : string) : ToLower (ToLower s) = ToLower s.
Proof.
  induction s as [|c t IH]; [reflexivity|]. cbn. now rewrite toLowerChar_idem, IH.
Qed.

Lemma lowered_trimLeft (s : string) : ToLower s = s -> ToLower (trimLeft s) = trimLeft s.
Proof.
  induction s as [|c t IH]; [auto|]. intros H. cbn [trimLeft].
  destruct (isSpace c); [|exact H]. apply IH. cbn in H. now injection H.
Qed.

Lemma lowered_trimRight (s : string) : ToLower s = s -> ToLower (trimRight s) = trimRight s.
Proof.
  induction s as [|c t IH]; [auto|]. intros H. cbn in H. injection H as Hc Ht.
  specialize (IH Ht). cbn [trimRight]. destruct (trimRight t) as [|c' t'].
  - destruct (isSpace c); [reflexivity|]. cbn. now rewrite Hc.
  - cbn [ToLower] in IH |- *. now rewrite Hc, IH.
Qed.

(** Where a text is found in another. *)
























Lemma HandleAgentResponse_unknown_channel_witness :
  HandleAgentResponse AgentDev "done" "room" sampleWorld = Returns (tt, sampleWorld).
Proof.
  apply (HandleAgentResponse_unknown_channel sampleWorld AgentDev "done" "room").
  reflexivity.
Defined.

(** ** The reply handler *)

(** C7 (the code's behaviour).  The content the reply handler routes is in
    lower case whatever the reply was.  After the human has addressed [dev],
    [dev] replies [@qa PR ready]: the reply is posted, and the message
    queued for [qa] carries the content [pr ready]. *)
Theorem reply_mention_content_is_lowercased :
  (forall content,
      ToLower (cleanMentionsFromResponse content) = cleanMentionsFromResponse content)
  /\ cleanMentionsFromResponse "@qa PR ready" = "pr ready"
  /\ match (RouteFromHuman [AgentDev] "please fix login" "room" "u1" ;;
            SendAgentResponse (fun _ _ _ => None) AgentDev "room" "@qa PR ready")
           sampleWorld with
     | Returns (None, w) =>
         (ActorMessage.From <$> queueOf w AgentQA) = [AgentDev]
         /\ (ActorMessage.Content <$> queueOf w AgentQA) = ["pr ready"]
     | _ => False
     end.
Proof.
  split.
  - intros content. unfold cleanMentionsFromResponse, TrimSpace, AllAgentTypes.
    cbn [foldl]. apply lowered_trimRight, lowered_trimLeft.
    apply (replace_lowered _ _ O), ToLower_idem.
  - vm_compute. repeat split; reflexivity.
Qed.

(** * More properties *)

(** ** One conversation, continued *)

(** The entry [AddMessage] appends for a call. *)
Lemma Messages_apply (c : Conversation.t) (op : Conversation.Op) :
  Conversation.Messages (Conversation.apply c op)
  = Conversation.Messages c
      ++ match op with
         | Conversation.OpAddMessage stamp _ msg =>
             [ConversationMessage.withTimestamp stamp msg]
         | _ => []
         end.
Proof.
  destruct op as [stamp activity msg | | | ]; cbn [Conversation.apply].
  - reflexivity.
  - cbn. now rewrite app_nil_r.
  - destruct (other_fields_DecrementPending c) as [-> _]. now rewrite app_nil_r.
  - cbn. now rewrite app_nil_r.
Qed.

(** X1.  The history is append-only: after any sequence of calls it is the
    history before, followed by the messages of the [AddMessage] calls in
    call order, each stamped with the time read for it. *)
Theorem history_is_append_only (ops : list Conversation.Op) (c : Conversation.t) :
  Conversation.Messages (Conversation.run ops c)
  = Conversation.Messages c
      ++ omap (fun op =>
                 match op with
                 | Conversation.OpAddMessage stamp _ msg =>
                     Some (ConversationMessage.withTimestamp stamp msg)
                 | _ => None
                 end) ops.
Proof.
  revert c. induction ops as [|op ops IH]; intros c.
  - cbn. now rewrite app_nil_r.
  - cbn [Conversation.run foldl]. fold (Conversation.run ops (Conversation.apply c op)).
    rewrite IH, Messages_apply, <- app_assoc. f_equal.
    now destruct op.
Qed.

Lemma not_idle_apply (c : Conversation.t) (op : Conversation.Op) :
  Conversation.State c <> ConvStateIdle \/ Conversation.PendingCount c = 0 ->
  Conversation.State (Conversation.apply c op) <> ConvStateIdle.
Proof.
  intros Hc. destruct op as [stamp activity msg | | | ]; cbn [Conversation.apply].
  - cbn. destruct (Conversation.State c); discriminate.
  - cbn. discriminate.
  - unfold Conversation.DecrementPending.
    destruct (Z.ltb_spec 0 (Conversation.PendingCount c)) as [Hpos | Hle];
      cbn [Conversation.PendingCount Conversation.withPendingCount].
    + match goal with |- context [?x =? 0] => destruct (x =? 0) end; cbn;
        [discriminate|]. destruct Hc as [Hc | Hc]; [exact Hc | lia].
    + destruct (Z.eqb_spec (Conversation.PendingCount c) 0) as [_ | Hne]; cbn;
        [discriminate|]. destruct Hc as [Hc | Hc]; [exact Hc | lia].
  - cbn. discriminate.
Qed.

Lemma not_idle_run (ops : list Conversation.Op) : forall c,
  Conversation.State c <> ConvStateIdle ->
  Conversation.State (Conversation.run ops c) <> ConvStateIdle.
Proof.
  induction ops as [|op ops IH]; intros c Hc; [exact Hc|].
  cbn [Conversation.run foldl]. apply IH. apply not_idle_apply. now left.
Qed.

(** X2.  Idle is the state of a conversation nothing has been called on:
    after at least one call, whatever the calls, a new conversation is not
    Idle. *)
Theorem idle_is_never_reentered
    (id channelID : string) (created activity : Time) (idleTimeout : Z)
    (ops : list Conversation.Op) :
  ops <> [] ->
  Conversation.State
    (Conversation.run ops
       (Conversation.fresh id channelID created activity idleTimeout))
  <> ConvStateIdle.
Proof.
  destruct ops as [|op ops]; [congruence|]. intros _.
  cbn [Conversation.run foldl]. apply not_idle_run, not_idle_apply. now right.
Qed.

Lemma idle_is_never_reentered_witness :
  Conversation.State
    (Conversation.run
       [Conversation.OpIncrementPending; Conversation.OpDecrementPending;
        Conversation.OpDecrementPending]
       (Conversation.fresh "conv_room_7" "room" 7 8 300))
  <> ConvStateIdle.
Proof.
  apply (idle_is_never_reentered "conv_room_7" "room" 7 8 300). discriminate.
Defined.

Lemma lookup_foldl_insert_true (tos : list AgentType) : forall (active : gmap AgentType bool) x,
  foldl (fun acc to => <[to := true]> acc) active tos !! x
  = if bool_decide (x ∈ tos) then Some true else active !! x.
Proof.
  induction tos as [|to tos IH]; intros active x; cbn [foldl].
  - rewrite bool_decide_eq_false_2 by apply not_elem_of_nil. reflexivity.
  - rewrite IH. destruct (decide (x ∈ tos)) as [Hin | Hnin].
    + rewrite !bool_decide_eq_true_2; [reflexivity | now right | exact Hin].
    + rewrite (bool_decide_eq_false_2 (x ∈ tos)) by exact Hnin.
      destruct (decide (x = to)) as [-> | Hne].
      * rewrite lookup_insert_eq, bool_decide_eq_true_2; [reflexivity | left].
      * rewrite lookup_insert_ne by congruence.
        rewrite bool_decide_eq_false_2; [reflexivity|].
        intros Hin. apply elem_of_cons in Hin as [? | ?]; contradiction.
Qed.

(** X3.  After [AddMessage], an agent is marked active exactly when it is an
    addressee of the message, or the sender of a message that is not from
    the human and has a sender, or was marked before. *)
Theorem AddMessage_active_agents
    (stamp activity : Time) (msg : ConversationMessage.t) (c : Conversation.t)
    (x : AgentType) :
  Conversation.ActiveAgents (Conversation.AddMessage stamp activity msg c) !! x
    = Some true
  <-> x ∈ ConversationMessage.To msg
      \/ (ConversationMessage.IsFromHuman msg = false
          /\ ConversationMessage.From msg <> ""
          /\ x = ConversationMessage.From msg)
      \/ Conversation.ActiveAgents c !! x = Some true.
Proof.
  cbn [Conversation.AddMessage Conversation.ActiveAgents].
  unfold Conversation.trackAgents.
  cbn [ConversationMessage.withTimestamp ConversationMessage.To
       ConversationMessage.From ConversationMessage.IsFromHuman].
  rewrite lookup_foldl_insert_true.
  destruct (decide (x ∈ ConversationMessage.To msg)) as [Hin | Hnin].
  - rewrite bool_decide_eq_true_2 by exact Hin. tauto.
  - rewrite bool_decide_eq_false_2 by exact Hnin.
    destruct (ConversationMessage.IsFromHuman msg); cbn [negb andb].
    + split; [tauto|]. intros [? | [(? & _) | ?]]; [contradiction | discriminate | assumption].
    + destruct (String.eqb_spec (ConversationMessage.From msg) "") as [Hempty | Hfrom];
        cbn [negb].
      * split; [tauto|]. intros [? | [(_ & ? & _) | ?]]; [contradiction | contradiction | assumption].
      * destruct (decide (x = ConversationMessage.From msg)) as [-> | Hne].
        -- rewrite lookup_insert_eq. split; [|reflexivity]. intros _. right. left. auto.
        -- rewrite lookup_insert_ne by congruence. split; [tauto|].
           intros [? | [(_ & _ & ?) | ?]]; [contradiction | contradiction | assumption].
Qed.

Lemma GetRecentMessages_drop (n : Z) (c : Conversation.t) :
  0 < n <= intMax ->
  Z.of_nat (length (Conversation.Messages c)) <= intMax ->
  GetRecentMessages n c
  = drop (length (Conversation.Messages c) - Z.to_nat n) (Conversation.Messages c).
Proof.
  intros Hn Hlen. unfold GetRecentMessages.
  destruct (Z.leb_spec n 0) as [? | _]; [lia|]. cbn [orb].
  destruct (Z.eqb_spec (Z.of_nat (length (Conversation.Messages c))) 0) as [Hz | Hnz].
  - destruct (Conversation.Messages c); [reflexivity | discriminate Hz].
  - rewrite wrapInt_in_range by (unfold intMin, intMax in *; lia).
    destruct (Z.ltb_spec (Z.of_nat (length (Conversation.Messages c)) - n) 0).
    + replace (length (Conversation.Messages c) - Z.to_nat n)%nat with O by lia.
      reflexivity.
    + f_equal. lia.
Qed.

(** The window as a suffix of the history. *)
Lemma GetRecentMessages_suffix (n : Z) (c : Conversation.t) :
  n <= intMax ->
  Z.of_nat (length (Conversation.Messages c)) <= intMax ->
  GetRecentMessages n c `suffix_of` Conversation.Messages c
  /\ Z.of_nat (length (GetRecentMessages n c))
     = Z.min (Z.max 0 n) (Z.of_nat (length (Conversation.Messages c)))
  /\ (Z.of_nat (length (Conversation.Messages c)) <= n ->
      GetRecentMessages n c = Conversation.Messages c).
Proof.
  intros Hn Hlen. destruct (Z.leb_spec n 0) as [Hle | Hpos].
  - assert (GetRecentMessages n c = []) as ->.
    { unfold GetRecentMessages. destruct (Z.leb_spec n 0); [reflexivity | lia]. }
    repeat split.
    + apply suffix_nil.
    + cbn. lia.
    + intros Hall. destruct (Conversation.Messages c); [reflexivity | cbn in Hall; lia].
  - rewrite GetRecentMessages_drop by lia. repeat split.
    + apply suffix_drop.
    + rewrite length_drop. lia.
    + intros Hall.
      replace (length (Conversation.Messages c) - Z.to_nat n)%nat with O by lia.
      reflexivity.
Qed.

(** X4.  [GetRecentMessages n] returns the last [n] entries of the history
    in order: a suffix of the history of length [min n len] (nothing for
    [n <= 0]), hence the whole history once [n] reaches its length. *)
Theorem GetRecentMessages_window (n : Z) (c : Conversation.t) :
  n <= intMax ->
  Z.of_nat (length (Conversation.Messages c)) <= intMax ->
  GetRecentMessages n c `suffix_of` Conversation.Messages c
  /\ Z.of_nat (length (GetRecentMessages n c))
     = Z.min (Z.max 0 n) (Z.of_nat (length (Conversation.Messages c)))
  /\ (Z.of_nat (length (Conversation.Messages c)) <= n ->
      GetRecentMessages n c = Conversation.Messages c).
Proof.
  intros Hn Hlen.
  destruct (GetRecentMessages_suffix n c Hn Hlen) as (Hsuffix & Hsize & Hall).
  split; [exact Hsuffix|]. split; [exact Hsize | exact Hall].
Qed.

Lemma GetRecentMessages_window_witness :
  let c := Conversation.run
             [Conversation.OpAddMessage 1 2
                (ConversationMessage.mk "human_1" "" [AgentDev] "fix login" 0 true ∅);
              Conversation.OpAddMessage 3 4
                (ConversationMessage.mk "resp_3" AgentDev [] "done" 0 false ∅);
              Conversation.OpAddMessage 5 6
                (ConversationMessage.mk "human_5" "" [] "thanks" 0 true ∅)]
             (Conversation.fresh "conv_room_0" "room" 0 0 300) in
  (ConversationMessage.Content <$> GetRecentMessages 2 c) = ["done"; "thanks"]
  /\ Z.of_nat (length (GetRecentMessages 2 c)) = 2.
Proof.
  intros c. split; [reflexivity|].
  destruct (GetRecentMessages_window 2 c) as (_ & Hlen & _);
    [vm_compute; discriminate | vm_compute; discriminate | exact Hlen].
Defined.

(** *** The context built for an agent *)

Lemma append_nil_r (s : string) : s +:+ "" = s.
Proof. induction s as [|ch s IH]; [reflexivity|]. rewrite append_cons. now rewrite IH. Qed.

Lemma contextLines_from (acc : string) (msgs : list ConversationMessage.t) :
  foldl (fun context msg => context +:+ contextLine msg) acc msgs
  = acc +:+ foldl (fun context msg => context +:+ contextLine msg) "" msgs.
Proof.
  revert acc. induction msgs as [|m msgs IH]; intros acc; cbn [foldl].
  - now rewrite append_nil_r.
  - rewrite (IH (acc +:+ contextLine m)), (IH ("" +:+ contextLine m)).
    now rewrite append_nil, append_assoc.
Qed.

Lemma contextLines_snoc (msgs : list ConversationMessage.t) (m : ConversationMessage.t) :
  foldl (fun context msg => context +:+ contextLine msg) "" (msgs ++ [m])
  = foldl (fun context msg => context +:+ contextLine msg) "" msgs +:+ contextLine m.
Proof. now rewrite foldl_app. Qed.

Lemma BuildContextForAgent_lines (agent : AgentType) (k : Z) (c : Conversation.t) :
  BuildContextForAgent agent k c
  = foldl (fun context msg => context +:+ contextLine msg) ""
      (GetRecentMessages k c).
Proof. unfold BuildContextForAgent. now destruct (GetRecentMessages k c). Qed.

Lemma contextLines_empty (msgs : list ConversationMessage.t) :
  foldl (fun context msg => context +:+ contextLine msg) "" msgs = "" -> msgs = [].
Proof.
  destruct msgs as [|m msgs]; [reflexivity|]. cbn [foldl].
  rewrite contextLines_from, append_nil. unfold contextLine.
  rewrite append_cons. discriminate.
Qed.

(** X5.  The context built for an agent is empty exactly when the window
    is not positive or the history is empty. *)
Theorem BuildContextForAgent_empty_iff
    (agent : AgentType) (k : Z) (c : Conversation.t) :
  k <= intMax ->
  Z.of_nat (length (Conversation.Messages c)) <= intMax ->
  BuildContextForAgent agent k c = ""
  <-> k <= 0 \/ Conversation.Messages c = [].
Proof.
  intros Hk Hlen. rewrite BuildContextForAgent_lines. split.
  - intros Hempty. apply contextLines_empty in Hempty.
    destruct (Z.leb_spec k 0) as [? | Hpos]; [now left | right].
    pose proof (GetRecentMessages_suffix k c Hk Hlen) as (_ & Hsize & _).
    rewrite Hempty in Hsize. cbn in Hsize.
    destruct (Conversation.Messages c); [reflexivity | cbn in Hsize; lia].
  - intros Hor.
    assert (GetRecentMessages k c = []) as ->; [|reflexivity].
    unfold GetRecentMessages. destruct Hor as [Hle | ->].
    + destruct (Z.leb_spec k 0); [reflexivity | lia].
    + cbn. now rewrite orb_true_r.
Qed.

Lemma BuildContextForAgent_empty_iff_witness :
  BuildContextForAgent AgentDev 10 (Conversation.fresh "conv_room_0" "room" 0 0 300) = ""
  <-> 10 <= 0 \/ Conversation.Messages (Conversation.fresh "conv_room_0" "room" 0 0 300) = [].
Proof.
  apply (BuildContextForAgent_empty_iff AgentDev 10
           (Conversation.fresh "conv_room_0" "room" 0 0 300));
    vm_compute; discriminate.
Defined.

(** X6.  A message appended to a history that, with it, still fits the
    window adds exactly its own line, [[sender]: content], at the end of
    the context. *)
Theorem BuildContextForAgent_grows
    (agent : AgentType) (k : Z) (c : Conversation.t)
    (stamp activity : Time) (msg : ConversationMessage.t) :
  k <= intMax ->
  Z.of_nat (length (Conversation.Messages c)) < k ->
  BuildContextForAgent agent k (Conversation.AddMessage stamp activity msg c)
  = BuildContextForAgent agent k c +:+ contextLine msg.
Proof.
  intros Hk Hfit. rewrite !BuildContextForAgent_lines.
  pose proof (GetRecentMessages_suffix k c Hk ltac:(lia)) as (_ & _ & Hall).
  rewrite (Hall ltac:(lia)).
  assert (Hlen' : Z.of_nat (length (Conversation.Messages
                    (Conversation.AddMessage stamp activity msg c))) <= k).
  { cbn. rewrite length_app. cbn. lia. }
  pose proof (GetRecentMessages_suffix k
                (Conversation.AddMessage stamp activity msg c) Hk ltac:(lia))
    as (_ & _ & Hall').
  rewrite (Hall' Hlen').
  cbn [Conversation.AddMessage Conversation.Messages].
  now rewrite contextLines_snoc.
Qed.

Lemma BuildContextForAgent_grows_witness :
  let c := Conversation.AddMessage 1 2
             (ConversationMessage.mk "human_1" "" [AgentDev] "fix login" 0 true ∅)
             (Conversation.fresh "conv_room_0" "room" 0 0 300) in
  BuildContextForAgent AgentDev 10
    (Conversation.AddMessage 3 4
       (ConversationMessage.mk "resp_3" AgentDev [] "done" 0 false ∅) c)
  = "[Human]: fix login" +:+ newline +:+ "[dev]: done" +:+ newline.
Proof.
  intros c.
  rewrite (BuildContextForAgent_grows AgentDev 10 c 3 4
             (ConversationMessage.mk "resp_3" AgentDev [] "done" 0 false ∅)).
  - reflexivity.
  - vm_compute. discriminate.
  - vm_compute. reflexivity.
Defined.

(** ** The conversation registry *)

(** X7.  [GetOrCreateConversation] leaves an existing conversation, the
    other channels and the mailboxes alone; for a channel without one it
    registers a conversation that is Idle, with nothing pending, an empty
    history, no active agent and the manager's idle timeout; and calling it
    again changes nothing. *)
Theorem GetOrCreateConversation_creates_once (channelID : string) (w : World) :
  exists w',
    GetOrCreateConversation channelID w = Returns (tt, w')
    /\ GetOrCreateConversation channelID w' = Returns (tt, w')
    /\ actorSystem w' = actorSystem w
    /\ (forall other, other <> channelID ->
          conversationsOf w' !! other = conversationsOf w !! other)
    /\ match conversationsOf w !! channelID with
       | Some _ => w' = w
       | None =>
           exists c,
             conversationsOf w' !! channelID = Some c
             /\ Conversation.ChannelID c = channelID
             /\ Conversation.State c = ConvStateIdle
             /\ Conversation.PendingCount c = 0
             /\ Conversation.Messages c = []
             /\ Conversation.ActiveAgents c = ∅
             /\ Conversation.IdleTimeout c
                = ConversationManager.idleTimeout (convManager w)
       end.
Proof.
  unfold GetOrCreateConversation.
  destruct (conversationsOf w !! channelID) as [c|] eqn:Hc.
  - exists w. rewrite Hc. repeat split.
  - do 3 step_now. eexists. split; [reflexivity|].
    change (conversationsOf (setConversations ?cs _)) with cs.
    rewrite lookup_insert_eq. repeat split.
    + intros other Hne. now rewrite lookup_insert_ne by congruence.
    + eexists. split; [reflexivity|]. repeat split.
Qed.

(** X8.  [CloseConversation] removes the channel's conversation and nothing
    else (closing a channel without one changes nothing); a conversation
    created for the channel afterwards starts with an empty history and
    nothing pending. *)
Theorem CloseConversation_forgets (channelID : string) (w : World) :
  exists w',
    CloseConversation channelID w = Returns (tt, w')
    /\ conversationsOf w' = delete channelID (conversationsOf w)
    /\ clock w' = clock w
    /\ actorSystem w' = actorSystem w
    /\ (conversationsOf w !! channelID = None -> w' = w)
    /\ exists w'',
         GetOrCreateConversation channelID w' = Returns (tt, w'')
         /\ historyOf w'' channelID = []
         /\ pendingOf w'' channelID = 0.
Proof.
  assert (Hfresh : forall w', conversationsOf w' !! channelID = None ->
            exists w'',
              GetOrCreateConversation channelID w' = Returns (tt, w'')
              /\ historyOf w'' channelID = [] /\ pendingOf w'' channelID = 0).
  { intros w' Hnone. unfold GetOrCreateConversation. rewrite Hnone.
    do 3 step_now. eexists. split; [reflexivity|].
    unfold historyOf, pendingOf.
    change (conversationsOf (setConversations ?cs _)) with cs.
    rewrite lookup_insert_eq. split; reflexivity. }
  unfold CloseConversation.
  destruct (conversationsOf w !! channelID) as [c|] eqn:Hc.
  - step_now. eexists. split; [reflexivity|].
    change (conversationsOf (setConversations ?cs _)) with cs.
    repeat split.
    + apply map_eq. intros k.
      repeat change (conversationsOf (setConversations ?cs _)) with cs.
      destruct (decide (k = channelID)) as [-> | Hne].
      * now rewrite !lookup_delete_eq.
      * rewrite !lookup_delete_ne by congruence.
        now rewrite lookup_alter_ne by congruence.
    + discriminate.
    + apply Hfresh.
      change (conversationsOf (setConversations ?cs _)) with cs.
      apply lookup_delete_eq.
  - exists w. repeat split.
    + symmetry. now apply delete_id.
    + now apply Hfresh.
Qed.

(** *** The idle reaper *)

Lemma lookup_dropChannels (chs : list string) :
  forall (cs : gmap string Conversation.t) k,
    foldl dropChannel cs chs !! k
    = if bool_decide (k ∈ chs) then None else cs !! k.
Proof.
  induction chs as [|ch chs IH]; intros cs k; cbn [foldl].
  - rewrite bool_decide_eq_false_2 by apply not_elem_of_nil. reflexivity.
  - rewrite IH. unfold dropChannel.
    destruct (decide (k ∈ chs)) as [Hin | Hnin].
    + rewrite !bool_decide_eq_true_2; [reflexivity | now right | exact Hin].
    + rewrite (bool_decide_eq_false_2 (k ∈ chs)) by exact Hnin.
      destruct (decide (k = ch)) as [-> | Hne].
      * rewrite lookup_delete_eq, bool_decide_eq_true_2; [reflexivity | left].
      * rewrite lookup_delete_ne, lookup_alter_ne by congruence.
        rewrite bool_decide_eq_false_2; [reflexivity|].
        intros Hin. apply elem_of_cons in Hin as [? | ?]; contradiction.
Qed.

Lemma elem_of_idleChannels (timeSub : Time -> Time -> Z) (now : Time)
    (cs : gmap string Conversation.t) (k : string) :
  k ∈ idleChannels timeSub now cs
  <-> exists c, cs !! k = Some c /\ isIdleAt timeSub now c = true.
Proof.
  unfold idleChannels. rewrite list_elem_of_omap. split.
  - intros ([k' c] & Hin & Hsome). cbn in Hsome.
    destruct (isIdleAt timeSub now c) eqn:Hidle; [|discriminate].
    injection Hsome as ->. exists c. split; [|exact Hidle].
    now apply elem_of_map_to_list.
  - intros (c & Hc & Hidle). exists (k, c). split.
    + now apply elem_of_map_to_list.
    + cbn. now rewrite Hidle.
Qed.

(** X9.  One round of the reaper removes exactly the conversations that
    have nothing pending and have been inactive for longer than their idle
    timeout at the time the round reads; every other conversation stays as
    it is, so a conversation with work pending is never reaped; the
    mailboxes are not touched. *)
Theorem cleanupIdleConversations_reaps_idle_only
    (timeSub : Time -> Time -> Z) (w : World) :
  exists w',
    cleanupIdleConversations timeSub w = Returns (tt, w')
    /\ actorSystem w' = actorSystem w
    /\ (forall channelID,
          conversationsOf w' !! channelID
          = match conversationsOf w !! channelID with
            | Some c =>
                if (Conversation.PendingCount c =? 0)
                   && (Conversation.IdleTimeout c
                       <? timeSub (nowOf w) (Conversation.LastActivity c))
                then None else Some c
            | None => None
            end)
    /\ (forall channelID c,
          conversationsOf w !! channelID = Some c ->
          Conversation.PendingCount c <> 0 ->
          conversationsOf w' !! channelID = Some c).
Proof.
  unfold cleanupIdleConversations. step_now. eexists. split; [reflexivity|].
  change (conversationsOf (setConversations ?cs _)) with cs.
  change (conversationsOf (tick w)) with (conversationsOf w).
  assert (Hlookup : forall channelID,
            foldl dropChannel (conversationsOf w)
              (idleChannels timeSub (nowOf w) (conversationsOf w)) !! channelID
            = match conversationsOf w !! channelID with
              | Some c => if isIdleAt timeSub (nowOf w) c then None else Some c
              | None => None
              end).
  { intros k. rewrite lookup_dropChannels.
    destruct (conversationsOf w !! k) as [c|] eqn:Hc.
    - destruct (isIdleAt timeSub (nowOf w) c) eqn:Hidle.
      + rewrite bool_decide_eq_true_2; [reflexivity|].
        apply elem_of_idleChannels. eauto.
      + rewrite bool_decide_eq_false_2; [reflexivity|].
        rewrite elem_of_idleChannels. intros (c' & Hc' & Hidle'). congruence.
    - rewrite bool_decide_eq_false_2; [reflexivity|].
      rewrite elem_of_idleChannels. intros (c' & Hc' & _). congruence. }
  repeat split.
  - exact Hlookup.
  - intros k c Hc Hp. rewrite Hlookup, Hc. unfold isIdleAt.
    destruct (Z.eqb_spec (Conversation.PendingCount c) 0); [contradiction | reflexivity].
Qed.

(** ** Mailboxes, continued *)

Lemma traceConsistent_step (st st' : MailboxTrace) (ev : MailboxEvent) :
  traceConsistent st -> mailboxStep st ev = Returns st' ->
  traceConsistent st'
  /\ ActorMailbox.capacity (traceMailbox st') = ActorMailbox.capacity (traceMailbox st).
Proof.
  intros [Hfifo Hbound]. destruct st as [m acc rec]. cbn in Hfifo, Hbound.
  destruct ev as [msg | | ]; cbn [mailboxStep traceMailbox accepted received].
  - unfold ActorMailbox.Send.
    destruct (ActorMailbox.closed m); [discriminate|].
    destruct (ActorMailbox.isFull m) eqn:Hfull; intros [= <-].
    + split; [split|]; cbn; auto.
    + split; [split|]; cbn.
      * now rewrite Hfifo, app_assoc.
      * unfold ActorMailbox.isFull, ActorMailbox.QueueSize in *.
        apply Z.leb_gt in Hfull. cbn. rewrite length_app. cbn. lia.
      * reflexivity.
  - unfold receive. destruct (ActorMailbox.messages m) as [|msg rest] eqn:Hq.
    + destruct (ActorMailbox.closed m); intros [= <-]; (split; [split|]); cbn; auto;
        now rewrite Hfifo, Hq.
    + intros [= <-]. split; [split|]; cbn.
      * now rewrite Hfifo, <- app_assoc.
      * unfold ActorMailbox.QueueSize in *. rewrite Hq in Hbound. cbn in *. lia.
      * reflexivity.
  - unfold ActorMailbox.Stop. cbn.
    destruct (ActorMailbox.closed m); [discriminate|]. intros [= <-].
    split; [split|]; cbn; auto.
Qed.

Lemma traceConsistent_run (evs : list MailboxEvent) : forall st st',
  traceConsistent st -> mailboxRun evs st = Returns st' ->
  traceConsistent st'
  /\ ActorMailbox.capacity (traceMailbox st') = ActorMailbox.capacity (traceMailbox st).
Proof.
  induction evs as [|ev evs IH]; intros st st' Hst Hrun; cbn [mailboxRun] in Hrun.
  - injection Hrun as <-. auto.
  - destruct (mailboxStep st ev) as [st1|reason] eqn:Hstep; [|discriminate].
    destruct (traceConsistent_step _ _ _ Hst Hstep) as [Hst1 Hcap1].
    destruct (IH _ _ Hst1 Hrun) as [Hst' Hcap']. split; [exact Hst'|]. congruence.
Qed.

(** [NewActorMailbox], case by case. *)
Lemma NewActorMailbox_cases (agent : AgentType) (capacity : Z) :
  ActorMailbox.NewActorMailbox agent capacity
  = if effectiveCapacity capacity <=? maxChanCapacity
    then Returns (ActorMailbox.mk agent [] (effectiveCapacity capacity) false false)
    else Panics "makechan: size out of range".
Proof.
  unfold ActorMailbox.NewActorMailbox, ActorMailbox.makechanFits.
  fold (effectiveCapacity capacity).
  assert (Hpos : 0 < effectiveCapacity capacity).
  { unfold effectiveCapacity. destruct (Z.leb_spec capacity 0); lia. }
  unfold ActorMailbox.actorMessageSize, ActorMailbox.maxAlloc, ActorMailbox.hchanSize,
    maxChanCapacity.
  change (2 ^ 48) with 281474976710656.
  destruct (Z.leb_spec 0 (effectiveCapacity capacity)); [|lia].
  destruct (Z.leb_spec (effectiveCapacity capacity) 2199023255551);
    destruct (Z.leb_spec (128 * effectiveCapacity capacity) (281474976710656 - 96));
    try reflexivity; lia.
Qed.

Lemma NewActorMailbox_Returns (agent : AgentType) (capacity : Z) (m : ActorMailbox.t) :
  ActorMailbox.NewActorMailbox agent capacity = Returns m ->
  m = ActorMailbox.mk agent [] (effectiveCapacity capacity) false false
  /\ 0 < effectiveCapacity capacity <= maxChanCapacity.
Proof.
  rewrite NewActorMailbox_cases.
  destruct (Z.leb_spec (effectiveCapacity capacity) maxChanCapacity); [|discriminate].
  intros [= <-]. split; [reflexivity|].
  unfold effectiveCapacity in *. destruct (Z.leb_spec capacity 0); lia.
Qed.

(** The sample world is what registering its three agents gives. *)
Lemma sampleWorld_registered :
  (RegisterAgent AgentQA 1 ;; RegisterAgent AgentDev 100 ;;
   RegisterAgent AgentMaster 100) emptyWorld
  = Returns (tt, sampleWorld).
Proof. vm_compute. reflexivity. Qed.

(** X10.  A mailbox is a bounded FIFO queue: however sends, receives and a
    stop interleave on a new mailbox, the messages the worker has received
    followed by the messages still queued are exactly the messages [Send]
    accepted, in the order it accepted them, and the queue never holds more
    than the capacity. *)
Theorem mailbox_is_bounded_fifo
    (agent : AgentType) (capacity : Z) (m : ActorMailbox.t)
    (evs : list MailboxEvent) (st : MailboxTrace) :
  ActorMailbox.NewActorMailbox agent capacity = Returns m ->
  mailboxRun evs (mkTrace m [] []) = Returns st ->
  accepted st = received st ++ ActorMailbox.messages (traceMailbox st)
  /\ ActorMailbox.QueueSize (traceMailbox st) <= effectiveCapacity capacity
  /\ ActorMailbox.capacity (traceMailbox st) = effectiveCapacity capacity.
Proof.
  intros Hnew Hrun. apply NewActorMailbox_Returns in Hnew as [-> Hcap0].
  assert (Hnew : traceConsistent
                   (mkTrace (ActorMailbox.mk agent [] (effectiveCapacity capacity)
                               false false) [] [])).
  { split; [reflexivity|]. cbn. unfold ActorMailbox.QueueSize. cbn. lia. }
  destruct (traceConsistent_run evs _ _ Hnew Hrun) as [[Hfifo Hbound] Hcap].
  cbn in Hcap. rewrite Hcap in Hbound. auto.
Qed.

Lemma mailbox_is_bounded_fifo_witness :
  let m1 := ActorMessage.mk "msg_1" "" AgentQA "one" "room" "" 1 ∅ in
  let m2 := ActorMessage.mk "msg_2" "" AgentQA "two" "room" "" 2 ∅ in
  let m3 := ActorMessage.mk "msg_3" "" AgentQA "three" "room" "" 3 ∅ in
  let st := mkTrace (ActorMailbox.mk AgentQA [m3] 1 false false) [m1; m3] [m1] in
  accepted st = received st ++ ActorMailbox.messages (traceMailbox st)
  /\ ActorMailbox.QueueSize (traceMailbox st) <= effectiveCapacity 1
  /\ ActorMailbox.capacity (traceMailbox st) = effectiveCapacity 1.
Proof.
  intros m1 m2 m3 st.
  apply (mailbox_is_bounded_fifo AgentQA 1 (ActorMailbox.mk AgentQA [] 1 false false)
           [EvSend m1; EvSend m2; EvReceive; EvSend m3] st).
  - reflexivity.
  - reflexivity.
Defined.

Lemma sends_fill (msgs : list ActorMessage.t) : forall (m : ActorMailbox.t) acc rec,
  ActorMailbox.closed m = false ->
  ActorMailbox.QueueSize m <= ActorMailbox.capacity m ->
  let room := Z.to_nat (ActorMailbox.capacity m - ActorMailbox.QueueSize m) in
  mailboxRun (EvSend <$> msgs) (mkTrace m acc rec)
  = Returns (mkTrace
               (ActorMailbox.mk (ActorMailbox.agent m)
                  (ActorMailbox.messages m ++ take room msgs)
                  (ActorMailbox.capacity m) (ActorMailbox.ctxDone m) false)
               (acc ++ take room msgs) rec).
Proof.
  induction msgs as [|msg msgs IH]; intros m acc rec Hopen Hbound room.
  - cbn. rewrite take_nil, !app_nil_r. destruct m; cbn in *. now subst.
  - cbn [fmap list_fmap mailboxRun mailboxStep traceMailbox accepted received].
    unfold ActorMailbox.Send. rewrite Hopen.
    destruct (ActorMailbox.isFull m) eqn:Hfull.
    + unfold ActorMailbox.isFull in Hfull. apply Z.leb_le in Hfull.
      assert (room = O) as Hroom by (unfold room; lia).
      specialize (IH m acc rec Hopen Hbound). cbv zeta in IH.
      change (list_fmap _ _ EvSend msgs) with (EvSend <$> msgs).
      rewrite IH. fold room. rewrite Hroom. reflexivity.
    + unfold ActorMailbox.isFull in Hfull. apply Z.leb_gt in Hfull.
      set (m' := ActorMailbox.mk _ _ _ _ _).
      assert (Hsize : ActorMailbox.QueueSize m' = ActorMailbox.QueueSize m + 1).
      { unfold ActorMailbox.QueueSize, m'. cbn. rewrite length_app. cbn. lia. }
      specialize (IH m' (acc ++ [msg]) rec eq_refl ltac:(rewrite Hsize; cbn; lia)).
      cbv zeta in IH.
      change (list_fmap _ _ EvSend msgs) with (EvSend <$> msgs).
      rewrite IH. rewrite Hsize. cbn [m' ActorMailbox.capacity ActorMailbox.agent
        ActorMailbox.messages ActorMailbox.ctxDone].
      destruct room as [|room'] eqn:Hroom; [unfold room in Hroom; lia|].
      replace (Z.to_nat (ActorMailbox.capacity m - (ActorMailbox.QueueSize m + 1)))
        with room' by (unfold room in Hroom; lia).
      cbn [take]. now rewrite <- !app_assoc.
Qed.

(** X11.  A new mailbox that nobody drains accepts the first [capacity]
    messages sent to it (100 when the capacity asked for is not positive)
    and reports every later one as rejected, leaving the accepted ones
    queued in the order sent.  This holds whenever [NewActorMailbox]
    returns a mailbox; it does not when the capacity is above the largest
    one [make] accepts, 2^41 - 1: it panics then. *)
Theorem new_mailbox_takes_capacity
    (agent : AgentType) (capacity : Z) (msgs : list ActorMessage.t) :
  (forall m,
     ActorMailbox.NewActorMailbox agent capacity = Returns m ->
     exists st,
       mailboxRun (EvSend <$> msgs) (mkTrace m [] []) = Returns st
       /\ accepted st = take (Z.to_nat (effectiveCapacity capacity)) msgs
       /\ ActorMailbox.messages (traceMailbox st)
          = take (Z.to_nat (effectiveCapacity capacity)) msgs
       /\ received st = [])
  /\ (maxChanCapacity < effectiveCapacity capacity ->
      ActorMailbox.NewActorMailbox agent capacity
      = Panics "makechan: size out of range").
Proof.
  split.
  - intros m Hnew. apply NewActorMailbox_Returns in Hnew as [-> [Hpos Hcap]].
    eexists. split.
    + apply sends_fill; [reflexivity|].
      unfold ActorMailbox.QueueSize. cbn. lia.
    + cbn. unfold ActorMailbox.QueueSize. cbn. rewrite Z.sub_0_r. repeat split.
  - intros Hcap. rewrite NewActorMailbox_cases.
    destruct (Z.leb_spec (effectiveCapacity capacity) maxChanCapacity);
      [lia | reflexivity].
Qed.

Lemma new_mailbox_takes_capacity_witness :
  let m1 := ActorMessage.mk "msg_1" "" AgentQA "one" "room" "" 1 ∅ in
  let m2 := ActorMessage.mk "msg_2" "" AgentQA "two" "room" "" 2 ∅ in
  let m3 := ActorMessage.mk "msg_3" "" AgentQA "three" "room" "" 3 ∅ in
  (exists m st,
     ActorMailbox.NewActorMailbox AgentQA 2 = Returns m
     /\ mailboxRun (EvSend <$> [m1; m2; m3]) (mkTrace m [] []) = Returns st
     /\ accepted st = [m1; m2]
     /\ ActorMailbox.messages (traceMailbox st) = [m1; m2])
  /\ ActorMailbox.NewActorMailbox AgentQA (2 ^ 41) = Panics "makechan: size out of range".
Proof.
  intros m1 m2 m3. split.
  - destruct (new_mailbox_takes_capacity AgentQA 2 [m1; m2; m3]) as [Hfits _].
    destruct (Hfits (ActorMailbox.mk AgentQA [] 2 false false) eq_refl)
      as (st & Hrun & Hacc & Hqueue & _).
    eexists _, st. split; [reflexivity|]. split; [exact Hrun|].
    split; [exact Hacc | exact Hqueue].
  - destruct (new_mailbox_takes_capacity AgentQA (2 ^ 41) []) as [_ Hpanics].
    apply Hpanics. vm_compute. reflexivity.
Defined.

(** ** The actor system, continued *)

(** [Route], case by case. *)
Lemma Route_cases (msg : ActorMessage.t) (w : World) :
  match mailboxesOf w !! ActorMessage.To msg with
  | None => Route msg w = Returns (Some (ErrNotRegistered (ActorMessage.To msg)), w)
  | Some m =>
      if ActorMailbox.closed m then Route msg w = Panics "send on closed channel"
      else if ActorMailbox.isFull m
           then Route msg w = Returns (Some (ErrMailboxFull (ActorMailbox.agent m)), w)
           else Route msg w
                = Returns (None,
                    setMailboxes
                      (<[ActorMessage.To msg :=
                           ActorMailbox.mk (ActorMailbox.agent m)
                             (ActorMailbox.messages m ++ [msg])
                             (ActorMailbox.capacity m) (ActorMailbox.ctxDone m) false]>
                         (mailboxesOf w)) w)
  end.
Proof.
  unfold Route. destruct (mailboxesOf w !! ActorMessage.To msg) as [m|] eqn:Hm;
    [|reflexivity].
  unfold ActorMailbox.Send. destruct (ActorMailbox.closed m) eqn:Hc; [reflexivity|].
  destruct (ActorMailbox.isFull m); [|reflexivity].
  f_equal. f_equal. unfold setMailboxes. rewrite insert_id by exact Hm.
  unfold mailboxesOf. now destruct w as [? [?] ?].
Qed.

(** X12.  [Route] touches the addressee's mailbox only: when it returns,
    the clock, the conversations and every other mailbox are as before; on
    success the message is the newest entry of the addressee's queue; on an
    error, which happens exactly when the addressee would not take a
    message, the whole state is as before. *)
Theorem Route_delivers_to_addressee_only
    (msg : ActorMessage.t) (w w' : World) (err : option GoError) :
  Route msg w = Returns (err, w') ->
  clock w' = clock w
  /\ convManager w' = convManager w
  /\ (forall agent, agent <> ActorMessage.To msg ->
        mailboxesOf w' !! agent = mailboxesOf w !! agent)
  /\ match err with
     | None =>
         accepts w (ActorMessage.To msg) = true
         /\ queueOf w' (ActorMessage.To msg)
            = queueOf w (ActorMessage.To msg) ++ [msg]
     | Some e =>
         accepts w (ActorMessage.To msg) = false
         /\ w' = w
         /\ (mailboxesOf w !! ActorMessage.To msg = None ->
             e = ErrNotRegistered (ActorMessage.To msg))
     end.
Proof.
  pose proof (Route_cases msg w) as Hcases. unfold accepts, queueOf.
  destruct (mailboxesOf w !! ActorMessage.To msg) as [m|] eqn:Hm.
  - destruct (ActorMailbox.closed m); [congruence|].
    destruct (ActorMailbox.isFull m) eqn:Hfull; rewrite Hcases; intros [= <- <-].
    + repeat split. discriminate.
    + repeat split.
      * intros agent Hne. cbn. now rewrite lookup_insert_ne by congruence.
      * cbn. now rewrite lookup_insert_eq.
  - rewrite Hcases. intros [= <- <-]. repeat split.
Qed.

Lemma Route_delivers_to_addressee_only_witness :
  let msg := ActorMessage.mk "msg_1" "" AgentQA "run tests" "room" "" 1 ∅ in
  exists w',
    Route msg sampleWorld = Returns (None, w')
    /\ queueOf w' AgentQA = [msg]
    /\ mailboxesOf w' !! AgentDev = mailboxesOf sampleWorld !! AgentDev.
Proof.
  intros msg.
  destruct (Route msg sampleWorld) as [[err w']|reason] eqn:E;
    [|vm_compute in E; discriminate E].
  assert (err = None) as -> by (vm_compute in E; now injection E as <- _).
  exists w'. split; [reflexivity|].
  destruct (Route_delivers_to_addressee_only msg sampleWorld w' None E)
    as (_ & _ & Hothers & _ & Hqueue).
  split; [exact Hqueue | apply Hothers; discriminate].
Defined.

(** X13.  Registering an agent gives it a new, empty, open mailbox
    whatever it had before: whenever [RegisterAgent] returns, a message
    routed to the agent right after is accepted and is the only message
    queued for it, and the other mailboxes and the conversations are not
    touched.  [RegisterAgent] does not return when the capacity of the
    mailbox (100 when the one asked for is not positive) is above the
    largest one [make] accepts, 2^41 - 1: it panics while making the
    mailbox, before it writes the registry. *)
Theorem RegisterAgent_then_Route
    (agent : AgentType) (capacity : Z) (msg : ActorMessage.t) (w : World) :
  (forall w1,
     RegisterAgent agent capacity w = Returns (tt, w1) ->
     exists w',
       (RegisterAgent agent capacity ;; Route (ActorMessage_withTo agent msg)) w
         = Returns (None, w')
       /\ queueOf w' agent = [ActorMessage_withTo agent msg]
       /\ (forall other, other <> agent ->
             mailboxesOf w' !! other = mailboxesOf w !! other)
       /\ convManager w' = convManager w)
  /\ (maxChanCapacity < effectiveCapacity capacity ->
      RegisterAgent agent capacity w = Panics "makechan: size out of range").
Proof.
  unfold RegisterAgent, bind. split.
  - intros w1.
    destruct (ActorMailbox.NewActorMailbox agent capacity) as [mailbox|reason] eqn:Hnew;
      [|discriminate].
    apply NewActorMailbox_Returns in Hnew as [Hmailbox [Hpos Hcap]]. intros _.
    set (w2 := setMailboxes _ w).
    assert (Hlook : mailboxesOf w2 !! agent = Some mailbox).
    { unfold w2. cbn. apply lookup_insert_eq. }
    pose proof (Route_cases (ActorMessage_withTo agent msg) w2) as Hcases.
    change (ActorMessage.To (ActorMessage_withTo agent msg)) with agent in Hcases.
    rewrite Hlook in Hcases.
    assert (Hopen : ActorMailbox.closed mailbox = false) by now rewrite Hmailbox.
    assert (Hroom : ActorMailbox.isFull mailbox = false).
    { rewrite Hmailbox. unfold ActorMailbox.isFull, ActorMailbox.QueueSize. cbn.
      apply Z.leb_gt. lia. }
    rewrite Hopen, Hroom in Hcases. rewrite Hcases.
    eexists. split; [reflexivity|]. unfold queueOf. cbn. repeat split.
    + rewrite lookup_insert_eq. cbn. now rewrite Hmailbox.
    + intros other Hne. now rewrite !lookup_insert_ne by congruence.
  - intros Hcap. rewrite NewActorMailbox_cases.
    destruct (Z.leb_spec (effectiveCapacity capacity) maxChanCapacity);
      [lia | reflexivity].
Qed.

Lemma RegisterAgent_then_Route_witness :
  let msg := ActorMessage.mk "msg_1" AgentMaster "" "welcome" "room" "" 1 ∅ in
  (exists w',
     (RegisterAgent AgentQA 5 ;; Route (ActorMessage_withTo AgentQA msg)) sampleWorld
       = Returns (None, w')
     /\ queueOf w' AgentQA = [ActorMessage_withTo AgentQA msg])
  /\ RegisterAgent AgentQA (2 ^ 41) sampleWorld = Panics "makechan: size out of range".
Proof.
  intros msg. split.
  - destruct (RegisterAgent_then_Route AgentQA 5 msg sampleWorld) as [Hfits _].
    destruct (RegisterAgent AgentQA 5 sampleWorld) as [[[] w1]|reason] eqn:Hreg;
      [|vm_compute in Hreg; discriminate Hreg].
    destruct (Hfits w1 eq_refl) as (w' & Hrun & Hq & _).
    exists w'. split; [exact Hrun | exact Hq].
  - destruct (RegisterAgent_then_Route AgentQA (2 ^ 41) msg sampleWorld) as [_ Hpanics].
    apply Hpanics. vm_compute. reflexivity.
Defined.

Lemma accepts_false_iff (w : World) (agent : AgentType) :
  accepts w agent = false
  <-> mailboxesOf w !! agent = None \/ mailboxFull w agent.
Proof.
  unfold accepts, mailboxFull. destruct (mailboxesOf w !! agent) as [m|].
  - destruct (ActorMailbox.isFull m) eqn:Hfull; cbn; split.
    + intros _. right. eauto.
    + reflexivity.
    + discriminate.
    + intros [[=] | (m' & [= <-] & Hf)]. congruence.
  - split; [now left | reflexivity].
Qed.

Lemma filter_ext_in {A} (P1 P2 : A -> Prop)
    `{!forall x, Decision (P1 x), !forall x, Decision (P2 x)} (l : list A) :
  (forall x, x ∈ l -> P1 x <-> P2 x) -> filter P1 l = filter P2 l.
Proof.
  induction l as [|a l IH]; intros Hiff; [reflexivity|].
  rewrite !filter_cons, IH by (intros x Hx; apply Hiff; now right).
  destruct (decide (P1 a)) as [H1 | H1], (decide (P2 a)) as [H2 | H2];
    try reflexivity; exfalso; apply (Hiff a ltac:(left)) in H1 || apply (Hiff a ltac:(left)) in H2;
    contradiction.
Qed.

(** The loop of [Broadcast] over agents that are pairwise distinct and not
    stopped. *)
Lemma broadcastEach_spec (msg : ActorMessage.t) (agents : list AgentType) :
  forall (errors : list GoError) (w : World),
    NoDup agents ->
    (forall a, a ∈ agents -> ~ mailboxStopped w a) ->
    exists errs w',
      broadcastEach agents msg errors w = Returns (errors ++ errs, w')
      /\ clock w' = clock w
      /\ convManager w' = convManager w
      /\ length errs = length (filter (fun a => accepts w a = false) agents)
      /\ (forall a,
            queueOf w' a
            = queueOf w a
                ++ (if bool_decide (a ∈ agents) && accepts w a
                    then [ActorMessage_withTo a msg] else []))
      /\ (forall a, a ∉ agents -> mailboxesOf w' !! a = mailboxesOf w !! a).
Proof.
  induction agents as [|agent agents IH]; intros errors w Hnodup Hlive.
  - exists [], w. cbn [broadcastEach]. rewrite app_nil_r. repeat split.
    intros a. rewrite bool_decide_eq_false_2 by apply not_elem_of_nil.
    cbn. now rewrite app_nil_r.
  - apply NoDup_cons in Hnodup as [Hfresh Hnodup].
    cbn [broadcastEach].
    pose proof (Route_cases (ActorMessage_withTo agent msg) w) as Hcases.
    change (ActorMessage.To (ActorMessage_withTo agent msg)) with agent in Hcases.
    assert (Hagent : ~ mailboxStopped w agent) by (apply Hlive; left).
    (* the world after the first turn agrees with [w] on the other agents *)
    assert (Hrest : forall w1,
              clock w1 = clock w -> convManager w1 = convManager w ->
              (forall a, a <> agent -> mailboxesOf w1 !! a = mailboxesOf w !! a) ->
              forall errors1,
              exists errs w',
                broadcastEach agents msg errors1 w1 = Returns (errors1 ++ errs, w')
                /\ clock w' = clock w
                /\ convManager w' = convManager w
                /\ length errs = length (filter (fun a => accepts w a = false) agents)
                /\ (forall a, a <> agent ->
                      queueOf w' a
                      = queueOf w a
                          ++ (if bool_decide (a ∈ agents) && accepts w a
                              then [ActorMessage_withTo a msg] else []))
                /\ mailboxesOf w' !! agent = mailboxesOf w1 !! agent
                /\ (forall a, a ∉ agents -> a <> agent ->
                      mailboxesOf w' !! a = mailboxesOf w !! a)).
    { intros w1 Hclock Hcm Hsame errors1.
      destruct (IH errors1 w1 Hnodup) as (errs & w' & Hrun & Hc & Hm & Hlen & Hq & Hout).
      { intros a Ha (m & Hm & Hclosed). apply (Hlive a); [now right|].
        exists m. split; [|exact Hclosed]. rewrite <- Hsame; [exact Hm|].
        intros ->. contradiction. }
      exists errs, w'. split; [exact Hrun|]. repeat split; try congruence.
      - rewrite Hlen. f_equal. apply filter_ext_in.
        intros a Ha. unfold accepts.
        rewrite Hsame; [reflexivity|]. intros ->. contradiction.
      - intros a Hne. rewrite Hq. unfold queueOf, accepts. now rewrite Hsame.
      - now apply Hout.
      - intros a Ha Hne. rewrite Hout by exact Ha. now apply Hsame. }
    destruct (mailboxesOf w !! agent) as [m|] eqn:Hm.
    + destruct (ActorMailbox.closed m) eqn:Hclosed;
        [exfalso; apply Hagent; exists m; auto|].
      destruct (ActorMailbox.isFull m) eqn:Hfull.
      * step Hcases. cbv beta iota.
        destruct (Hrest w eq_refl eq_refl (fun _ _ => eq_refl) (errors ++
                    [ErrMailboxFull (ActorMailbox.agent m)]))
          as (errs & w' & Hrun & Hc & Hcm & Hlen & Hq & Hself & Hout).
        exists (ErrMailboxFull (ActorMailbox.agent m) :: errs), w'.
        split; [now rewrite Hrun, <- app_assoc|].
        repeat split; try assumption.
        -- rewrite filter_cons_True by (unfold accepts; now rewrite Hm, Hfull).
           cbn. now rewrite Hlen.
        -- intros a. destruct (decide (a = agent)) as [-> | Hne].
           ++ unfold queueOf at 1 2, accepts. rewrite Hself, Hm, Hfull. cbn.
              rewrite andb_false_r. now rewrite app_nil_r.
           ++ rewrite (Hq a Hne). do 2 f_equal.
              destruct (decide (a ∈ agents)) as [Hin | Hnin].
              ** rewrite !bool_decide_eq_true_2; [reflexivity | now right | exact Hin].
              ** rewrite !bool_decide_eq_false_2; [reflexivity | | exact Hnin].
                 intros Hin. apply elem_of_cons in Hin as [? | ?]; contradiction.
        -- intros a Ha. apply not_elem_of_cons in Ha as [Hne Hnin].
           now apply Hout.
      * step Hcases. cbv beta iota.
        match goal with |- context [broadcastEach agents msg errors ?w1] =>
          destruct (Hrest w1 eq_refl eq_refl) with (errors1 := errors)
            as (errs & w' & Hrun & Hc & Hcm & Hlen & Hq & Hself & Hout)
        end.
        { intros a Hne. cbn. now rewrite lookup_insert_ne by congruence. }
        exists errs, w'. split; [exact Hrun|].
        repeat split; try assumption.
        -- rewrite filter_cons_False; [exact Hlen|].
           unfold accepts. rewrite Hm, Hfull. discriminate.
        -- intros a. destruct (decide (a = agent)) as [-> | Hne].
           ++ unfold queueOf at 1 2, accepts. rewrite Hself, Hm, Hfull. cbn.
              rewrite lookup_insert_eq. cbn.
              rewrite bool_decide_eq_true_2 by left. reflexivity.
           ++ rewrite (Hq a Hne). do 2 f_equal.
              destruct (decide (a ∈ agents)) as [Hin | Hnin].
              ** rewrite !bool_decide_eq_true_2; [reflexivity | now right | exact Hin].
              ** rewrite !bool_decide_eq_false_2; [reflexivity | | exact Hnin].
                 intros Hin. apply elem_of_cons in Hin as [? | ?]; contradiction.
        -- intros a Ha. apply not_elem_of_cons in Ha as [Hne Hnin].
           now apply Hout.
    + step Hcases. cbv beta iota.
      destruct (Hrest w eq_refl eq_refl (fun _ _ => eq_refl)
                  (errors ++ [ErrNotRegistered agent]))
        as (errs & w' & Hrun & Hc & Hcm & Hlen & Hq & Hself & Hout).
      exists (ErrNotRegistered agent :: errs), w'.
      split; [now rewrite Hrun, <- app_assoc|].
      repeat split; try assumption.
      * rewrite filter_cons_True by (unfold accepts; now rewrite Hm).
        cbn. now rewrite Hlen.
      * intros a. destruct (decide (a = agent)) as [-> | Hne].
        -- unfold queueOf at 1 2, accepts. rewrite Hself, Hm. cbn.
           now rewrite andb_false_r.
        -- rewrite (Hq a Hne). do 2 f_equal.
           destruct (decide (a ∈ agents)) as [Hin | Hnin].
           ++ rewrite !bool_decide_eq_true_2; [reflexivity | now right | exact Hin].
           ++ rewrite !bool_decide_eq_false_2; [reflexivity | | exact Hnin].
              intros Hin. apply elem_of_cons in Hin as [? | ?]; contradiction.
      * intros a Ha. apply not_elem_of_cons in Ha as [Hne Hnin].
        now apply Hout.
Qed.

(** X14.  [Broadcast] to pairwise distinct agents, none of them stopped,
    queues one copy of the message, addressed to that agent, for every
    agent that would take a message, and returns one error for every agent
    that would not (unregistered, or mailbox full); the mailboxes of the
    agents not named, the clock and the conversations are as before. *)
Theorem Broadcast_one_copy_each
    (msg : ActorMessage.t) (agents : list AgentType) (w : World) :
  NoDup agents ->
  (forall a, a ∈ agents -> ~ mailboxStopped w a) ->
  exists errs w',
    Broadcast msg agents w = Returns (errs, w')
    /\ clock w' = clock w
    /\ convManager w' = convManager w
    /\ length errs = length (filter (fun a => accepts w a = false) agents)
    /\ (forall a,
          queueOf w' a
          = queueOf w a
              ++ (if bool_decide (a ∈ agents) && accepts w a
                  then [ActorMessage_withTo a msg] else []))
    /\ (forall a, a ∉ agents -> mailboxesOf w' !! a = mailboxesOf w !! a).
Proof.
  intros Hnodup Hlive. unfold Broadcast.
  destruct (broadcastEach_spec msg agents [] w Hnodup Hlive)
    as (errs & w' & Hrun & Hrest).
  exists errs, w'. split; [exact Hrun | exact Hrest].
Qed.

Lemma Broadcast_one_copy_each_witness :
  let msg := ActorMessage.mk "msg_1" AgentMaster "" "stand-up" "room" "" 1 ∅ in
  exists errs w',
    Broadcast msg [AgentDev; "zzz"; AgentQA] sampleWorld = Returns (errs, w')
    /\ length errs = 1%nat
    /\ queueOf w' AgentDev = [ActorMessage_withTo AgentDev msg]
    /\ queueOf w' AgentQA = [ActorMessage_withTo AgentQA msg]
    /\ queueOf w' AgentMaster = [].
Proof.
  intros msg.
  destruct (Broadcast_one_copy_each msg [AgentDev; "zzz"; AgentQA] sampleWorld)
    as (errs & w' & Hrun & _ & _ & Hlen & Hq & _).
  - apply (bool_decide_unpack _). vm_compute. reflexivity.
  - intros a Ha (m & Hm & Hclosed).
    repeat (apply elem_of_cons in Ha as [-> | Ha]);
      [vm_compute in Hm; injection Hm as <-; discriminate Hclosed
      |vm_compute in Hm; discriminate Hm
      |vm_compute in Hm; injection Hm as <-; discriminate Hclosed
      |inversion Ha].
  - exists errs, w'. split; [exact Hrun|]. split; [exact Hlen|].
    rewrite (Hq AgentDev), (Hq AgentQA), (Hq AgentMaster). repeat split.
Defined.

Lemma stopEach_open (agents : list AgentType) :
  forall mbs : gmap AgentType ActorMailbox.t,
    NoDup agents ->
    (forall a m, a ∈ agents -> mbs !! a = Some m -> ActorMailbox.closed m = false) ->
    exists mbs',
      stopEach mbs agents = Returns mbs'
      /\ forall a,
           mbs' !! a = if bool_decide (a ∈ agents) then stopped <$> mbs !! a
                       else mbs !! a.
Proof.
  unfold stopEach.
  induction agents as [|agent agents IH]; intros mbs Hnodup Hopen.
  - exists mbs. split; [reflexivity|]. intros a.
    now rewrite bool_decide_eq_false_2 by apply not_elem_of_nil.
  - apply NoDup_cons in Hnodup as [Hfresh Hnodup]. cbn [foldl].
    assert (Hstep : exists mbs1,
              stopStep (Returns mbs) agent = Returns mbs1
              /\ mbs1 !! agent = stopped <$> mbs !! agent
              /\ forall a, a <> agent -> mbs1 !! a = mbs !! a).
    { unfold stopStep. destruct (mbs !! agent) as [m|] eqn:Hm.
      - unfold ActorMailbox.Stop. cbn [ActorMailbox.closed].
        rewrite (Hopen agent m ltac:(left) Hm).
        eexists. split; [reflexivity|]. split.
        + now rewrite lookup_insert_eq.
        + intros a Hne. now rewrite lookup_insert_ne by congruence.
      - exists mbs. rewrite Hm. repeat split. }
    destruct Hstep as (mbs1 & -> & Hself & Hothers).
    destruct (IH mbs1 Hnodup) as (mbs' & Hrun & Hlook).
    { intros a m Ha Hm. apply (Hopen a m); [now right|].
      rewrite <- Hothers; [exact Hm|]. intros ->. contradiction. }
    exists mbs'. split; [exact Hrun|]. intros a. rewrite Hlook.
    destruct (decide (a = agent)) as [-> | Hne].
    + rewrite (bool_decide_eq_false_2 _ Hfresh), bool_decide_eq_true_2 by left.
      exact Hself.
    + rewrite Hothers by exact Hne.
      destruct (decide (a ∈ agents)) as [Hin | Hnin].
      * rewrite !bool_decide_eq_true_2; [reflexivity | now right | exact Hin].
      * rewrite !bool_decide_eq_false_2; [reflexivity | | exact Hnin].
        intros Hin. apply elem_of_cons in Hin as [? | ?]; contradiction.
Qed.

(** X15.  The first [StopAll] on a system none of whose mailboxes has been
    stopped returns; it cancels and closes every mailbox and keeps what
    each one has queued; the clock and the conversations are as before. *)
Theorem StopAll_stops_every_mailbox (w : World) :
  (forall a m, mailboxesOf w !! a = Some m -> ActorMailbox.closed m = false) ->
  exists w',
    StopAll w = Returns (tt, w')
    /\ clock w' = clock w
    /\ convManager w' = convManager w
    /\ forall a, mailboxesOf w' !! a = stopped <$> mailboxesOf w !! a.
Proof.
  intros Hopen. unfold StopAll.
  destruct (stopEach_open (map_to_list (mailboxesOf w)).*1 (mailboxesOf w))
    as (mbs' & -> & Hlook).
  - apply NoDup_fst_map_to_list.
  - intros a m _. apply Hopen.
  - eexists. split; [reflexivity|]. repeat split.
    intros a. cbn. rewrite Hlook.
    destruct (mailboxesOf w !! a) as [m|] eqn:Hm.
    + rewrite bool_decide_eq_true_2; [reflexivity|].
      apply list_elem_of_fmap. exists (a, m). split; [reflexivity|].
      now apply elem_of_map_to_list.
    + now destruct (bool_decide _).
Qed.

Lemma StopAll_stops_every_mailbox_witness :
  exists w',
    StopAll sampleWorld = Returns (tt, w')
    /\ mailboxesOf w' !! AgentQA = Some (ActorMailbox.mk AgentQA [] 1 true true).
Proof.
  destruct (StopAll_stops_every_mailbox sampleWorld) as (w' & Hrun & _ & _ & Hlook).
  - intros a m Hm.
    destruct (decide (a = AgentMaster)) as [-> | ?];
      [vm_compute in Hm; now injection Hm as <-|].
    destruct (decide (a = AgentDev)) as [-> | ?];
      [vm_compute in Hm; now injection Hm as <-|].
    destruct (decide (a = AgentQA)) as [-> | ?];
      [vm_compute in Hm; now injection Hm as <-|].
    unfold sampleWorld in Hm. cbn in Hm.
    rewrite !lookup_insert_ne, lookup_empty in Hm by congruence. discriminate.
  - exists w'. split; [exact Hrun|]. rewrite Hlook. reflexivity.
Defined.

(** ** Routing between agents, in full *)

Lemma accepts_same_mailboxes (w w' : World) (agent : AgentType) :
  mailboxesOf w' !! agent = mailboxesOf w !! agent ->
  accepts w' agent = accepts w agent.
Proof. unfold accepts. now intros ->. Qed.

Lemma mailboxStopped_same_mailboxes (w w' : World) (agent : AgentType) :
  mailboxesOf w' !! agent = mailboxesOf w !! agent ->
  mailboxStopped w' agent <-> mailboxStopped w agent.
Proof. unfold mailboxStopped. now intros ->. Qed.

(** What one [RouteToAgent] does to the mailboxes and to the
    conversations, whether the message is taken or not. *)
Lemma RouteToAgent_run (w : World) (from to : AgentType) (content channelID : string) :
  ~ mailboxStopped w to ->
  exists err w' msg m,
    RouteToAgent from to content channelID w = Returns (err, w')
    /\ (err = None <-> accepts w to = true)
    /\ (ActorMessage.From msg = from /\ ActorMessage.To msg = to
        /\ ActorMessage.Content msg = content
        /\ ActorMessage.ChannelID msg = channelID)
    /\ (ConversationMessage.From m = from /\ ConversationMessage.To m = [to]
        /\ ConversationMessage.Content m = content
        /\ ConversationMessage.IsFromHuman m = false)
    /\ Clock.wall (clock w') = Clock.wall (clock w)
    /\ (forall a, a <> to -> mailboxesOf w' !! a = mailboxesOf w !! a)
    /\ (forall a, mailboxStopped w' a <-> mailboxStopped w a)
    /\ (forall a,
          queueOf w' a
          = queueOf w a ++ (if bool_decide (a = to) && accepts w to then [msg] else []))
    /\ (forall ch, ch <> channelID ->
          conversationsOf w' !! ch = conversationsOf w !! ch)
    /\ is_Some (conversationsOf w' !! channelID)
    /\ historyOf w' channelID
       = historyOf w channelID ++ (if accepts w to then [m] else [])
    /\ (0 <= pendingOf w channelID < intMax ->
        pendingOf w' channelID
        = pendingOf w channelID + (if accepts w to then 1 else 0)).
Proof.
  intros Hlive. unfold RouteToAgent.
  do 2 step_now.
  destruct (GetOrCreateConversation_spec channelID (tick (tick w)))
    as (w1 & c & E1 & Hsys1 & Hwall1 & Hcs1 & Hp & Hh & _).
  change (pendingOf (tick (tick w)) channelID) with (pendingOf w channelID) in Hp.
  change (historyOf (tick (tick w)) channelID) with (historyOf w channelID) in Hh.
  change (conversationsOf (tick (tick w))) with (conversationsOf w) in Hcs1.
  change (actorSystem (tick (tick w))) with (actorSystem w) in Hsys1.
  change (Clock.wall (clock (tick (tick w)))) with (Clock.wall (clock w)) in Hwall1.
  step E1. step_now.
  set (msg := ActorMessage.mk _ from to content channelID "" _ ∅).
  set (w2 := setConversations _ w1).
  assert (Hmb2 : mailboxesOf w2 = mailboxesOf w).
  { unfold mailboxesOf, w2. cbn. now rewrite Hsys1. }
  assert (Hcs2 : conversationsOf w2
                 = alter Conversation.IncrementPending channelID
                     (<[channelID := c]> (conversationsOf w))).
  { unfold w2. cbn. now rewrite Hcs1. }
  assert (Hwall2 : Clock.wall (clock w2) = Clock.wall (clock w)) by exact Hwall1.
  pose proof (Route_cases msg w2) as Hcases.
  change (ActorMessage.To msg) with to in Hcases.
  rewrite Hmb2 in Hcases.
  unfold accepts, mailboxStopped, queueOf.
  destruct (mailboxesOf w !! to) as [mb|] eqn:Hmb.
  - destruct (ActorMailbox.closed mb) eqn:Hclosed;
      [exfalso; apply Hlive; exists mb; split; [exact Hmb | exact Hclosed]|].
    destruct (ActorMailbox.isFull mb) eqn:Hfull; cbn [negb].
    + (* the mailbox is full *)
      step Hcases. cbv beta iota. step_now.
      eexists (Some (ErrMailboxFull (ActorMailbox.agent mb))), _, msg,
        (ConversationMessage.mk (ActorMessage.ID msg) from [to] content 0 false ∅).
      split; [reflexivity|].
      change (conversationsOf (setConversations ?cs _)) with cs.
      change (mailboxesOf (setConversations _ w2)) with (mailboxesOf w2).
      rewrite Hmb2, Hcs2.
      split; [split; discriminate|].
      split; [repeat split|]. split; [repeat split|].
      split; [exact Hwall2|].
      split; [reflexivity|]. split; [reflexivity|].
      split; [intros a; rewrite andb_false_r; symmetry; apply app_nil_r|].
      split; [intros ch Hne; now rewrite !lookup_alter_ne, lookup_insert_ne by congruence|].
      split; [rewrite !lookup_alter_eq, lookup_insert_eq; eexists; reflexivity|].
      unfold historyOf, pendingOf.
      change (conversationsOf (setConversations ?cs _)) with cs.
      rewrite !from_option_alter, lookup_insert_eq. cbn [from_option].
      fold (pendingOf w channelID). fold (historyOf w channelID).
      rewrite <- Hp, <- Hh. split.
      * rewrite app_nil_r.
        now destruct (other_fields_DecrementPending
                        (Conversation.IncrementPending c)) as [-> _].
      * intros Hrange. rewrite Z.add_0_r.
        assert (Hinc : Conversation.PendingCount (Conversation.IncrementPending c)
                       = Conversation.PendingCount c + 1)
          by (apply PendingCount_IncrementPending; lia).
        destruct (DecrementPending_cases (Conversation.IncrementPending c))
          as [(Hz & _) | [(H1 & Hd & _) | (H1 & Hd & _)]];
          rewrite ?Hinc in *; unfold intMax in *; lia.
    + (* the message is queued *)
      step Hcases. cbv beta iota. step_now.
      eexists None, _, msg,
        (ConversationMessage.withTimestamp
           (nowOf (setMailboxes
              (<[to := ActorMailbox.mk (ActorMailbox.agent mb)
                         (ActorMailbox.messages mb ++ [msg])
                         (ActorMailbox.capacity mb) (ActorMailbox.ctxDone mb) false]>
                 (mailboxesOf w)) w2))
           (ConversationMessage.mk (ActorMessage.ID msg) from [to] content 0 false ∅)).
      split; [reflexivity|].
      split; [split; reflexivity|].
      split; [repeat split|]. split; [repeat split|].
      split; [exact Hwall2|].
      unfold Conversation_AddMessage, bind, timeNow, onConversation. cbn.
      split; [intros a Hne; now rewrite lookup_insert_ne by congruence|].
      split.
      { intros a. destruct (decide (a = to)) as [-> | Hne].
        - rewrite lookup_insert_eq, Hmb. split.
          + intros (m' & [= <-] & Hc). discriminate Hc.
          + intros (m' & [= <-] & Hc). congruence.
        - now rewrite lookup_insert_ne by congruence. }
      split.
      { intros a. destruct (decide (a = to)) as [-> | Hne].
        - rewrite lookup_insert_eq, Hmb, bool_decide_eq_true_2 by reflexivity.
          reflexivity.
        - rewrite lookup_insert_ne by congruence.
          rewrite bool_decide_eq_false_2 by exact Hne. cbn.
          symmetry. apply app_nil_r. }
      rewrite Hcs1.
      split; [intros ch Hne; now rewrite !lookup_alter_ne, lookup_insert_ne by congruence|].
      split; [rewrite !lookup_alter_eq, lookup_insert_eq; eexists; reflexivity|].
      unfold historyOf, pendingOf.
      change (conversationsOf (setConversations ?cs _)) with cs.
      rewrite !from_option_alter, lookup_insert_eq. cbn [from_option].
      fold (pendingOf w channelID). fold (historyOf w channelID).
      rewrite <- Hp, <- Hh. split; [reflexivity|].
      intros Hrange. rewrite PendingCount_AddMessage.
      apply PendingCount_IncrementPending. lia.
  - (* the target is not registered *)
    step Hcases. cbv beta iota. step_now.
    eexists (Some (ErrNotRegistered to)), _, msg,
      (ConversationMessage.mk (ActorMessage.ID msg) from [to] content 0 false ∅).
    split; [reflexivity|].
    change (conversationsOf (setConversations ?cs _)) with cs.
    change (mailboxesOf (setConversations _ w2)) with (mailboxesOf w2).
    rewrite Hmb2, Hcs2.
    split; [split; discriminate|].
    split; [repeat split|]. split; [repeat split|].
    split; [exact Hwall2|].
    split; [reflexivity|]. split; [reflexivity|].
    split; [intros a; rewrite andb_false_r; symmetry; apply app_nil_r|].
    split; [intros ch Hne; now rewrite !lookup_alter_ne, lookup_insert_ne by congruence|].
    split; [rewrite !lookup_alter_eq, lookup_insert_eq; eexists; reflexivity|].
    unfold historyOf, pendingOf.
    change (conversationsOf (setConversations ?cs _)) with cs.
    rewrite !from_option_alter, lookup_insert_eq. cbn [from_option].
    fold (pendingOf w channelID). fold (historyOf w channelID).
    rewrite <- Hp, <- Hh. split.
    + rewrite app_nil_r.
      now destruct (other_fields_DecrementPending
                      (Conversation.IncrementPending c)) as [-> _].
    + intros Hrange. rewrite Z.add_0_r.
      assert (Hinc : Conversation.PendingCount (Conversation.IncrementPending c)
                     = Conversation.PendingCount c + 1)
        by (apply PendingCount_IncrementPending; lia).
      destruct (DecrementPending_cases (Conversation.IncrementPending c))
        as [(Hz & _) | [(H1 & Hd & _) | (H1 & Hd & _)]];
        rewrite ?Hinc in *; unfold intMax in *; lia.
Qed.

(** X16.  While the target's mailbox has not been stopped, [RouteToAgent]
    returns and queues for the target, exactly when it returns no error,
    one message that carries the sender, the target, the text and the
    channel.  The other mailboxes and the conversations of the other
    channels stay as they were; the channel itself has a conversation
    afterwards, whether the message was taken or not. *)
Theorem RouteToAgent_delivers_one_message
    (w : World) (from to : AgentType) (content channelID : string) :
  ~ mailboxStopped w to ->
  exists err w' msg,
    RouteToAgent from to content channelID w = Returns (err, w')
    /\ carries from to content channelID msg
    /\ queueOf w' to
       = queueOf w to ++ match err with None => [msg] | Some _ => [] end
    /\ (forall a, a <> to -> mailboxesOf w' !! a = mailboxesOf w !! a)
    /\ (forall ch, ch <> channelID ->
          conversationsOf w' !! ch = conversationsOf w !! ch)
    /\ is_Some (conversationsOf w' !! channelID).
Proof.
  intros Hlive.
  destruct (RouteToAgent_run w from to content channelID Hlive)
    as (err & w' & msg & m & Hrun & Herr & Hmsg & _ & _ & Hothers & _ & Hq
        & Hch & Hconv & _).
  exists err, w', msg. split; [exact Hrun|]. split; [exact Hmsg|].
  split; [|split; [exact Hothers | split; [exact Hch | exact Hconv]]].
  rewrite (Hq to), bool_decide_eq_true_2 by reflexivity. cbn [andb].
  destruct err as [e|].
  - destruct (accepts w to); [|reflexivity].
    destruct Herr as [_ Herr]. discriminate (Herr eq_refl).
  - destruct Herr as [Herr _]. now rewrite (Herr eq_refl).
Qed.

Lemma RouteToAgent_delivers_one_message_witness :
  exists err w' msg,
    RouteToAgent AgentDev "nobody" "ping" "room" sampleWorld = Returns (err, w')
    /\ carries AgentDev "nobody" "ping" "room" msg
    /\ queueOf w' "nobody" = []
    /\ is_Some (conversationsOf w' !! "room").
Proof.
  destruct (RouteToAgent_delivers_one_message sampleWorld AgentDev "nobody" "ping" "room")
    as (err & w' & msg & Hrun & Hmsg & Hq & _ & _ & Hconv).
  - intros (m & Hm & _). vm_compute in Hm. discriminate Hm.
  - exists err, w', msg. split; [exact Hrun|]. split; [exact Hmsg|].
    split; [|exact Hconv].
    rewrite Hq. vm_compute in Hrun. injection Hrun as <- _. reflexivity.
Defined.

(** The loop of [RouteToMultiple] over targets that are pairwise distinct
    and not stopped. *)
Lemma routeToEach_spec (from : AgentType) (content channelID : string)
    (targets : list AgentType) :
  forall (errors : list GoError) (w : World),
    NoDup targets ->
    (forall a, a ∈ targets -> ~ mailboxStopped w a) ->
    exists errs w' ms,
      routeToEach from targets content channelID errors w
        = Returns (errors ++ errs, w')
      /\ length errs = length (filter (fun a => accepts w a = false) targets)
      /\ (forall a, a ∉ targets -> mailboxesOf w' !! a = mailboxesOf w !! a)
      /\ (forall a, mailboxStopped w' a <-> mailboxStopped w a)
      /\ (forall a, exists delivered,
            queueOf w' a = queueOf w a ++ delivered
            /\ Forall (carries from a content channelID) delivered
            /\ length delivered
               = if bool_decide (a ∈ targets) && accepts w a then 1%nat else 0%nat)
      /\ (forall ch, ch <> channelID ->
            conversationsOf w' !! ch = conversationsOf w !! ch)
      /\ historyOf w' channelID = historyOf w channelID ++ ms
      /\ Forall2 (fun m to => records from [to] content false m) ms
           (filter (fun a => accepts w a = true) targets)
      /\ (0 <= pendingOf w channelID ->
          pendingOf w channelID + Z.of_nat (length targets) <= intMax ->
          pendingOf w' channelID = pendingOf w channelID + Z.of_nat (length ms)).
Proof.
  induction targets as [|to targets IH]; intros errors w Hnodup Hlive.
  - exists [], w, []. cbn [routeToEach]. rewrite !app_nil_r.
    split; [reflexivity|]. split; [reflexivity|]. split; [reflexivity|].
    split; [reflexivity|].
    split.
    { intros a. exists []. rewrite app_nil_r.
      rewrite bool_decide_eq_false_2 by apply not_elem_of_nil.
      split; [reflexivity|]. split; [constructor | reflexivity]. }
    split; [reflexivity|]. split; [reflexivity|].
    split; [constructor|]. intros _ _. cbn. lia.
  - apply NoDup_cons in Hnodup as [Hfresh Hnodup]. cbn [routeToEach].
    destruct (RouteToAgent_run w from to content channelID (Hlive to ltac:(left)))
      as (err & w1 & msg & m & Hrun & Herr & Hmsg & Hm & _ & Hothers & Hstop & Hq
          & Hch & _ & Hhist & Hpend).
    step Hrun.
    assert (Hacc : forall a, a ∈ targets -> accepts w1 a = accepts w a).
    { intros a Ha. apply accepts_same_mailboxes, Hothers. intros ->. contradiction. }
    assert (Hlive1 : forall a, a ∈ targets -> ~ mailboxStopped w1 a).
    { intros a Ha Hs. apply (Hlive a); [now right|]. now apply Hstop. }
    assert (Htail : forall errors1,
              exists errs w' ms,
                routeToEach from targets content channelID errors1 w1
                  = Returns (errors1 ++ errs, w')
                /\ length errs = length (filter (fun a => accepts w a = false) targets)
                /\ (forall a, a ∉ to :: targets ->
                      mailboxesOf w' !! a = mailboxesOf w !! a)
                /\ (forall a, mailboxStopped w' a <-> mailboxStopped w a)
                /\ (forall a, exists delivered,
                      queueOf w' a
                      = (queueOf w a
                           ++ (if bool_decide (a = to) && accepts w to then [msg] else []))
                          ++ delivered
                      /\ Forall (carries from a content channelID) delivered
                      /\ length delivered
                         = if bool_decide (a ∈ targets) && accepts w a
                           then 1%nat else 0%nat)
                /\ (forall ch, ch <> channelID ->
                      conversationsOf w' !! ch = conversationsOf w !! ch)
                /\ historyOf w' channelID
                   = (historyOf w channelID ++ (if accepts w to then [m] else [])) ++ ms
                /\ Forall2 (fun m to => records from [to] content false m) ms
                     (filter (fun a => accepts w a = true) targets)
                /\ (0 <= pendingOf w1 channelID ->
                    pendingOf w1 channelID + Z.of_nat (length targets) <= intMax ->
                    pendingOf w' channelID
                    = pendingOf w1 channelID + Z.of_nat (length ms))).
    { intros errors1.
      destruct (IH errors1 w1 Hnodup Hlive1)
        as (errs & w' & ms & Hrun' & Hlen & Hout & Hstop' & Hq' & Hch' & Hhist'
            & Hms & Hpend').
      exists errs, w', ms. split; [exact Hrun'|].
      split.
      { rewrite Hlen. f_equal. apply filter_ext_in. intros a Ha.
        now rewrite (Hacc a Ha). }
      split.
      { intros a Ha. apply not_elem_of_cons in Ha as [Hne Hnin].
        rewrite (Hout a Hnin). now apply Hothers. }
      split; [intros a; rewrite Hstop'; apply Hstop|].
      split.
      { intros a. destruct (Hq' a) as (delivered & Hqa & Hcar & Hlen').
        exists delivered. rewrite Hqa, (Hq a). split; [reflexivity|].
        split; [exact Hcar|]. rewrite Hlen'.
        destruct (decide (a ∈ targets)) as [Ha | Ha].
        - now rewrite (Hacc a Ha).
        - now rewrite !bool_decide_eq_false_2 by exact Ha. }
      split; [intros ch Hne; rewrite (Hch' ch Hne); now apply Hch|].
      split; [now rewrite Hhist', Hhist|].
      split; [|exact Hpend'].
      rewrite (filter_ext_in (fun a => accepts w a = true)
                 (fun a => accepts w1 a = true)); [exact Hms|].
      intros a Ha. now rewrite (Hacc a Ha). }
    assert (Hdeliv : forall a delivered,
              Forall (carries from a content channelID) delivered ->
              length delivered
              = (if bool_decide (a ∈ targets) && accepts w a then 1%nat else 0%nat) ->
              Forall (carries from a content channelID)
                ((if bool_decide (a = to) && accepts w to then [msg] else [])
                   ++ delivered)
              /\ length ((if bool_decide (a = to) && accepts w to then [msg] else [])
                           ++ delivered)
                 = if bool_decide (a ∈ to :: targets) && accepts w a
                   then 1%nat else 0%nat).
    { intros a delivered Hcar Hlen.
      destruct (decide (a = to)) as [-> | Hne].
      - rewrite bool_decide_eq_false_2 in Hlen by exact Hfresh.
        destruct delivered; [|discriminate Hlen].
        rewrite app_nil_r, !bool_decide_eq_true_2 by (reflexivity || left).
        cbn [andb]. destruct (accepts w to); split; try reflexivity.
        + constructor; [exact Hmsg | constructor].
        + constructor.
      - rewrite (bool_decide_eq_false_2 (a = to)) by exact Hne. cbn [andb app].
        split; [exact Hcar|]. rewrite Hlen.
        destruct (decide (a ∈ targets)) as [Ha | Ha].
        + rewrite !bool_decide_eq_true_2; [reflexivity | now right | exact Ha].
        + rewrite !bool_decide_eq_false_2; [reflexivity | | exact Ha].
          intros Hin. apply elem_of_cons in Hin as [? | ?]; contradiction. }
    destruct (accepts w to) eqn:Hto.
    + (* taken *)
      destruct err as [e|]; [destruct Herr as [_ Herr]; discriminate (Herr eq_refl)|].
      destruct (Htail errors)
        as (errs & w' & ms & Hrun' & Hlen & Hout & Hstop' & Hq' & Hch' & Hhist'
            & Hms & Hpend').
      exists errs, w', (m :: ms). split; [exact Hrun'|].
      split.
      { rewrite filter_cons_False; [exact Hlen|]. rewrite Hto. discriminate. }
      split; [exact Hout|]. split; [exact Hstop'|].
      split.
      { intros a. destruct (Hq' a) as (delivered & Hqa & Hcar & Hlen').
        eexists. rewrite Hqa, <- app_assoc. split; [reflexivity|].
        apply Hdeliv; assumption. }
      split; [exact Hch'|].
      split; [now rewrite Hhist', <- app_assoc|].
      split.
      { rewrite filter_cons_True by exact Hto. constructor; [exact Hm | exact Hms]. }
      intros H0 Hmax. cbn [length] in *.
      rewrite Hpend', Hpend; rewrite ?Hpend; unfold intMax in *; lia.
    + (* refused *)
      destruct err as [e|]; [|destruct Herr as [Herr _]; discriminate (Herr eq_refl)].
      destruct (Htail (errors ++ [e]))
        as (errs & w' & ms & Hrun' & Hlen & Hout & Hstop' & Hq' & Hch' & Hhist'
            & Hms & Hpend').
      exists (e :: errs), w', ms. split; [now rewrite Hrun', <- app_assoc|].
      split.
      { rewrite filter_cons_True by exact Hto. cbn [length]. now rewrite Hlen. }
      split; [exact Hout|]. split; [exact Hstop'|].
      split.
      { intros a. destruct (Hq' a) as (delivered & Hqa & Hcar & Hlen').
        eexists. rewrite Hqa, <- app_assoc. split; [reflexivity|].
        apply Hdeliv; assumption. }
      split; [exact Hch'|].
      split; [now rewrite Hhist', app_nil_r|].
      split.
      { rewrite filter_cons_False; [exact Hms|]. rewrite Hto. discriminate. }
      intros H0 Hmax. cbn [length] in *.
      rewrite Hpend', Hpend; rewrite ?Hpend; unfold intMax in *; lia.
Qed.

(** X17.  [RouteToMultiple] to pairwise distinct targets, none of them
    stopped, accounts for every target once: it returns one error for
    every target that would not take a message; every target that would
    gets one message queued, carrying the sender, the text and the
    channel; the history of the channel grows by one entry per target
    that took the message, in the order of the targets; and, within the
    range of a Go [int], the pending counter grows by their number.
    Mailboxes of agents that are no target and conversations of other
    channels are as before. *)
Theorem RouteToMultiple_accounts_for_every_target
    (from : AgentType) (targets : list AgentType) (content channelID : string)
    (w : World) :
  NoDup targets ->
  (forall a, a ∈ targets -> ~ mailboxStopped w a) ->
  exists errs w' ms,
    RouteToMultiple from targets content channelID w = Returns (errs, w')
    /\ length errs = length (filter (fun a => accepts w a = false) targets)
    /\ (forall a, a ∉ targets -> mailboxesOf w' !! a = mailboxesOf w !! a)
    /\ (forall a, exists delivered,
          queueOf w' a = queueOf w a ++ delivered
          /\ Forall (carries from a content channelID) delivered
          /\ length delivered
             = if bool_decide (a ∈ targets) && accepts w a then 1%nat else 0%nat)
    /\ (forall ch, ch <> channelID ->
          conversationsOf w' !! ch = conversationsOf w !! ch)
    /\ historyOf w' channelID = historyOf w channelID ++ ms
    /\ Forall2 (fun m to => records from [to] content false m) ms
         (filter (fun a => accepts w a = true) targets)
    /\ (0 <= pendingOf w channelID ->
        pendingOf w channelID + Z.of_nat (length targets) <= intMax ->
        pendingOf w' channelID = pendingOf w channelID + Z.of_nat (length ms)).
Proof.
  intros Hnodup Hlive. unfold RouteToMultiple.
  destruct (routeToEach_spec from content channelID targets [] w Hnodup Hlive)
    as (errs & w' & ms & Hrun & Hlen & Hout & _ & Hq & Hch & Hhist & Hms & Hpend).
  exists errs, w', ms. split; [exact Hrun|].
  split; [exact Hlen|]. split; [exact Hout|]. split; [exact Hq|].
  split; [exact Hch|]. split; [exact Hhist|]. split; [exact Hms | exact Hpend].
Qed.

Lemma RouteToMultiple_accounts_for_every_target_witness :
  exists errs w',
    RouteToMultiple AgentMaster [AgentDev; "nobody"; AgentQA] "ship it" "room"
      sampleWorld = Returns (errs, w')
    /\ length errs = 1%nat
    /\ length (historyOf w' "room") = 2%nat
    /\ pendingOf w' "room" = 2.
Proof.
  destruct (RouteToMultiple_accounts_for_every_target AgentMaster
              [AgentDev; "nobody"; AgentQA] "ship it" "room" sampleWorld)
    as (errs & w' & ms & Hrun & Hlen & _ & _ & _ & Hhist & Hms & Hpend).
  - apply (bool_decide_unpack _). vm_compute. reflexivity.
  - intros a Ha (m & Hm & Hclosed).
    repeat (apply elem_of_cons in Ha as [-> | Ha]);
      [vm_compute in Hm; injection Hm as <-; discriminate Hclosed
      |vm_compute in Hm; discriminate Hm
      |vm_compute in Hm; injection Hm as <-; discriminate Hclosed
      |inversion Ha].
  - exists errs, w'. split; [exact Hrun|]. split; [exact Hlen|].
    apply Forall2_length in Hms.
    change (length ms = 2%nat) in Hms.
    split.
    + rewrite Hhist, length_app, Hms. reflexivity.
    + rewrite Hpend, Hms; [reflexivity | vm_compute; discriminate
                          | vm_compute; discriminate].
Defined.

(** ** Routing from the human, in full *)

(** One turn of the loop of [RouteFromHuman], on a channel that has a
    conversation. *)
Lemma routeEach_step (to : AgentType) (targets : list AgentType)
    (content channelID senderID : string) (errors : list GoError) (w : World) :
  ~ mailboxStopped w to ->
  is_Some (conversationsOf w !! channelID) ->
  exists w1 msg errs1,
    routeEach (to :: targets) content channelID senderID errors w
    = routeEach targets content channelID senderID (errors ++ errs1) w1
    /\ length errs1 = (if accepts w to then 0%nat else 1%nat)
    /\ humanMessage senderID to content channelID msg
    /\ (forall a, a <> to -> mailboxesOf w1 !! a = mailboxesOf w !! a)
    /\ (forall a, mailboxStopped w1 a <-> mailboxStopped w a)
    /\ (forall a,
          queueOf w1 a
          = queueOf w a ++ (if bool_decide (a = to) && accepts w to then [msg] else []))
    /\ (forall ch, ch <> channelID ->
          conversationsOf w1 !! ch = conversationsOf w !! ch)
    /\ is_Some (conversationsOf w1 !! channelID)
    /\ historyOf w1 channelID = historyOf w channelID
    /\ (0 <= pendingOf w channelID < intMax ->
        pendingOf w1 channelID
        = pendingOf w channelID + (if accepts w to then 1 else 0)).
Proof.
  intros Hlive [c Hc]. cbn [routeEach].
  do 3 step_now.
  set (msg := ActorMessage.mk _ "" to content channelID "" _ _).
  set (w2 := setConversations _ (tick (tick w))).
  assert (Hmb2 : mailboxesOf w2 = mailboxesOf w) by reflexivity.
  assert (Hcs2 : conversationsOf w2
                 = alter Conversation.IncrementPending channelID (conversationsOf w))
    by reflexivity.
  pose proof (Route_cases msg w2) as Hcases.
  change (ActorMessage.To msg) with to in Hcases.
  rewrite Hmb2 in Hcases.
  assert (Hhuman : humanMessage senderID to content channelID msg).
  { split; [repeat split|]. split.
    - unfold msg. cbn. now rewrite lookup_insert_ne, lookup_insert_eq by discriminate.
    - unfold msg. cbn. now rewrite lookup_insert_eq. }
  unfold accepts, mailboxStopped, queueOf.
  assert (Hrefused : forall e,
            Route msg w2 = Returns (Some e, w2) ->
            match mailboxesOf w !! to with
            | Some m => negb (ActorMailbox.isFull m)
            | None => false
            end = false ->
            exists w1 msg0 errs1,
              bind (Route msg)
                (fun err => match err with
                  | Some e =>
                      onConversation channelID Conversation.DecrementPending ;;
                      routeEach targets content channelID senderID (errors ++ [e])
                  | None => routeEach targets content channelID senderID errors
                  end) w2
              = routeEach targets content channelID senderID (errors ++ errs1) w1
              /\ length errs1 = 1%nat
              /\ humanMessage senderID to content channelID msg0
              /\ (forall a, a <> to -> mailboxesOf w1 !! a = mailboxesOf w !! a)
              /\ (forall a,
                    (exists m, mailboxesOf w1 !! a = Some m /\ ActorMailbox.closed m = true)
                    <-> (exists m, mailboxesOf w !! a = Some m
                                   /\ ActorMailbox.closed m = true))
              /\ (forall a,
                    from_option ActorMailbox.messages [] (mailboxesOf w1 !! a)
                    = from_option ActorMailbox.messages [] (mailboxesOf w !! a) ++ [])
              /\ (forall ch, ch <> channelID ->
                    conversationsOf w1 !! ch = conversationsOf w !! ch)
              /\ is_Some (conversationsOf w1 !! channelID)
              /\ historyOf w1 channelID = historyOf w channelID
              /\ (0 <= pendingOf w channelID < intMax ->
                  pendingOf w1 channelID = pendingOf w channelID + 0)).
  { intros e He _. step He. cbv beta iota. step_now.
    eexists _, msg, [e]. split; [reflexivity|]. split; [reflexivity|].
    split; [exact Hhuman|].
    split; [reflexivity|]. split; [reflexivity|].
    split; [intros a; symmetry; apply app_nil_r|].
    change (conversationsOf (setConversations ?cs _)) with cs.
    rewrite Hcs2.
    split; [intros ch Hne; now rewrite !lookup_alter_ne by congruence|].
    split; [rewrite !lookup_alter_eq, Hc; eexists; reflexivity|].
    unfold historyOf, pendingOf.
    change (conversationsOf (setConversations ?cs _)) with cs.
    rewrite !from_option_alter, Hc. cbn [from_option]. split.
    - now destruct (other_fields_DecrementPending (Conversation.IncrementPending c))
        as [-> _].
    - intros Hrange. rewrite Z.add_0_r.
      assert (Hinc : Conversation.PendingCount (Conversation.IncrementPending c)
                     = Conversation.PendingCount c + 1)
        by (apply PendingCount_IncrementPending; lia).
      destruct (DecrementPending_cases (Conversation.IncrementPending c))
        as [(Hz & _) | [(H1 & Hd & _) | (H1 & Hd & _)]];
        rewrite ?Hinc in *; unfold intMax in *; lia. }
  destruct (mailboxesOf w !! to) as [mb|] eqn:Hmb.
  - destruct (ActorMailbox.closed mb) eqn:Hclosed;
      [exfalso; apply Hlive; exists mb; split; [exact Hmb | exact Hclosed]|].
    destruct (ActorMailbox.isFull mb) eqn:Hfull; cbn [negb].
    + destruct (Hrefused _ Hcases eq_refl)
        as (w1 & msg0 & errs1 & Hrun & Hlen & Hmsg0 & Hrest).
      exists w1, msg0, errs1. split; [exact Hrun|]. split; [exact Hlen|].
      split; [exact Hmsg0|].
      destruct Hrest as (H1 & H2 & H3 & H4 & H5 & H6 & H7).
      split; [exact H1|]. split; [exact H2|].
      split; [intros a; rewrite andb_false_r; apply H3|].
      split; [exact H4|]. split; [exact H5|]. split; [exact H6 | exact H7].
    + step Hcases. cbv beta iota.
      eexists _, msg, []. rewrite app_nil_r. split; [reflexivity|].
      split; [reflexivity|]. split; [exact Hhuman|].
      change (mailboxesOf (setMailboxes ?mbs _)) with mbs.
      split; [intros a Hne; now rewrite lookup_insert_ne by congruence|].
      split.
      { intros a. destruct (decide (a = to)) as [-> | Hne].
        - rewrite lookup_insert_eq, Hmb. split.
          + intros (m' & [= <-] & Hcl). discriminate Hcl.
          + intros (m' & [= <-] & Hcl). congruence.
        - now rewrite lookup_insert_ne by congruence. }
      split.
      { intros a. destruct (decide (a = to)) as [-> | Hne].
        - rewrite lookup_insert_eq, Hmb, bool_decide_eq_true_2 by reflexivity.
          reflexivity.
        - rewrite lookup_insert_ne by congruence.
          rewrite bool_decide_eq_false_2 by exact Hne. cbn.
          symmetry. apply app_nil_r. }
      unfold historyOf, pendingOf.
      change (conversationsOf (setMailboxes _ w2)) with (conversationsOf w2).
      rewrite Hcs2.
      split; [intros ch Hne; now rewrite !lookup_alter_ne by congruence|].
      split; [rewrite !lookup_alter_eq, Hc; eexists; reflexivity|].
      rewrite !from_option_alter, Hc. cbn [from_option].
      split; [reflexivity|].
      intros Hrange. apply PendingCount_IncrementPending. lia.
  - destruct (Hrefused _ Hcases eq_refl)
      as (w1 & msg0 & errs1 & Hrun & Hlen & Hmsg0 & Hrest).
    exists w1, msg0, errs1. split; [exact Hrun|]. split; [exact Hlen|].
    split; [exact Hmsg0|].
    destruct Hrest as (H1 & H2 & H3 & H4 & H5 & H6 & H7).
    split; [exact H1|]. split; [exact H2|].
    split; [intros a; rewrite andb_false_r; apply H3|].
    split; [exact H4|]. split; [exact H5|]. split; [exact H6 | exact H7].
Qed.

Lemma one_delivery {A} (P : A -> Prop) (to a : AgentType) (targets : list AgentType)
    (taken : bool) (acc : AgentType -> bool) (x : A) (delivered : list A) :
  to ∉ targets ->
  acc to = taken ->
  (a = to -> P x) ->
  Forall P delivered ->
  length delivered = (if bool_decide (a ∈ targets) && acc a then 1%nat else 0%nat) ->
  Forall P ((if bool_decide (a = to) && taken then [x] else []) ++ delivered)
  /\ length ((if bool_decide (a = to) && taken then [x] else []) ++ delivered)
     = if bool_decide (a ∈ to :: targets) && acc a then 1%nat else 0%nat.
Proof.
  intros Hfresh Hto Hx Hall Hlen.
  destruct (decide (a = to)) as [-> | Hne].
  - rewrite bool_decide_eq_false_2 in Hlen by exact Hfresh.
    destruct delivered; [|discriminate Hlen].
    rewrite app_nil_r, !bool_decide_eq_true_2 by (reflexivity || left).
    cbn [andb]. rewrite Hto. destruct taken; split; try reflexivity.
    + constructor; [exact (Hx eq_refl) | constructor].
    + constructor.
  - rewrite (bool_decide_eq_false_2 (a = to)) by exact Hne. cbn [andb app].
    split; [exact Hall|]. rewrite Hlen.
    destruct (decide (a ∈ targets)) as [Ha | Ha].
    + rewrite !bool_decide_eq_true_2; [reflexivity | now right | exact Ha].
    + rewrite !bool_decide_eq_false_2; [reflexivity | | exact Ha].
      intros Hin. apply elem_of_cons in Hin as [? | ?]; contradiction.
Qed.

(** The loop of [RouteFromHuman] over targets that are pairwise distinct
    and not stopped, on a channel that has a conversation. *)
Lemma routeEach_spec (content channelID senderID : string)
    (targets : list AgentType) :
  forall (errors : list GoError) (w : World),
    NoDup targets ->
    (forall a, a ∈ targets -> ~ mailboxStopped w a) ->
    is_Some (conversationsOf w !! channelID) ->
    exists errs w',
      routeEach targets content channelID senderID errors w
        = Returns (errors ++ errs, w')
      /\ length errs = length (filter (fun a => accepts w a = false) targets)
      /\ (forall a, a ∉ targets -> mailboxesOf w' !! a = mailboxesOf w !! a)
      /\ (forall a, exists delivered,
            queueOf w' a = queueOf w a ++ delivered
            /\ Forall (humanMessage senderID a content channelID) delivered
            /\ length delivered
               = if bool_decide (a ∈ targets) && accepts w a then 1%nat else 0%nat)
      /\ (forall ch, ch <> channelID ->
            conversationsOf w' !! ch = conversationsOf w !! ch)
      /\ historyOf w' channelID = historyOf w channelID
      /\ (0 <= pendingOf w channelID ->
          pendingOf w channelID + Z.of_nat (length targets) <= intMax ->
          pendingOf w' channelID
          = pendingOf w channelID
            + Z.of_nat (length (filter (fun a => accepts w a = true) targets))).
Proof.
  induction targets as [|to targets IH]; intros errors w Hnodup Hlive Hconv.
  - exists [], w. cbn [routeEach]. rewrite !app_nil_r.
    split; [reflexivity|]. split; [reflexivity|]. split; [reflexivity|].
    split.
    { intros a. exists []. rewrite app_nil_r.
      rewrite bool_decide_eq_false_2 by apply not_elem_of_nil.
      split; [reflexivity|]. split; [constructor | reflexivity]. }
    split; [reflexivity|]. split; [reflexivity|]. intros _ _. cbn. lia.
  - apply NoDup_cons in Hnodup as [Hfresh Hnodup].
    destruct (routeEach_step to targets content channelID senderID errors w
                (Hlive to ltac:(left)) Hconv)
      as (w1 & msg & errs1 & -> & Hlen1 & Hmsg & Hothers & Hstop & Hq & Hch
          & Hconv1 & Hhist & Hpend).
    assert (Hacc : forall a, a ∈ targets -> accepts w1 a = accepts w a).
    { intros a Ha. apply accepts_same_mailboxes, Hothers. intros ->. contradiction. }
    destruct (IH (errors ++ errs1) w1 Hnodup) as
      (errs & w' & Hrun' & Hlen & Hout & Hq' & Hch' & Hhist' & Hpend');
      [intros a Ha Hs; apply (Hlive a); [now right | now apply Hstop] | exact Hconv1 |].
    exists (errs1 ++ errs), w'. split; [now rewrite Hrun', <- app_assoc|].
    assert (Hrefused : filter (fun a => accepts w1 a = false) targets
                       = filter (fun a => accepts w a = false) targets).
    { apply filter_ext_in. intros a Ha. now rewrite (Hacc a Ha). }
    assert (Htaken : filter (fun a => accepts w1 a = true) targets
                     = filter (fun a => accepts w a = true) targets).
    { apply filter_ext_in. intros a Ha. now rewrite (Hacc a Ha). }
    rewrite Hrefused in Hlen. rewrite Htaken in Hpend'.
    split.
    { rewrite length_app, Hlen1, Hlen.
      destruct (accepts w to) eqn:Hto.
      - rewrite filter_cons_False; [reflexivity|]. rewrite Hto. discriminate.
      - now rewrite filter_cons_True by exact Hto. }
    split.
    { intros a Ha. apply not_elem_of_cons in Ha as [Hne Hnin].
      rewrite (Hout a Hnin). now apply Hothers. }
    split.
    { intros a. destruct (Hq' a) as (delivered & Hqa & Hcar & Hlen').
      eexists. rewrite Hqa, (Hq a), <- app_assoc. split; [reflexivity|].
      apply (one_delivery _ to a targets (accepts w to) (accepts w));
        [exact Hfresh | reflexivity | | exact Hcar |].
      - intros ->. exact Hmsg.
      - rewrite Hlen'. destruct (decide (a ∈ targets)) as [Ha | Ha].
        + now rewrite (Hacc a Ha).
        + now rewrite !bool_decide_eq_false_2 by exact Ha. }
    split; [intros ch Hne; rewrite (Hch' ch Hne); now apply Hch|].
    split; [now rewrite Hhist', Hhist|].
    intros H0 Hmax. cbn [length] in Hmax.
    assert (Hcount : (length (filter (fun a => accepts w a = true) targets)
                      <= length targets)%nat) by apply length_filter.
    rewrite Hpend', Hpend; try (unfold intMax in *; lia).
    + destruct (accepts w to) eqn:Hto.
      * rewrite filter_cons_True by exact Hto. cbn [length]. lia.
      * rewrite filter_cons_False; [lia|]. rewrite Hto. discriminate.
    + rewrite Hpend by (unfold intMax in *; lia). destruct (accepts w to); lia.
    + rewrite Hpend by (unfold intMax in *; lia).
      destruct (accepts w to); unfold intMax in *; lia.
Qed.

(** What [RouteFromHuman] does to the mailboxes and to the conversations. *)
Lemma RouteFromHuman_run
    (targets : list AgentType) (content channelID senderID : string) (w : World) :
  NoDup (effectiveTargets targets) ->
  (forall a, a ∈ effectiveTargets targets -> ~ mailboxStopped w a) ->
  exists errs w' m,
    RouteFromHuman targets content channelID senderID w = Returns (errs, w')
    /\ length errs
       = length (filter (fun a => accepts w a = false) (effectiveTargets targets))
    /\ (forall a, a ∉ effectiveTargets targets ->
          mailboxesOf w' !! a = mailboxesOf w !! a)
    /\ (forall a, exists delivered,
          queueOf w' a = queueOf w a ++ delivered
          /\ Forall (humanMessage senderID a content channelID) delivered
          /\ length delivered
             = if bool_decide (a ∈ effectiveTargets targets) && accepts w a
               then 1%nat else 0%nat)
    /\ (forall ch, ch <> channelID ->
          conversationsOf w' !! ch = conversationsOf w !! ch)
    /\ historyOf w' channelID = historyOf w channelID ++ [m]
    /\ records "" targets content true m
    /\ (0 <= pendingOf w channelID ->
        pendingOf w channelID + Z.of_nat (length (effectiveTargets targets)) <= intMax ->
        pendingOf w' channelID
        = pendingOf w channelID
          + Z.of_nat (length (filter (fun a => accepts w a = true)
                                (effectiveTargets targets)))).
Proof.
  intros Hnodup Hlive. unfold RouteFromHuman.
  destruct (GetOrCreateConversation_spec channelID w)
    as (w0 & c & E0 & Hsys0 & _ & Hcs0 & Hp0 & Hh0 & _).
  step E0. step_now. unfold Conversation_AddMessage. step_now.
  change (match targets with [] => [AgentMaster] | _ => targets end)
    with (effectiveTargets targets).
  match goal with |- context [routeEach _ _ _ _ [] ?x] => set (wa := x) end.
  assert (Hmb : mailboxesOf wa = mailboxesOf w).
  { unfold mailboxesOf, wa. cbn. now rewrite Hsys0. }
  assert (Hcs : conversationsOf wa
                = alter (Conversation.AddMessage (nowOf (tick w0)) (nowOf (tick (tick w0)))
                           (ConversationMessage.mk ("human_" +:+ pretty (nowOf w0)) ""
                              targets content 0 true (<["sender_id" := senderID]> ∅)))
                    channelID (<[channelID := c]> (conversationsOf w))).
  { unfold wa. change (conversationsOf (setConversations ?cs _)) with cs.
    change (conversationsOf (tick (tick (tick w0)))) with (conversationsOf w0).
    now rewrite Hcs0. }
  assert (Hacc : forall a, accepts wa a = accepts w a).
  { intros a. apply accepts_same_mailboxes. now rewrite Hmb. }
  destruct (routeEach_spec content channelID senderID (effectiveTargets targets) [] wa
              Hnodup)
    as (errs & w' & Hrun & Hlen & Hout & Hq & Hch & Hhist & Hpend).
  { intros a Ha Hs. apply (Hlive a Ha).
    now apply (mailboxStopped_same_mailboxes w wa a); [rewrite Hmb|]. }
  { rewrite Hcs, lookup_alter_eq, lookup_insert_eq. eexists. reflexivity. }
  eexists errs, w', _. split; [exact Hrun|].
  split.
  { rewrite Hlen. f_equal. apply filter_ext_in. intros a _. now rewrite Hacc. }
  split; [intros a Ha; rewrite (Hout a Ha); now rewrite Hmb|].
  split.
  { intros a. destruct (Hq a) as (delivered & Hqa & Hall & Hn).
    exists delivered. rewrite Hqa. unfold queueOf at 1. rewrite Hmb.
    split; [reflexivity|]. split; [exact Hall|]. now rewrite Hn, Hacc. }
  split.
  { intros ch Hne. rewrite (Hch ch Hne), Hcs.
    now rewrite lookup_alter_ne, lookup_insert_ne by congruence. }
  assert (Hhist_a : historyOf wa channelID
                    = historyOf w channelID
                        ++ [ConversationMessage.withTimestamp (nowOf (tick w0))
                              (ConversationMessage.mk ("human_" +:+ pretty (nowOf w0)) ""
                                 targets content 0 true
                                 (<["sender_id" := senderID]> ∅))]).
  { unfold historyOf at 1. rewrite Hcs, from_option_alter, lookup_insert_eq.
    cbn [from_option]. now rewrite <- Hh0. }
  assert (Hpend_a : pendingOf wa channelID = pendingOf w channelID).
  { unfold pendingOf at 1. rewrite Hcs, from_option_alter, lookup_insert_eq.
    cbn [from_option]. now rewrite PendingCount_AddMessage. }
  split; [rewrite Hhist; exact Hhist_a|].
  split; [repeat split|].
  intros H0 Hmax. rewrite Hpend, Hpend_a by (rewrite Hpend_a; assumption).
  do 2 f_equal. f_equal. apply filter_ext_in. intros a _. now rewrite Hacc.
Qed.

(** X18.  [RouteFromHuman] to pairwise distinct targets, none of them
    stopped (the coordinator alone when no target is given), records the
    human's message once and accounts for every target once.  The history
    of the channel grows by exactly one entry, from the human, with the
    text and the targets as given, whether or not any mailbox takes the
    message; every target that would take a message gets one queued,
    marked as coming from the human [senderID]; one error is returned for
    every target that would not; and, within the range of a Go [int], the
    pending counter grows by the number of targets that took the message.
    Mailboxes of agents that are no target and conversations of other
    channels are as before. *)
Theorem RouteFromHuman_accounts_for_every_target
    (targets : list AgentType) (content channelID senderID : string) (w : World) :
  NoDup (effectiveTargets targets) ->
  (forall a, a ∈ effectiveTargets targets -> ~ mailboxStopped w a) ->
  exists errs w' m,
    RouteFromHuman targets content channelID senderID w = Returns (errs, w')
    /\ length errs
       = length (filter (fun a => accepts w a = false) (effectiveTargets targets))
    /\ (forall a, a ∉ effectiveTargets targets ->
          mailboxesOf w' !! a = mailboxesOf w !! a)
    /\ (forall a, exists delivered,
          queueOf w' a = queueOf w a ++ delivered
          /\ Forall (humanMessage senderID a content channelID) delivered
          /\ length delivered
             = if bool_decide (a ∈ effectiveTargets targets) && accepts w a
               then 1%nat else 0%nat)
    /\ (forall ch, ch <> channelID ->
          conversationsOf w' !! ch = conversationsOf w !! ch)
    /\ historyOf w' channelID = historyOf w channelID ++ [m]
    /\ records "" targets content true m
    /\ (0 <= pendingOf w channelID ->
        pendingOf w channelID + Z.of_nat (length (effectiveTargets targets)) <= intMax ->
        pendingOf w' channelID
        = pendingOf w channelID
          + Z.of_nat (length (filter (fun a => accepts w a = true)
                                (effectiveTargets targets)))).
Proof.
  intros Hnodup Hlive.
  destruct (RouteFromHuman_run targets content channelID senderID w Hnodup Hlive)
    as (errs & w' & m & Hrun & Hlen & Hout & Hq & Hch & Hhist & Hm & Hpend).
  exists errs, w', m. split; [exact Hrun|].
  split; [exact Hlen|]. split; [exact Hout|]. split; [exact Hq|].
  split; [exact Hch|]. split; [exact Hhist|]. split; [exact Hm | exact Hpend].
Qed.

Lemma RouteFromHuman_accounts_for_every_target_witness :
  exists errs w' m,
    RouteFromHuman [] "hello" "room" "user-7" sampleWorld = Returns (errs, w')
    /\ errs = []
    /\ length (queueOf w' AgentMaster) = 1%nat
    /\ historyOf w' "room" = [m]
    /\ ConversationMessage.To m = []
    /\ pendingOf w' "room" = 1.
Proof.
  destruct (RouteFromHuman_accounts_for_every_target [] "hello" "room" "user-7"
              sampleWorld)
    as (errs & w' & m & Hrun & Hlen & _ & Hq & _ & Hhist & Hm & Hpend).
  - apply (bool_decide_unpack _). vm_compute. reflexivity.
  - intros a Ha (mb & Hmb & Hclosed).
    apply elem_of_cons in Ha as [-> | Ha]; [|inversion Ha].
    vm_compute in Hmb. injection Hmb as <-. discriminate Hclosed.
  - exists errs, w', m. split; [exact Hrun|].
    split; [now destruct errs|].
    split.
    { destruct (Hq AgentMaster) as (delivered & -> & _ & Hn).
      rewrite length_app, Hn. reflexivity. }
    split; [exact Hhist|]. split; [apply Hm|].
    rewrite Hpend; [reflexivity | vm_compute; discriminate | vm_compute; discriminate].
Defined.

(** ** Replies *)

Lemma PendingCount_DecrementPending (c : Conversation.t) :
  Conversation.PendingCount c <= intMax ->
  Conversation.PendingCount (Conversation.DecrementPending c)
  = if 0 <? Conversation.PendingCount c
    then Conversation.PendingCount c - 1 else Conversation.PendingCount c.
Proof.
  intros Hmax. unfold Conversation.DecrementPending.
  destruct (0 <? Conversation.PendingCount c) eqn:Hpos.
  - apply Z.ltb_lt in Hpos.
    cbn [Conversation.PendingCount Conversation.withPendingCount].
    rewrite wrapInt_in_range by (unfold intMin, intMax in *; lia).
    now destruct (_ =? 0).
  - now destruct (_ =? 0).
Qed.

(** What [HandleAgentResponse] does on a channel that has a conversation. *)
Lemma HandleAgentResponse_run (from : AgentType) (content channelID : string)
    (w : World) :
  is_Some (conversationsOf w !! channelID) ->
  exists w' m,
    HandleAgentResponse from content channelID w = Returns (tt, w')
    /\ actorSystem w' = actorSystem w
    /\ Clock.wall (clock w') = Clock.wall (clock w)
    /\ (forall ch, ch <> channelID ->
          conversationsOf w' !! ch = conversationsOf w !! ch)
    /\ is_Some (conversationsOf w' !! channelID)
    /\ historyOf w' channelID = historyOf w channelID ++ [m]
    /\ records from [] content false m
    /\ (pendingOf w channelID <= intMax ->
        pendingOf w' channelID
        = if 0 <? pendingOf w channelID
          then pendingOf w channelID - 1 else pendingOf w channelID)
    /\ (from <> "" -> activeAgentsOf w' channelID !! from = Some true).
Proof.
  intros [c Hc]. unfold HandleAgentResponse, GetConversation.
  step_now. rewrite bool_decide_eq_true_2 by (rewrite Hc; eexists; reflexivity).
  do 2 step_now. unfold Conversation_AddMessage. do 2 step_now.
  unfold onConversation.
  eexists _, (ConversationMessage.withTimestamp _
                (ConversationMessage.mk _ from [] content 0 false ∅)).
  split; [reflexivity|].
  split; [reflexivity|]. split; [reflexivity|].
  unfold historyOf, pendingOf, activeAgentsOf.
  repeat change (conversationsOf (setConversations ?cs _)) with cs.
  repeat change (conversationsOf (tick ?x)) with (conversationsOf x).
  repeat change (conversationsOf (setConversations ?cs _)) with cs.
  split; [intros ch Hne; now rewrite !lookup_alter_ne by congruence|].
  split; [rewrite !lookup_alter_eq, Hc; eexists; reflexivity|].
  rewrite !lookup_alter_eq, Hc. cbn [fmap option_fmap option_map from_option].
  split.
  { cbn [Conversation.Messages Conversation.AddMessage].
    now destruct (other_fields_DecrementPending c) as [-> _]. }
  split; [repeat split|].
  split.
  { intros Hmax. rewrite PendingCount_AddMessage.
    now apply PendingCount_DecrementPending. }
  intros Hfrom. cbn. unfold Conversation.trackAgents. cbn.
  destruct (String.eqb from "") eqn:Heq; [apply String.eqb_eq in Heq; contradiction|].
  cbn. now rewrite lookup_insert_eq.
Qed.

(** X19.  On a channel that has a conversation, [HandleAgentResponse]
    records the reply and takes one off the pending counter, but never
    below zero: the history grows by one entry from the agent, addressed
    to nobody, with the text; a reply nobody was waiting for (counter 0)
    is recorded all the same and leaves the counter at 0; the agent is
    marked active; the mailboxes and the other channels are not touched. *)
Theorem HandleAgentResponse_records_reply
    (from : AgentType) (content channelID : string) (w : World) :
  is_Some (conversationsOf w !! channelID) ->
  0 <= pendingOf w channelID <= intMax ->
  exists w' m,
    HandleAgentResponse from content channelID w = Returns (tt, w')
    /\ actorSystem w' = actorSystem w
    /\ (forall ch, ch <> channelID ->
          conversationsOf w' !! ch = conversationsOf w !! ch)
    /\ historyOf w' channelID = historyOf w channelID ++ [m]
    /\ records from [] content false m
    /\ pendingOf w' channelID = Z.max 0 (pendingOf w channelID - 1)
    /\ (from <> "" -> activeAgentsOf w' channelID !! from = Some true).
Proof.
  intros Hconv Hrange.
  destruct (HandleAgentResponse_run from content channelID w Hconv)
    as (w' & m & Hrun & Hsys & _ & Hch & _ & Hhist & Hm & Hpend & Hactive).
  exists w', m. split; [exact Hrun|]. split; [exact Hsys|].
  split; [exact Hch|]. split; [exact Hhist|]. split; [exact Hm|].
  split; [|exact Hactive].
  rewrite Hpend by lia.
  destruct (0 <? pendingOf w channelID) eqn:Hpos;
    [apply Z.ltb_lt in Hpos | apply Z.ltb_ge in Hpos]; lia.
Qed.

Lemma HandleAgentResponse_records_reply_witness :
  exists w0 w' m,
    GetOrCreateConversation "room" sampleWorld = Returns (tt, w0)
    /\ HandleAgentResponse AgentDev "done" "room" w0 = Returns (tt, w')
    /\ historyOf w' "room" = [m]
    /\ pendingOf w' "room" = 0.
Proof.
  destruct (GetOrCreateConversation "room" sampleWorld) as [[[] w0]|] eqn:E0;
    [|vm_compute in E0; discriminate E0].
  assert (H0 : historyOf w0 "room" = [] /\ pendingOf w0 "room" = 0).
  { vm_compute in E0. injection E0 as <-. split; reflexivity. }
  destruct (HandleAgentResponse_records_reply AgentDev "done" "room" w0)
    as (w' & m & Hrun & _ & _ & Hhist & _ & Hpend & _).
  - vm_compute in E0. injection E0 as <-. eexists. reflexivity.
  - destruct H0 as [_ ->]. vm_compute. split; discriminate.
  - exists w0, w', m. split; [reflexivity|]. split; [exact Hrun|].
    destruct H0 as [Hh Hp]. rewrite Hhist, Hpend, Hh, Hp. split; reflexivity.
Defined.

(** X20.  A message routed to an agent and then answered leaves the
    pending counter where it was: after [RouteToAgent] has queued a
    message and [HandleAgentResponse] has recorded the target's reply on
    the same channel, the counter is back at its value before, and the
    history has grown by the message followed by the reply. *)
Theorem routed_then_answered_restores_pending
    (w : World) (from to : AgentType) (content reply channelID : string) :
  ~ mailboxStopped w to ->
  accepts w to = true ->
  0 <= pendingOf w channelID < intMax ->
  exists w' m1 m2,
    (RouteToAgent from to content channelID ;;
     HandleAgentResponse to reply channelID) w = Returns (tt, w')
    /\ pendingOf w' channelID = pendingOf w channelID
    /\ historyOf w' channelID = historyOf w channelID ++ [m1; m2]
    /\ records from [to] content false m1
    /\ records to [] reply false m2.
Proof.
  intros Hlive Htakes Hrange.
  destruct (RouteToAgent_run w from to content channelID Hlive)
    as (err & w1 & msg & m1 & Hrun1 & _ & _ & Hm1 & _ & _ & _ & _ & _ & Hconv1
        & Hhist1 & Hpend1).
  rewrite Htakes in Hhist1, Hpend1. specialize (Hpend1 Hrange).
  destruct (HandleAgentResponse_run to reply channelID w1 Hconv1)
    as (w' & m2 & Hrun2 & _ & _ & _ & _ & Hhist2 & Hm2 & Hpend2 & _).
  exists w', m1, m2. step Hrun1. split; [exact Hrun2|].
  split.
  - rewrite Hpend2 by (unfold intMax in *; lia). rewrite Hpend1.
    destruct (0 <? pendingOf w channelID + 1) eqn:Hpos;
      [lia | apply Z.ltb_ge in Hpos; lia].
  - split; [now rewrite Hhist2, Hhist1, <- app_assoc|]. split; [exact Hm1 | exact Hm2].
Qed.

Lemma routed_then_answered_restores_pending_witness :
  exists w',
    (RouteToAgent AgentMaster AgentDev "build it" "room" ;;
     HandleAgentResponse AgentDev "built" "room") sampleWorld = Returns (tt, w')
    /\ pendingOf w' "room" = 0
    /\ length (historyOf w' "room") = 2%nat.
Proof.
  destruct (routed_then_answered_restores_pending sampleWorld AgentMaster AgentDev
              "build it" "built" "room")
    as (w' & m1 & m2 & Hrun & Hpend & Hhist & _).
  - intros (m & Hm & Hclosed). vm_compute in Hm. injection Hm as <-.
    discriminate Hclosed.
  - reflexivity.
  - vm_compute. split; [discriminate | reflexivity].
  - exists w'. split; [exact Hrun|]. rewrite Hpend, Hhist. split; reflexivity.
Defined.

(** ** Mentions *)

(** The loop both mention parsers share keeps the first occurrence of
    every name, in order. *)
Lemma collectUnseen_fold (found : list AgentType) :
  forall (agents : list AgentType) (seen : gmap AgentType bool),
    (forall a, seen !! a = Some true <-> a ∈ agents) ->
    NoDup agents ->
    let r := foldl
               (fun '(agents, seen) agentType =>
                  if bool_decide ((seen : gmap AgentType bool) !! agentType = Some true)
                  then (agents, seen)
                  else (agents ++ [agentType], <[agentType := true]> seen))
               (agents, seen) found in
    NoDup r.1
    /\ (forall a, a ∈ r.1 <-> a ∈ agents \/ a ∈ found)
    /\ (NoDup found -> (forall a, a ∈ found -> a ∉ agents) -> r.1 = agents ++ found).
Proof.
  induction found as [|x found IH]; intros agents seen Hseen Hnodup; cbn [foldl].
  - cbn. split; [exact Hnodup|]. split.
    + intros a. split; [now left | intros [H | H]; [exact H | inversion H]].
    + intros _ _. now rewrite app_nil_r.
  - destruct (decide (seen !! x = Some true)) as [Hx | Hx].
    + rewrite bool_decide_eq_true_2 by exact Hx.
      destruct (IH agents seen Hseen Hnodup) as (Hnd & Hin & Heq).
      split; [exact Hnd|]. split.
      * intros a. rewrite Hin, elem_of_cons. split; [tauto|].
        intros [H | [-> | H]]; [now left | left; now apply Hseen | now right].
      * intros _ Hfresh. exfalso. apply (Hfresh x); [left | now apply Hseen].
    + rewrite bool_decide_eq_false_2 by exact Hx.
      assert (Hnew : x ∉ agents) by (intros Hin; apply Hx; now apply Hseen).
      destruct (IH (agents ++ [x]) (<[x := true]> seen)) as (Hnd & Hin & Heq).
      * intros a. rewrite elem_of_app, list_elem_of_singleton.
        destruct (decide (a = x)) as [-> | Hne].
        -- rewrite lookup_insert_eq. split; [now right | reflexivity].
        -- rewrite lookup_insert_ne by congruence. rewrite Hseen. tauto.
      * apply NoDup_app. split; [exact Hnodup|]. split; [|apply NoDup_singleton].
        intros a Ha Hax. apply list_elem_of_singleton in Hax as ->. contradiction.
      * split; [exact Hnd|]. split.
        -- intros a. rewrite Hin, elem_of_app, list_elem_of_singleton, elem_of_cons.
           tauto.
        -- intros Hnd' Hfresh. apply NoDup_cons in Hnd' as [Hxf Hnd'].
           rewrite Heq, <- app_assoc; [reflexivity | exact Hnd' |].
           intros a Ha Hin'. apply elem_of_app in Hin' as [Hin' | Hin'].
           ++ apply (Hfresh a); [now right | exact Hin'].
           ++ apply list_elem_of_singleton in Hin' as ->. contradiction.
Qed.

Lemma collectUnseen_spec (found : list AgentType) :
  NoDup (collectUnseen found)
  /\ (forall a, a ∈ collectUnseen found <-> a ∈ found)
  /\ (NoDup found -> collectUnseen found = found).
Proof.
  unfold collectUnseen.
  destruct (collectUnseen_fold found [] ∅) as (Hnd & Hin & Heq).
  - intros a. rewrite lookup_empty. split; [discriminate | intros H; inversion H].
  - constructor.
  - split; [exact Hnd|]. split.
    + intros a. rewrite (Hin a). split; [intros [H | H]; [inversion H | exact H] | now right].
    + intros Hfound. apply Heq; [exact Hfound|]. intros a _ H. inversion H.
Qed.

Lemma roster_NoDup : NoDup AllAgentTypes.
Proof. apply (bool_decide_unpack _). vm_compute. reflexivity. Qed.

Lemma roster_lowercase : Forall (fun name => ToLower name = name) AllAgentTypes.
Proof. repeat constructor. Qed.

(** X21.  In an ASCII reply the reply parser names the agents of the
    roster whose [@name] occurs anywhere in the reply, whatever the case of
    the letters: each once, and in the order of the roster, not in the
    order of the text.  Two replies that differ in the case of letters
    only name the same agents. *)
Theorem parseMentionsFromResponse_roster_order (content : string) :
  isASCII content = true ->
  (forall agent,
      agent ∈ parseMentionsFromResponse content
      <-> agent ∈ AllAgentTypes
          /\ Contains (ToLower content) ("@" +:+ agent) = true)
  /\ NoDup (parseMentionsFromResponse content)
  /\ sublist (parseMentionsFromResponse content) AllAgentTypes
  /\ (forall other,
        isASCII other = true ->
        ToLower other = ToLower content ->
        parseMentionsFromResponse other = parseMentionsFromResponse content).
Proof.
  intros _.
  assert (Heq : forall s,
            parseMentionsFromResponse s
            = filter (fun agent => Contains (ToLower s) ("@" +:+ agent) = true)
                AllAgentTypes).
  { intros s. unfold parseMentionsFromResponse.
    apply collectUnseen_spec, NoDup_filter, roster_NoDup. }
  split; [|split; [|split]].
  - intros agent. rewrite Heq, list_elem_of_filter. tauto.
  - rewrite Heq. apply NoDup_filter, roster_NoDup.
  - rewrite Heq. apply sublist_filter.
  - intros other _ Hother. now rewrite !Heq, Hother.
Qed.

Lemma parseMentionsFromResponse_roster_order_witness :
  parseMentionsFromResponse "ask @QA, then @dev" = [AgentDev; AgentQA]
  /\ parseMentionsFromResponse "ASK @qa, THEN @DEV"
     = parseMentionsFromResponse "ask @QA, then @dev".
Proof.
  destruct (parseMentionsFromResponse_roster_order "ask @QA, then @dev" eq_refl)
    as (_ & _ & _ & Hcase).
  split; [reflexivity|]. apply Hcase; reflexivity.
Defined.

Lemma foldPrefix_ToLower (lit : string) : forall s g rest,
  isASCII s = true ->
  foldPrefix lit s = Some (g, rest) -> ToLower g = ToLower lit.
Proof.
  induction lit as [|p lit IH]; intros s g rest Hs; cbn [foldPrefix].
  - now intros [= <- _].
  - destruct s as [|c t]; [discriminate|].
    cbn [isASCII] in Hs. apply andb_true_iff in Hs as [Hc Ht].
    rewrite (foldRune_ascii _ _ _ Hc).
    destruct (foldEq p c) eqn:Hpc; [|discriminate].
    destruct (foldPrefix lit t) as [[m r]|] eqn:Hrec; [|discriminate].
    intros [= <- _]. rewrite append_cons, append_nil. cbn [ToLower].
    rewrite (IH _ _ _ Ht Hrec). f_equal.
    unfold foldEq in Hpc. apply Ascii.eqb_eq in Hpc. now symmetry.
Qed.

Lemma matchMention_roster (s g rest : string) :
  isASCII s = true ->
  matchMention s = Some (g, rest) -> ToLower g ∈ AllAgentTypes.
Proof.
  unfold matchMention. destruct s as [|c t]; [discriminate|].
  cbn [isASCII]. intros Hs. apply andb_true_iff in Hs as [_ Ht].
  destruct (Ascii.eqb c "@"); [|discriminate].
  intros Hm. apply matchAlternatives_Some in Hm as (alt & Hin & Hm).
  unfold matchAlternative in Hm.
  destruct (foldPrefix alt t) as [[g' rest']|] eqn:Hf; [|discriminate].
  destruct (wordBoundary _ _); [|discriminate]. injection Hm as -> ->.
  rewrite (foldPrefix_ToLower _ _ _ _ Ht Hf).
  pose proof roster_lowercase as Hlow. rewrite Forall_forall in Hlow.
  now rewrite (Hlow alt Hin).
Qed.

Lemma scanFrom_roster (s : string) : forall skip g,
  isASCII s = true ->
  Matched g ∈ scanFrom skip s -> ToLower g ∈ AllAgentTypes.
Proof.
  induction s as [|c t IH]; intros skip g Hs; cbn [scanFrom].
  - intros H. inversion H.
  - pose proof Hs as Hs'. cbn [isASCII] in Hs'.
    apply andb_true_iff in Hs' as [_ Ht].
    destruct skip as [|k]; [|now apply IH].
    destruct (matchMention (String c t)) as [[g' rest]|] eqn:Hm.
    + intros Hin. apply elem_of_cons in Hin as [[= ->] | Hin].
      * exact (matchMention_roster _ _ _ Hs Hm).
      * exact (IH _ _ Ht Hin).
    + intros Hin. apply elem_of_cons in Hin as [[=] | Hin]. exact (IH _ _ Ht Hin).
Qed.

Lemma parseMentions_elem (content : string) (agent : AgentType) :
  agent ∈ parseMentions content
  <-> exists g, g ∈ FindAllStringSubmatch content /\ ToLower g = agent.
Proof.
  unfold parseMentions.
  destruct (collectUnseen_spec (ToLower <$> FindAllStringSubmatch content))
    as (_ & Hin & _).
  rewrite Hin, list_elem_of_fmap. split; intros (g & H1 & H2); exists g; auto.
Qed.

Lemma parseMentions_roster (content : string) (agent : AgentType) :
  isASCII content = true ->
  agent ∈ parseMentions content -> agent ∈ AllAgentTypes.
Proof.
  intros Hascii Hin. apply parseMentions_elem in Hin as (g & Hg & <-).
  unfold FindAllStringSubmatch in Hg. apply list_elem_of_omap in Hg as (p & Hp & Hsome).
  destruct p as [c|g']; [discriminate|]. injection Hsome as ->.
  exact (scanFrom_roster _ _ _ Hascii Hp).
Qed.

Lemma parseMentions_NoDup (content : string) : NoDup (parseMentions content).
Proof. unfold parseMentions. apply collectUnseen_spec. Qed.

(** X22.  In an ASCII message the gateway parser never names an agent
    twice and never names anything but an agent of the roster, in lower
    case, however the mention is written in the text; so a message has at
    most five targets.  An agent is named exactly when the lower-case form
    of the name matched by some mention in the text is that agent. *)
Theorem parseMentions_distinct_roster_agents (content : string) :
  isASCII content = true ->
  NoDup (parseMentions content)
  /\ (forall agent, agent ∈ parseMentions content -> agent ∈ AllAgentTypes)
  /\ (forall agent,
        agent ∈ parseMentions content
        <-> exists g, g ∈ FindAllStringSubmatch content /\ ToLower g = agent)
  /\ (length (parseMentions content) <= 5)%nat.
Proof.
  intros Hascii.
  split; [apply parseMentions_NoDup|].
  split; [intros agent; now apply parseMentions_roster|].
  split; [apply parseMentions_elem|].
  change 5%nat with (length AllAgentTypes).
  apply submseteq_length, NoDup_submseteq;
    [apply parseMentions_NoDup | intros agent; now apply parseMentions_roster].
Qed.

Lemma parseMentions_distinct_roster_agents_witness :
  parseMentions "@QA and @Dev, @qa again; not @developer" = [AgentQA; AgentDev]
  /\ NoDup (parseMentions "@QA and @Dev, @qa again; not @developer").
Proof.
  split; [reflexivity|].
  apply (parseMentions_distinct_roster_agents
           "@QA and @Dev, @qa again; not @developer" eq_refl).
Defined.

Lemma matchFree_clean (s : string) : matchFree s -> ReplaceAllString_empty s = s.
Proof.
  induction s as [|c t IH]; [reflexivity|]. cbn [matchFree]. intros [Hm Ht].
  rewrite (clean_kept _ _ Hm). now rewrite (IH Ht).
Qed.

Lemma trimRight_idem (s : string) : trimRight (trimRight s) = trimRight s.
Proof.
  induction s as [|c t IH]; [reflexivity|]. cbn [trimRight].
  destruct (trimRight t) as [|c' t'] eqn:E.
  - destruct (isSpace c) eqn:Hc; [reflexivity|]. cbn [trimRight]. now rewrite Hc.
  - change (trimRight (String c (String c' t')))
      with (match trimRight (String c' t') with
            | EmptyString => if isSpace c then EmptyString else String c EmptyString
            | t'' => String c t''
            end).
    now rewrite IH.
Qed.

Lemma trimLeft_headed (s : string) :
  match s with String c _ => isSpace c = false | EmptyString => True end ->
  trimLeft s = s.
Proof. destruct s as [|c t]; [reflexivity|]. cbn [trimLeft]. now intros ->. Qed.

Lemma trimLeft_head (s : string) :
  match trimLeft s with String c _ => isSpace c = false | EmptyString => True end.
Proof.
  induction s as [|c t IH]; [exact I|]. cbn [trimLeft].
  destruct (isSpace c) eqn:Hc; [exact IH | exact Hc].
Qed.

Lemma trimRight_head (s : string) :
  match s with String c _ => isSpace c = false | EmptyString => True end ->
  match trimRight s with String c _ => isSpace c = false | EmptyString => True end.
Proof.
  destruct s as [|c t]; [auto|]. intros Hc. cbn [trimRight].
  destruct (trimRight t); [now rewrite Hc | exact Hc].
Qed.

Lemma TrimSpace_idem (s : string) : TrimSpace (TrimSpace s) = TrimSpace s.
Proof.
  unfold TrimSpace.
  rewrite (trimLeft_headed (trimRight (trimLeft s)))
    by apply trimRight_head, trimLeft_head.
  apply trimRight_idem.
Qed.

(** X23.  Cleaning the mentions out of an ASCII message is idempotent: the
    cleaned text has no mention and no white space at either end left, so
    cleaning it again gives the same text. *)
Theorem cleanMentions_idempotent (content : string) :
  isASCII content = true ->
  cleanMentions (cleanMentions content) = cleanMentions content.
Proof.
  intros Hascii. unfold cleanMentions at 1.
  rewrite matchFree_clean.
  - unfold cleanMentions. apply TrimSpace_idem.
  - now apply cleanMentions_matchFree.
Qed.

Lemma cleanMentions_idempotent_witness :
  cleanMentions "  @dev fix the @QA report  " = "fix the  report"
  /\ cleanMentions (cleanMentions "  @dev fix the @QA report  ")
     = cleanMentions "  @dev fix the @QA report  ".
Proof.
  split; [reflexivity|].
  apply (cleanMentions_idempotent "  @dev fix the @QA report  " eq_refl).
Defined.

(** ** Replies that mention other agents *)

(** The loop of [SendAgentResponse] over the mentions is the loop of
    [RouteToMultiple] with the errors dropped. *)
Lemma routeMentions_routeToEach (agent : AgentType) (cleanContent channelID : string)
    (mentions : list AgentType) :
  forall (errors : list GoError) (w : World),
    routeMentions agent mentions cleanContent channelID w
    = match routeToEach agent mentions cleanContent channelID errors w with
      | Returns (_, w') => Returns (tt, w')
      | Panics reason => Panics reason
      end.
Proof.
  induction mentions as [|target mentions IH]; intros errors w; [reflexivity|].
  cbn [routeMentions routeToEach]. unfold bind.
  destruct (RouteToAgent agent target cleanContent channelID w) as [[err w1]|reason];
    [|reflexivity].
  destruct err as [e|]; apply IH.
Qed.

Lemma parseMentionsFromResponse_filter (content : string) :
  parseMentionsFromResponse content
  = filter (fun agent => Contains (ToLower content) ("@" +:+ agent) = true)
      AllAgentTypes.
Proof.
  unfold parseMentionsFromResponse.
  apply collectUnseen_spec, NoDup_filter, roster_NoDup.
Qed.

Lemma HandleAgentResponse_frame (from : AgentType) (content channelID : string)
    (w : World) :
  exists w1,
    HandleAgentResponse from content channelID w = Returns (tt, w1)
    /\ actorSystem w1 = actorSystem w
    /\ (forall ch, ch <> channelID ->
          conversationsOf w1 !! ch = conversationsOf w !! ch).
Proof.
  destruct (conversationsOf w !! channelID) as [c|] eqn:Hc.
  - destruct (HandleAgentResponse_run from content channelID w)
      as (w1 & m & Hrun & Hsys & _ & Hch & _); [rewrite Hc; eexists; reflexivity|].
    exists w1. split; [exact Hrun|]. split; [exact Hsys | exact Hch].
  - exists w. unfold HandleAgentResponse, GetConversation. step_now.
    rewrite bool_decide_eq_false_2 by (rewrite Hc; intros [? [=]]).
    repeat split.
Qed.

(** X24.  [SendAgentResponse] reports the outcome of the post and nothing
    else.  For an ASCII reply, while no mailbox of the roster has been
    stopped, it returns exactly what posting the reply returned.  When the post fails nothing
    is recorded and nothing is routed: the state is as before.  When it
    succeeds, every agent the reply mentions that would take a message
    gets one message from the replying agent with the cleaned text, and
    the mentions that cannot be delivered raise no error; mailboxes of
    agents not mentioned and conversations of other channels are as
    before. *)
Theorem SendAgentResponse_reports_post_only
    (SendAsAgent : AgentType -> string -> string -> option GoError)
    (agent : AgentType) (channelID content : string) (w : World) :
  isASCII content = true ->
  (forall a, a ∈ AllAgentTypes -> ~ mailboxStopped w a) ->
  exists w',
    SendAgentResponse SendAsAgent agent channelID content w
      = Returns (SendAsAgent agent channelID content, w')
    /\ (is_Some (SendAsAgent agent channelID content) -> w' = w)
    /\ (SendAsAgent agent channelID content = None ->
        (forall a, a ∉ parseMentionsFromResponse content ->
           mailboxesOf w' !! a = mailboxesOf w !! a)
        /\ (forall a, exists delivered,
              queueOf w' a = queueOf w a ++ delivered
              /\ Forall (carries agent a (cleanMentionsFromResponse content) channelID)
                   delivered
              /\ length delivered
                 = if bool_decide (a ∈ parseMentionsFromResponse content) && accepts w a
                   then 1%nat else 0%nat)
        /\ (forall ch, ch <> channelID ->
              conversationsOf w' !! ch = conversationsOf w !! ch)).
Proof.
  intros _ Hlive. unfold SendAgentResponse.
  destruct (SendAsAgent agent channelID content) as [e|] eqn:Hpost.
  - exists w. split; [reflexivity|]. split; [reflexivity | discriminate].
  - destruct (HandleAgentResponse_frame agent content channelID w)
      as (w1 & Hrun1 & Hsys1 & Hch1).
    step Hrun1.
    assert (Hmb1 : mailboxesOf w1 = mailboxesOf w)
      by (unfold mailboxesOf; now rewrite Hsys1).
    set (mentions := parseMentionsFromResponse content).
    assert (Hloop : (if (0 <? length mentions)%nat
                     then routeMentions agent mentions
                            (cleanMentionsFromResponse content) channelID
                     else ret tt)
                    = routeMentions agent mentions
                        (cleanMentionsFromResponse content) channelID)
      by now destruct mentions.
    rewrite Hloop.
    destruct (routeToEach_spec agent (cleanMentionsFromResponse content) channelID
                mentions [] w1)
      as (errs & w' & ms & Hrun & _ & Hout & _ & Hq & Hch & _).
    { unfold mentions. rewrite parseMentionsFromResponse_filter.
      apply NoDup_filter, roster_NoDup. }
    { intros a Ha Hs. apply (Hlive a).
      - unfold mentions in Ha. rewrite parseMentionsFromResponse_filter in Ha.
        now apply list_elem_of_filter in Ha as [_ Ha].
      - now apply (mailboxStopped_same_mailboxes w w1 a); [rewrite Hmb1|]. }
    exists w'.
    rewrite (bind_Returns _ _ w1 w' tt)
      by (rewrite (routeMentions_routeToEach _ _ _ _ []); now rewrite Hrun).
    split; [reflexivity|]. split; [intros [? [=]]|]. intros _.
    split; [intros a Ha; rewrite (Hout a Ha); now rewrite Hmb1|].
    split.
    + intros a. destruct (Hq a) as (delivered & Hqa & Hall & Hn).
      exists delivered. rewrite Hqa. unfold queueOf at 1. rewrite Hmb1.
      split; [reflexivity|]. split; [exact Hall|]. rewrite Hn.
      now rewrite (accepts_same_mailboxes w w1 a) by now rewrite Hmb1.
    + intros ch Hne. rewrite (Hch ch Hne). now apply Hch1.
Qed.

Lemma SendAgentResponse_reports_post_only_witness :
  exists w',
    SendAgentResponse (fun _ _ _ => None) AgentMaster "room" "@Dev and @nobody: go"
      sampleWorld = Returns (None, w')
    /\ length (queueOf w' AgentDev) = 1%nat
    /\ queueOf w' AgentQA = [].
Proof.
  destruct (SendAgentResponse_reports_post_only (fun _ _ _ => None) AgentMaster "room"
              "@Dev and @nobody: go" sampleWorld)
    as (w' & Hrun & _ & Hok).
  - reflexivity.
  - intros a Ha (m & Hm & Hclosed).
    repeat (apply elem_of_cons in Ha as [-> | Ha]);
      try (vm_compute in Hm; first [discriminate Hm | injection Hm as <-];
           discriminate Hclosed).
    inversion Ha.
  - exists w'. split; [exact Hrun|].
    destruct (Hok eq_refl) as (_ & Hq & _).
    split.
    + destruct (Hq AgentDev) as (delivered & -> & _ & Hn).
      rewrite length_app, Hn. reflexivity.
    + destruct (Hq AgentQA) as (delivered & -> & _ & Hn).
      destruct delivered; [reflexivity | discriminate Hn].
Defined.

(** ** The gateway *)

Lemma isOurBot_true (c : MultiAgentDiscordChannel.t) (userID : string) :
  isOurBot c userID = true
  <-> MultiAgentDiscordChannel.gatewayUserID c = Some userID
      \/ exists agent, MultiAgentDiscordChannel.botUserIDs c !! agent = Some userID.
Proof.
  unfold isOurBot.
  assert (Hbots : existsb (fun bot : AgentType * string => String.eqb bot.2 userID)
                    (map_to_list (MultiAgentDiscordChannel.botUserIDs c)) = true
                  <-> exists agent,
                        MultiAgentDiscordChannel.botUserIDs c !! agent = Some userID).
  { rewrite existsb_exists. split.
    - intros ([agent id] & Hin & Heq). apply String.eqb_eq in Heq. cbn in Heq.
      subst id. exists agent. now apply elem_of_map_to_list, list_elem_of_In.
    - intros (agent & Hagent). exists (agent, userID). split.
      + now apply list_elem_of_In, elem_of_map_to_list.
      + apply String.eqb_refl. }
  destruct (MultiAgentDiscordChannel.gatewayUserID c) as [id|].
  - destruct (String.eqb id userID) eqn:Hid.
    + apply String.eqb_eq in Hid as ->. split; [now left | reflexivity].
    + apply String.eqb_neq in Hid. rewrite Hbots. split; [now right|].
      intros [[= ->] | H]; [contradiction | exact H].
  - rewrite Hbots. split; [now right | intros [[=] | H]; exact H].
Qed.

(** X25.  Loop prevention: a message whose author is the gateway's own
    user or the user of any agent bot is dropped, whatever it says and
    wherever it was posted: nothing is published, and the mailboxes, the
    conversations and the clock are as before.  So is a message without
    an author. *)
Theorem handleGatewayMessage_drops_own_messages
    (c : MultiAgentDiscordChannel.t) (m : MessageCreate.t) (w : World) :
  match MessageCreate.Author m with
  | Some author =>
      MultiAgentDiscordChannel.gatewayUserID c = Some (DiscordUser.ID author)
      \/ exists agent,
           MultiAgentDiscordChannel.botUserIDs c !! agent
           = Some (DiscordUser.ID author)
  | None => True
  end ->
  handleGatewayMessage c (Some m) w = Returns (None, w).
Proof.
  unfold handleGatewayMessage.
  destruct (MessageCreate.Author m) as [author|]; [|reflexivity].
  intros Hown. apply isOurBot_true in Hown. now rewrite Hown.
Qed.

Lemma handleGatewayMessage_drops_own_messages_witness :
  let c := MultiAgentDiscordChannel.mk (Some "900") (<[AgentDev := "901"]> ∅) "" in
  let m := MessageCreate.mk "m1" (Some (DiscordUser.mk "901" "dev-bot" "0")) "room" "g"
             "@qa please review" in
  handleGatewayMessage c (Some m) sampleWorld = Returns (None, sampleWorld).
Proof.
  intros c m. apply (handleGatewayMessage_drops_own_messages c m sampleWorld).
  right. exists AgentDev. reflexivity.
Defined.

Lemma effectiveTargets_parseMentions (content : string) :
  isASCII content = true ->
  NoDup (effectiveTargets (parseMentions content))
  /\ forall a, a ∈ effectiveTargets (parseMentions content) -> a ∈ AllAgentTypes.
Proof.
  intros Hascii. unfold effectiveTargets.
  destruct (parseMentions content) as [|a l] eqn:E.
  - split; [apply NoDup_singleton|].
    intros a Ha. apply list_elem_of_singleton in Ha as ->. left.
  - rewrite <- E. split; [apply parseMentions_NoDup|].
    intros b. now apply parseMentions_roster.
Qed.

Lemma truncateForLog_returns (s : string) (maxLen : Z) :
  0 <= maxLen -> exists r, truncateForLog s maxLen = Returns r.
Proof.
  intros Hmax. unfold truncateForLog.
  destruct (_ <=? maxLen); [eexists; reflexivity|].
  destruct (maxLen <? 0) eqn:Hneg; [apply Z.ltb_lt in Hneg; lia|].
  eexists; reflexivity.
Qed.

(** X26.  A message from somebody else, posted in the main channel (or
    anywhere when no main channel is set), is recorded and routed once.
    For ASCII text, while no mailbox of the roster has been stopped, the
    gateway returns and publishes one message whose text is the text with
    the mentions cleaned out, for the channel and the sender of the
    message, with the agents mentioned joined by commas as its
    [target_agents]; the history of the channel grows by one human entry
    with the cleaned text, addressed to the agents mentioned; and every
    agent among the targets (the coordinator when nobody is mentioned)
    that would take a message gets one queued, marked as coming from the
    sender. *)
Theorem handleGatewayMessage_routes_once
    (c : MultiAgentDiscordChannel.t) (m : MessageCreate.t) (author : DiscordUser.t)
    (w : World) :
  MessageCreate.Author m = Some author ->
  isOurBot c (DiscordUser.ID author) = false ->
  MultiAgentDiscordChannel.mainChannelID c = ""
  \/ MessageCreate.ChannelID m = MultiAgentDiscordChannel.mainChannelID c ->
  isASCII (MessageCreate.Content m) = true ->
  (forall a, a ∈ AllAgentTypes -> ~ mailboxStopped w a) ->
  let targets := parseMentions (MessageCreate.Content m) in
  let content := cleanMentions (MessageCreate.Content m) in
  let channelID := MessageCreate.ChannelID m in
  exists inbound w' entry,
    handleGatewayMessage c (Some m) w = Returns (Some inbound, w')
    /\ InboundMessage.Content inbound = content
    /\ InboundMessage.ChatID inbound = channelID
    /\ InboundMessage.SenderID inbound = DiscordUser.ID author
    /\ InboundMessage.Metadata inbound !! "target_agents" = Some (Join targets ",")
    /\ historyOf w' channelID = historyOf w channelID ++ [entry]
    /\ records "" targets content true entry
    /\ (forall a, exists delivered,
          queueOf w' a = queueOf w a ++ delivered
          /\ Forall (humanMessage (DiscordUser.ID author) a content channelID) delivered
          /\ length delivered
             = if bool_decide (a ∈ effectiveTargets targets) && accepts w a
               then 1%nat else 0%nat).
Proof.
  intros Hauthor Hother Hmain Hascii Hlive targets content channelID.
  unfold handleGatewayMessage. rewrite Hauthor, Hother.
  assert (Hwatched : negb (String.eqb (MultiAgentDiscordChannel.mainChannelID c) "")
                     && negb (String.eqb (MessageCreate.ChannelID m)
                                (MultiAgentDiscordChannel.mainChannelID c)) = false).
  { destruct Hmain as [-> | ->]; [reflexivity|].
    rewrite String.eqb_refl. apply andb_false_r. }
  rewrite Hwatched.
  destruct (truncateForLog_returns (cleanMentions (MessageCreate.Content m)) 50)
    as (r & ->); [lia|].
  destruct (effectiveTargets_parseMentions (MessageCreate.Content m) Hascii)
    as [Hnodup Hroster].
  destruct (RouteFromHuman_run targets content channelID (DiscordUser.ID author) w Hnodup)
    as (errs & w' & entry & Hrun & _ & _ & Hq & _ & Hhist & Hentry & _).
  { intros a Ha. apply Hlive, Hroster, Ha. }
  fold targets content channelID. step Hrun.
  eexists _, w', entry. split; [reflexivity|].
  cbn [InboundMessage.Content InboundMessage.ChatID InboundMessage.SenderID
       InboundMessage.Metadata].
  split; [reflexivity|]. split; [reflexivity|]. split; [reflexivity|].
  split.
  { rewrite lookup_insert_eq. unfold agentTypesToStrings. now rewrite list_fmap_id. }
  split; [exact Hhist|]. split; [exact Hentry | exact Hq].
Qed.

Lemma handleGatewayMessage_routes_once_witness :
  let c := MultiAgentDiscordChannel.mk (Some "900") (<[AgentDev := "901"]> ∅) "room" in
  let m := MessageCreate.mk "m1" (Some (DiscordUser.mk "7" "ann" "0")) "room" "g"
             "@QA and @dev: please review" in
  exists inbound w',
    handleGatewayMessage c (Some m) sampleWorld = Returns (Some inbound, w')
    /\ InboundMessage.Content inbound = "and : please review"
    /\ InboundMessage.Metadata inbound !! "target_agents" = Some "qa,dev"
    /\ length (queueOf w' AgentQA) = 1%nat
    /\ queueOf w' AgentMaster = [].
Proof.
  intros c m.
  destruct (handleGatewayMessage_routes_once c m (DiscordUser.mk "7" "ann" "0")
              sampleWorld)
    as (inbound & w' & entry & Hrun & Hcontent & _ & _ & Htargets & _ & _ & Hq).
  - reflexivity.
  - reflexivity.
  - right. reflexivity.
  - reflexivity.
  - intros a Ha (mb & Hmb & Hclosed).
    repeat (apply elem_of_cons in Ha as [-> | Ha]);
      try (vm_compute in Hmb; first [discriminate Hmb | injection Hmb as <-];
           discriminate Hclosed).
    inversion Ha.
  - exists inbound, w'. split; [exact Hrun|]. split; [exact Hcontent|].
    split; [exact Htargets|]. split.
    + destruct (Hq AgentQA) as (delivered & -> & _ & Hn).
      rewrite length_app, Hn. reflexivity.
    + destruct (Hq AgentMaster) as (delivered & -> & _ & Hn).
      destruct delivered; [reflexivity | discriminate Hn].
Defined.

(** ** The agent handler *)

Lemma prefix_refl (s : string) : String.prefix s s = true.
Proof. rewrite <- (append_nil_r s) at 2. apply prefix_append. Qed.

(** X27.  [handleAgentMessage] publishes one message for the agent it is
    given and changes no counter and no history.  The message is for the
    channel and from the sender of the queued message; its session key is
    [discord_multi:<channel>:<agent>]; the agent read back from its
    metadata by [getAgentFromMetadata] is the agent in lower case, hence
    the agent itself for every agent of the roster; its system prompt
    begins with the agent's prompt (the empty text when the agent has
    none) and is that prompt alone when the channel has no history.  The
    mailboxes are as before, and so are the pending counter and the
    history of every channel; the channel of the message has a
    conversation afterwards. *)
Theorem handleAgentMessage_publishes_for_agent
    (agentPrompts : gmap AgentType string) (agent : AgentType)
    (msg : ActorMessage.t) (w : World) :
  exists inbound w' systemPrompt,
    handleAgentMessage agentPrompts agent msg w = Returns (inbound, w')
    /\ InboundMessage.ChatID inbound = ActorMessage.ChannelID msg
    /\ InboundMessage.SenderID inbound = ActorMessage.From msg
    /\ InboundMessage.SessionKey inbound
       = "discord_multi:" +:+ ActorMessage.ChannelID msg +:+ ":" +:+ agent
    /\ getAgentFromMetadata (Some (InboundMessage.Metadata inbound)) = ToLower agent
    /\ (agent ∈ AllAgentTypes ->
        getAgentFromMetadata (Some (InboundMessage.Metadata inbound)) = agent)
    /\ InboundMessage.Metadata inbound !! "system_prompt" = Some systemPrompt
    /\ String.prefix (default "" (agentPrompts !! agent)) systemPrompt = true
    /\ (historyOf w (ActorMessage.ChannelID msg) = [] ->
        systemPrompt = default "" (agentPrompts !! agent))
    /\ mailboxesOf w' = mailboxesOf w
    /\ is_Some (conversationsOf w' !! ActorMessage.ChannelID msg)
    /\ (forall ch,
          pendingOf w' ch = pendingOf w ch /\ historyOf w' ch = historyOf w ch).
Proof.
  unfold handleAgentMessage.
  destruct (truncateForLog_returns (ActorMessage.Content msg) 50) as (r & ->); [lia|].
  destruct (GetOrCreateConversation_spec (ActorMessage.ChannelID msg) w)
    as (w0 & c & E0 & Hsys & _ & Hcs & Hp & Hh & _).
  step E0.
  assert (Hc : conversationsOf w0 !! ActorMessage.ChannelID msg = Some c)
    by (rewrite Hcs; apply lookup_insert_eq).
  rewrite Hc. cbn [from_option].
  eexists _, w0, _. split; [reflexivity|].
  cbn [InboundMessage.ChatID InboundMessage.SenderID InboundMessage.SessionKey
       InboundMessage.Metadata].
  split; [reflexivity|]. split; [reflexivity|]. split; [reflexivity|].
  assert (Hagent : getAgentFromMetadata
                     (Some (<["is_multi_agent" := "true"]>
                              (<["system_prompt" :=
                                   if negb (String.eqb (BuildContextForAgent agent 10 c) "")
                                   then default "" (agentPrompts !! agent) +:+ newline
                                          +:+ newline +:+ "## Recent Conversation:"
                                          +:+ newline +:+ BuildContextForAgent agent 10 c
                                   else default "" (agentPrompts !! agent)]>
                                 (<["agent" := agent]> ∅))))
                   = ToLower agent).
  { unfold getAgentFromMetadata.
    now rewrite !lookup_insert_ne, lookup_insert_eq by discriminate. }
  split; [exact Hagent|].
  split.
  { intros Hin. rewrite Hagent.
    pose proof roster_lowercase as Hlow. rewrite Forall_forall in Hlow.
    exact (Hlow agent Hin). }
  split; [now rewrite lookup_insert_ne, lookup_insert_eq by discriminate|].
  split.
  { destruct (negb _); [apply prefix_append | apply prefix_refl]. }
  split.
  { intros Hempty. rewrite <- Hh in Hempty.
    unfold BuildContextForAgent, GetRecentMessages. rewrite Hempty. reflexivity. }
  split; [unfold mailboxesOf; now rewrite Hsys|].
  split; [rewrite Hc; eexists; reflexivity|].
  intros ch. unfold pendingOf at 1, historyOf at 1. rewrite Hcs.
  destruct (decide (ch = ActorMessage.ChannelID msg)) as [-> | Hne].
  - rewrite lookup_insert_eq. cbn [from_option]. split; [exact Hp | exact Hh].
  - rewrite lookup_insert_ne by congruence. split; reflexivity.
Qed.

(** ** Log previews *)

Lemma takeString_dropString (n : nat) (s : string) :
  s = takeString n s +:+ dropString n s.
Proof.
  revert s. induction n as [|n IH]; intros s; [reflexivity|].
  destruct s as [|c t]; [reflexivity|]. cbn [takeString dropString].
  rewrite append_cons. f_equal. apply IH.
Qed.

Lemma length_takeString (n : nat) (s : string) :
  String.length (takeString n s) = Nat.min n (String.length s).
Proof.
  revert s. induction n as [|n IH]; intros s; [reflexivity|].
  destruct s as [|c t]; [reflexivity|]. cbn [takeString String.length].
  rewrite IH. reflexivity.
Qed.

(** X28.  [truncateForLog] with a bound that is not negative returns a
    text of at most [maxLen + 3] bytes: the text itself when it fits, and
    otherwise its first [maxLen] bytes followed by three dots.  With a
    negative bound it panics on every text, the empty one included. *)
Theorem truncateForLog_bounds (s : string) (maxLen : Z) :
  (maxLen < 0 -> exists reason, truncateForLog s maxLen = Panics reason)
  /\ (0 <= maxLen ->
      exists r,
        truncateForLog s maxLen = Returns r
        /\ Z.of_nat (String.length r) <= maxLen + 3
        /\ (Z.of_nat (String.length s) <= maxLen -> r = s)
        /\ (maxLen < Z.of_nat (String.length s) ->
            r = takeString (Z.to_nat maxLen) s +:+ "..."
            /\ Z.of_nat (String.length r) = maxLen + 3
            /\ String.prefix (takeString (Z.to_nat maxLen) s) s = true)).
Proof.
  unfold truncateForLog. split.
  - intros Hneg. destruct (Z.leb_spec (Z.of_nat (String.length s)) maxLen); [lia|].
    destruct (Z.ltb_spec maxLen 0); [eexists; reflexivity | lia].
  - intros Hmax. destruct (Z.leb_spec (Z.of_nat (String.length s)) maxLen) as [Hfits | Hlong].
    + exists s. split; [reflexivity|]. split; [lia|]. split; [reflexivity | lia].
    + destruct (Z.ltb_spec maxLen 0); [lia|].
      eexists. split; [reflexivity|].
      assert (Hlen : Z.of_nat (String.length (takeString (Z.to_nat maxLen) s +:+ "..."))
                     = maxLen + 3).
      { rewrite length_append, length_takeString. cbn [String.length]. lia. }
      split; [lia|]. split; [lia|]. intros _.
      split; [reflexivity|]. split; [exact Hlen|].
      rewrite (takeString_dropString (Z.to_nat maxLen) s) at 2. apply prefix_append.
Qed.

(** ** A round of answers *)

Lemma handleResponses_run (channelID : string) (replies : list (AgentType * string)) :
  forall w : World,
    is_Some (conversationsOf w !! channelID) ->
    0 <= pendingOf w channelID <= intMax ->
    exists w',
      handleResponses replies channelID w = Returns (tt, w')
      /\ actorSystem w' = actorSystem w
      /\ pendingOf w' channelID
         = Z.max 0 (pendingOf w channelID - Z.of_nat (length replies))
      /\ length (historyOf w' channelID)
         = (length (historyOf w channelID) + length replies)%nat.
Proof.
  induction replies as [|[from content] replies IH]; intros w Hconv Hrange.
  - exists w. split; [reflexivity|]. split; [reflexivity|].
    cbn [length]. split; lia.
  - cbn [handleResponses].
    destruct (HandleAgentResponse_run from content channelID w Hconv)
      as (w1 & m & Hrun & Hsys & _ & _ & Hconv1 & Hhist & _ & Hpend & _).
    specialize (Hpend ltac:(lia)). step Hrun.
    assert (Hrange1 : 0 <= pendingOf w1 channelID <= intMax).
    { rewrite Hpend. destruct (0 <? pendingOf w channelID) eqn:Hpos;
        [apply Z.ltb_lt in Hpos|]; lia. }
    destruct (IH w1 Hconv1 Hrange1) as (w' & Hrun' & Hsys' & Hpend' & Hhist').
    exists w'. split; [exact Hrun'|]. split; [congruence|]. split.
    + rewrite Hpend', Hpend. cbn [length].
      destruct (0 <? pendingOf w channelID) eqn:Hpos;
        [apply Z.ltb_lt in Hpos | apply Z.ltb_ge in Hpos]; lia.
    + rewrite Hhist', Hhist, length_app. cbn [length]. lia.
Qed.

(** X29.  Answers settle what routing left pending.  After
    [RouteFromHuman] to pairwise distinct targets, none of them stopped,
    followed by any number of replies on the channel, the pending counter
    is its value before plus the number of targets that took the message
    minus the number of replies, and 0 when that would be negative; so it
    is back at its value before once every target that took the message
    has answered.  The history has grown by the human's entry and one
    entry per reply. *)
Theorem answers_settle_pending
    (targets : list AgentType) (content channelID senderID : string)
    (replies : list (AgentType * string)) (w : World) :
  NoDup (effectiveTargets targets) ->
  (forall a, a ∈ effectiveTargets targets -> ~ mailboxStopped w a) ->
  0 <= pendingOf w channelID ->
  pendingOf w channelID + Z.of_nat (length (effectiveTargets targets)) <= intMax ->
  exists w',
    (RouteFromHuman targets content channelID senderID ;;
     handleResponses replies channelID) w = Returns (tt, w')
    /\ pendingOf w' channelID
       = Z.max 0
           (pendingOf w channelID
            + Z.of_nat (length (filter (fun a => accepts w a = true)
                                  (effectiveTargets targets)))
            - Z.of_nat (length replies))
    /\ length (historyOf w' channelID)
       = (length (historyOf w channelID) + 1 + length replies)%nat.
Proof.
  intros Hnodup Hlive H0 Hmax.
  destruct (RouteFromHuman_run targets content channelID senderID w Hnodup Hlive)
    as (errs & w1 & m & Hrun & _ & _ & _ & _ & Hhist & _ & Hpend).
  specialize (Hpend H0 Hmax). step Hrun.
  assert (Hcount : (length (filter (fun a => accepts w a = true)
                              (effectiveTargets targets))
                    <= length (effectiveTargets targets))%nat) by apply length_filter.
  destruct (handleResponses_run channelID replies w1)
    as (w' & Hrun' & _ & Hpend' & Hhist').
  - unfold historyOf in Hhist.
    destruct (conversationsOf w1 !! channelID) as [c|]; [eexists; reflexivity|].
    cbn in Hhist. now destruct (from_option _ _ _).
  - rewrite Hpend. lia.
  - exists w'. split; [exact Hrun'|]. split.
    + now rewrite Hpend', Hpend.
    + rewrite Hhist', Hhist, length_app. cbn [length]. lia.
Qed.

Lemma answers_settle_pending_witness :
  exists w',
    (RouteFromHuman [AgentDev; AgentQA] "status?" "room" "user-7" ;;
     handleResponses [(AgentQA, "green"); (AgentDev, "merged")] "room") sampleWorld
    = Returns (tt, w')
    /\ pendingOf w' "room" = 0
    /\ length (historyOf w' "room") = 3%nat.
Proof.
  destruct (answers_settle_pending [AgentDev; AgentQA] "status?" "room" "user-7"
              [(AgentQA, "green"); (AgentDev, "merged")] sampleWorld)
    as (w' & Hrun & Hpend & Hhist).
  - apply (bool_decide_unpack _). vm_compute. reflexivity.
  - intros a Ha (mb & Hmb & Hclosed).
    repeat (apply elem_of_cons in Ha as [-> | Ha]);
      try (vm_compute in Hmb; first [discriminate Hmb | injection Hmb as <-];
           discriminate Hclosed).
    inversion Ha.
  - vm_compute. discriminate.
  - vm_compute. discriminate.
  - exists w'. split; [exact Hrun|]. split; [rewrite Hpend | rewrite Hhist]; reflexivity.
Defined.

(** ** A new manager *)

Lemma cleanupIdleConversations_lookup (timeSub : Time -> Time -> Z) (w : World) :
  exists w',
    cleanupIdleConversations timeSub w = Returns (tt, w')
    /\ forall channelID,
         conversationsOf w' !! channelID
         = match conversationsOf w !! channelID with
           | Some c => if isIdleAt timeSub (nowOf w) c then None else Some c
           | None => None
           end.
Proof.
  unfold cleanupIdleConversations. step_now. eexists. split; [reflexivity|].
  change (conversationsOf (setConversations ?cs _)) with cs.
  change (conversationsOf (tick w)) with (conversationsOf w).
  intros k. rewrite lookup_dropChannels.
  destruct (conversationsOf w !! k) as [c|] eqn:Hc.
  - destruct (isIdleAt timeSub (nowOf w) c) eqn:Hidle.
    + rewrite bool_decide_eq_true_2; [reflexivity|].
      apply elem_of_idleChannels. eauto.
    + rewrite bool_decide_eq_false_2; [reflexivity|].
      rewrite elem_of_idleChannels. intros (c' & Hc' & Hidle'). congruence.
  - rewrite bool_decide_eq_false_2; [reflexivity|].
    rewrite elem_of_idleChannels. intros (c' & Hc' & _). congruence.
Qed.

(** X30.  A manager made by [NewConversationManager] starts without
    conversations, and the conversations it creates carry the idle
    timeout it was made with: five minutes when that is 0, and the value
    itself otherwise, a negative one included.  The first conversation of
    such a manager, when nothing is called on it, is removed by a round
    of cleanup exactly when the time from its last activity (the third
    clock reading of its creation) to the reading of the round is longer
    than that timeout. *)
Theorem new_manager_reaps_after_timeout
    (timeSub : Time -> Time -> Z) (idleTimeout : Z) (clock0 : Clock.t)
    (sys : ActorSystem.t) (channelID : string) :
  exists w1 c w2,
    GetOrCreateConversation channelID
      (mkWorld clock0 sys (NewConversationManager idleTimeout)) = Returns (tt, w1)
    /\ conversationsOf w1 = {[ channelID := c ]}
    /\ Conversation.IdleTimeout c
       = (if idleTimeout =? 0 then 5 * minute else idleTimeout)
    /\ Conversation.LastActivity c = Clock.wall clock0 (2 + Clock.reads clock0)
    /\ cleanupIdleConversations timeSub w1 = Returns (tt, w2)
    /\ conversationsOf w2 !! channelID
       = if (if idleTimeout =? 0 then 5 * minute else idleTimeout)
            <? timeSub (Clock.wall clock0 (3 + Clock.reads clock0))
                 (Clock.wall clock0 (2 + Clock.reads clock0))
         then None else Some c.
Proof.
  set (w := mkWorld clock0 sys (NewConversationManager idleTimeout)).
  assert (Hcreate : exists c,
            GetOrCreateConversation channelID w
            = Returns (tt, setConversations {[ channelID := c ]} (tick (tick (tick w))))
            /\ Conversation.IdleTimeout c
               = (if idleTimeout =? 0 then 5 * minute else idleTimeout)
            /\ Conversation.LastActivity c = Clock.wall clock0 (2 + Clock.reads clock0)
            /\ Conversation.PendingCount c = 0).
  { unfold GetOrCreateConversation.
    change (conversationsOf w) with (∅ : gmap string Conversation.t).
    rewrite lookup_empty. do 3 step_now.
    eexists. split; [reflexivity|]. repeat split. }
  destruct Hcreate as (c & Hrun & Htimeout & Hlast & Hpending).
  destruct (cleanupIdleConversations_lookup timeSub
              (setConversations {[ channelID := c ]} (tick (tick (tick w)))))
    as (w2 & Hrun2 & Hlookup).
  eexists _, c, w2. split; [exact Hrun|]. split; [reflexivity|].
  split; [exact Htimeout|]. split; [exact Hlast|]. split; [exact Hrun2|].
  rewrite Hlookup.
  change (conversationsOf (setConversations ?cs _)) with cs.
  rewrite lookup_singleton_eq. unfold isIdleAt.
  rewrite Hpending, Htimeout, Hlast. reflexivity.
Qed.
